(** * Reimbursement Analyzer: field extractors, archive walker, aggregator

  A shallow embedding of [src/helper.py] and [src/store.py].

  Python strings are sequences of Unicode code points; they are modelled
  as lists of code points.  Exceptions are explicit ([result]); the
  session state, the file system and the per-employee dictionaries are
  passed explicitly.  What the program obtains from CPython's Unicode
  tables, from the operating system (the order in which a directory is
  listed) and from its external collaborators (the PDF library, the
  text generation service, the vector store) is taken as a parameter. *)

From Stdlib Require Import String Ascii List NArith Arith Bool Lia.
From Stdlib Require Import Permutation.
Import ListNotations.

Set Implicit Arguments.

(** ** Python strings *)

Module Py.

Definition char := N.
Bind Scope N_scope with char.
Definition str := list char.

(** An ASCII literal of the source as a Python string. *)
Definition lit (s : string) : str :=
  map N_of_ascii (list_ascii_of_string s).

Definition char_eqb (a b : char) : bool := N.eqb a b.

Fixpoint str_eqb (a b : str) : bool :=
  match a, b with
  | [], [] => true
  | x :: a', y :: b' => char_eqb x y && str_eqb a' b'
  | _, _ => false
  end.

Definition in_range (lo hi c : char) : bool :=
  (N.leb lo c && N.leb c hi)%bool.

(** [str.isspace] on one character, which is also the class [\s] of a
    [str] pattern (CPython's [_PyUnicode_IsWhitespace]). *)
Definition isspace (c : char) : bool :=
  in_range 9 13 c || in_range 28 32 c || char_eqb c 133 || char_eqb c 160
  || char_eqb c 5760 || in_range 8192 8202 c || char_eqb c 8232
  || char_eqb c 8233 || char_eqb c 8239 || char_eqb c 8287
  || char_eqb c 12288.

(** [s.startswith(p)] *)
Fixpoint startswith (p s : str) : bool :=
  match p, s with
  | [], _ => true
  | _ :: _, [] => false
  | x :: p', y :: s' => char_eqb x y && startswith p' s'
  end.

(** [s.endswith(p)] *)
Definition endswith (p s : str) : bool :=
  startswith (rev p) (rev s).

(** [sub in s] *)
Fixpoint contains (sub s : str) : bool :=
  startswith sub s ||
  match s with
  | [] => false
  | _ :: s' => contains sub s'
  end.

(** [s.count(sub)]: occurrences are counted from the left and do not
    overlap; [skip] characters of the last occurrence are still to be
    passed over. *)
Fixpoint count_from (skip : nat) (sub s : str) : nat :=
  match s with
  | [] => 0
  | _ :: s' =>
      match skip with
      | S k => count_from k sub s'
      | O => if startswith sub s
             then S (count_from (length sub - 1) sub s')
             else count_from 0 sub s'
      end
  end.

Definition count (sub s : str) : nat :=
  match sub with
  | [] => S (length s)
  | _ :: _ => count_from 0 sub s
  end.

(** [s.replace(old, new)] for a non-empty [old]. *)
Fixpoint replace_from (skip : nat) (old new s : str) : str :=
  match s with
  | [] => []
  | c :: s' =>
      match skip with
      | S k => replace_from k old new s'
      | O => if startswith old s
             then new ++ replace_from (length old - 1) old new s'
             else c :: replace_from 0 old new s'
      end
  end.

Definition replace (old new s : str) : str := replace_from 0 old new s.

(** [s.split(sep)] for a separator of one character. *)
Fixpoint split (sep : char) (s : str) : list str :=
  match s with
  | [] => [[]]
  | c :: s' =>
      if char_eqb c sep then [] :: split sep s'
      else match split sep s' with
           | [] => [[c]]
           | w :: ws => (c :: w) :: ws
           end
  end.

(** [s.split(sep, 1)] for a separator of one character. *)
Fixpoint split1 (sep : char) (s : str) : list str :=
  match s with
  | [] => [[]]
  | c :: s' =>
      if char_eqb c sep then [[]; s']
      else match split1 sep s' with
           | [] => [[c]]
           | w :: ws => (c :: w) :: ws
           end
  end.

Fixpoint lstrip (s : str) : str :=
  match s with
  | [] => []
  | c :: s' => if isspace c then lstrip s' else s
  end.

Definition rstrip (s : str) : str := rev (lstrip (rev s)).

(** [s.strip()] *)
Definition strip (s : str) : str := rstrip (lstrip s).

(** [sep.join(l)] *)
Fixpoint join (sep : str) (l : list str) : str :=
  match l with
  | [] => []
  | [x] => x
  | x :: l' => x ++ sep ++ join sep l'
  end.

(** [s.zfill(width)]: a leading sign stays in front of the padding. *)
Definition zfill (width : nat) (s : str) : str :=
  let pad := repeat (48 : char) (width - length s) in
  match s with
  | c :: s' =>
      if char_eqb c 43 || char_eqb c 45 then c :: pad ++ s' else pad ++ s
  | [] => pad
  end.

(** [s[:-n]] *)
Definition drop_last (n : nat) (s : str) : str :=
  firstn (length s - n) s.

(** [s[1:-1]] *)
Definition strip_ends (s : str) : str := drop_last 1 (tl s).

(** [len(s) > 1] *)
Definition longer_than_one (s : str) : bool := Nat.ltb 1 (length s).

End Py.
Import Py.

(** ** Regular expressions

    Every pattern of the program is a sequence of greedy repetitions of one
    character class (a literal character is a class repeated once), with
    word boundaries and capture groups.  [match_atoms] is the backtracking
    matcher of [re] for such sequences: a repetition first takes as many
    characters as it can and gives them back one by one. *)

Module Re.

Inductive atom :=
| Rep (g : nat) (cls : char -> bool) (lo : nat) (hi : option nat)
    (** [cls{lo,hi}], inside capture group [g] (outside any group when
        [g] is [0]) *)
| Boundary (word : char -> bool).
    (** [\b], where [word] is the class [\w] *)

Definition segments := list (nat * str).

(** Length of the longest prefix of [s] inside [cls], at most [cap]. *)
Fixpoint run (cls : char -> bool) (cap : option nat) (s : str) : nat :=
  match s with
  | [] => 0
  | c :: s' =>
      if cls c then
        match cap with
        | None => S (run cls None s')
        | Some 0 => 0
        | Some (S k) => S (run cls (Some k) s')
        end
      else 0
  end.

(** The character before the position reached after [seg]. *)
Definition last_char (prev : option char) (seg : str) : option char :=
  match rev seg with
  | c :: _ => Some c
  | [] => prev
  end.

Definition is_word (word : char -> bool) (c : option char) : bool :=
  match c with
  | Some x => word x
  | None => false
  end.

Definition at_boundary (word : char -> bool) (prev : option char) (s : str)
  : bool :=
  xorb (is_word word prev) (is_word word (hd_error s)).

(** Backtracking over the number of characters a repetition keeps:
    [n], then [n - 1], down to [lo]; [k i] is the match of the rest of
    the pattern when the repetition keeps [i] characters. *)
Fixpoint back (lo : nat) (k : nat -> option segments) (n : nat)
  : option segments :=
  match (if Nat.leb lo n then k n else None) with
  | Some r => Some r
  | None => match n with
            | O => None
            | S n' => back lo k n'
            end
  end.

Fixpoint match_atoms (p : list atom) (prev : option char) (s : str)
  {struct p} : option segments :=
  match p with
  | [] => Some []
  | Boundary word :: p' =>
      if at_boundary word prev s then match_atoms p' prev s else None
  | Rep g cls lo hi :: p' =>
      back lo
        (fun n =>
           match match_atoms p' (last_char prev (firstn n s)) (skipn n s) with
           | Some r => Some ((g, firstn n s) :: r)
           | None => None
           end)
        (run cls hi s)
  end.

(** [m.group(g)] *)
Definition group (g : nat) (m : segments) : str :=
  concat (map snd (filter (fun x => Nat.eqb (fst x) g) m)).

(** [len(m.group(0))] *)
Definition matched_len (m : segments) : nat :=
  length (concat (map snd m)).

(** [re.search(p, s)]: the match at the leftmost position that has one. *)
Fixpoint search_from (p : list atom) (prev : option char) (s : str)
  : option segments :=
  match match_atoms p prev s with
  | Some m => Some m
  | None => match s with
            | [] => None
            | c :: s' => search_from p (Some c) s'
            end
  end.

Definition search (p : list atom) (s : str) : option segments :=
  search_from p None s.

(** The matches of [re.findall(p, s)], from the left, not overlapping. *)
Fixpoint finditer_from (p : list atom) (skip : nat) (prev : option char)
  (s : str) {struct s} : list segments :=
  let next k :=
    match s with
    | [] => []
    | c :: s' => finditer_from p k (Some c) s'
    end in
  match skip with
  | S k => next k
  | O => match match_atoms p prev s with
         | Some m => m :: next (matched_len m - 1)
         | None => next 0
         end
  end.

(** [re.findall(p, s)] for a pattern with one capture group. *)
Definition findall (p : list atom) (s : str) : list str :=
  map (group 1) (finditer_from p 0 None s).

(** *** Character classes under [re.IGNORECASE]

    A character of the subject matches a cased pattern character when
    its simple lower case is that of the pattern, or is one of the
    equivalents the compiler adds: U+0131 for [i] and U+017F for [s].
    Outside ASCII only U+0130 (to [i]) and U+212A (to [k]) have an
    ASCII simple lower case. *)

Definition ascii_lower (c : char) : char :=
  if in_range 65 90 c then (c + 32)%N else c.

Definition ci (p x : char) : bool :=
  let l := ascii_lower p in
  char_eqb (ascii_lower x) l
  || (char_eqb l 105 && (char_eqb x 304 || char_eqb x 305))
  || (char_eqb l 115 && char_eqb x 383)
  || (char_eqb l 107 && char_eqb x 8490).

(** [[A-Za-z]] under [re.IGNORECASE] *)
Definition alpha_ci (x : char) : bool :=
  in_range 65 90 x || in_range 97 122 x
  || char_eqb x 304 || char_eqb x 305 || char_eqb x 383 || char_eqb x 8490.

Definition one (cls : char -> bool) : atom := Rep 0 cls 1 (Some 1).

(** A literal of a pattern compiled with [re.IGNORECASE]. *)
Definition lit_ci (s : string) : list atom :=
  map (fun c => one (ci c)) (lit s).

(** A literal of a pattern compiled without flags. *)
Definition lit_cs (s : string) : list atom :=
  map (fun c => one (char_eqb c)) (lit s).

(** [[:\s]] *)
Definition colon_space (x : char) : bool := char_eqb x 58 || isspace x.

End Re.

(** ** Exceptions *)

(** An exception of class [Exception], known by its text [str(e)]. *)
Definition exn := str.

Inductive result (A : Type) :=
| Ok (a : A)
| Raise (e : exn).
Arguments Ok {A} a.
Arguments Raise {A} e.

Definition bind {A B} (r : result A) (k : A -> result B) : result B :=
  match r with
  | Ok a => k a
  | Raise e => Raise e
  end.

Notation "x <- r ;; k" := (bind r (fun x => k))
  (at level 61, r at next level, right associativity).

(** [try: r  except Exception as e: h(e)] *)
Definition try_except {A} (r : result A) (h : exn -> A) : A :=
  match r with
  | Ok a => a
  | Raise e => h e
  end.

(** ** Dictionaries

    A [dict] keeps its keys in insertion order; assigning to a key that is
    present replaces the value in place. *)

Module Dict.

Definition dict (V : Type) := list (str * V).

Fixpoint get {V} (k : str) (d : dict V) : option V :=
  match d with
  | [] => None
  | (k', v) :: d' => if str_eqb k k' then Some v else get k d'
  end.

(** [k in d] *)
Definition mem {V} (k : str) (d : dict V) : bool :=
  match get k d with
  | Some _ => true
  | None => false
  end.

(** [d[k] = v] *)
Fixpoint set {V} (k : str) (v : V) (d : dict V) : dict V :=
  match d with
  | [] => [(k, v)]
  | (k', v') :: d' =>
      if str_eqb k k' then (k', v) :: d' else (k', v') :: set k v d'
  end.

Definition keys {V} (d : dict V) : list str := map fst d.

(** No key occurs twice, as in every Python dictionary. *)
Definition wf {V} (d : dict V) : Prop := NoDup (keys d).

End Dict.
Import Dict.

(** ** Prompt texts ([src/prompt.py] and [generate_description_with_llm]) *)

Module Prompt.

Definition dquote : str := [34%N].
Definition rupee : str := [8377%N].

Definition travel_prompt : str :=
  lit "Based on the following invoice data, provide a SHORT travel description (max 2 lines):

Include: Mode of travel, total cost, from which location to where, Date (should strictly match DD/MM/YYYY format), reason of given reimbursement
Format: " ++ dquote ++ lit "Flight from Delhi to Mumbai, total cost " ++ rupee ++ lit "5,000, Date is 12/02/22, reason of partially reimbursement is that for traveling cost as per HR Policy we can reimburse only " ++ rupee ++ lit "2000 as per 5.2 Travel Expenses" ++ dquote ++ lit " or " ++ dquote ++ lit "Train journey from Chennai to Bangalore, total cost " ++ rupee ++ lit "800, Date is 12/3/23, since it is within limit as mentioned in HR Reimbursement Policy hence it is fully reimburse as per 5.2 Travel Expenses." ++ dquote ++ lit "

Invoice data:
".

Definition meal_prompt : str :=
  lit "Based on the following invoice data, provide a SHORT meal description (max 2 lines):

Include: Cuisine/food name, total cost, restaurant name, Date (should strictly match DD/MM/YYYY format), reason of given reimbursement
Format: " ++ dquote ++ lit "North Indian cuisine at Punjabi Dhaba, total cost " ++ rupee ++ lit "450, Date is 4/2/25, within HR Policy Budget as per 5.1 Food and Beverages." ++ dquote ++ lit " or " ++ dquote ++ lit "Pizza and beverages at Domino's, total cost " ++ rupee ++ lit "600, Date is 23/5/24, it's not with HR Reimbursement policy as given budget by HR is " ++ rupee ++ lit "500 but your total cost is " ++ rupee ++ lit "600 hence it is partially reimburse as per 5.1 Food and Beverages." ++ dquote ++ lit "

Include: If Cuisine/food include any wine/vodka/cigarette
Format: " ++ dquote ++ lit "Decline!!! as wine doesn't comes under reimbursement Policy as per 5.1 Food and Beverages." ++ dquote ++ lit "

Invoice data:
".

Definition cab_prompt : str :=
  lit "Based on the following invoice data, provide a SHORT cab description (max 2 lines):

Include: Total cost, pickup and drop location if available, Date (should strictly match DD/MM/YYYY format), reason of given reimbursement
Format: " ++ dquote ++ lit "Cab ride from Airport to Hotel, total cost " ++ rupee ++ lit "350, Date of travel is 23/2/21, it's more than HR Reimbursement Policy as per 5.2 Travel Expenses hence partially reimburse" ++ dquote ++ lit " or " ++ dquote ++ lit "Uber ride within city, total cost " ++ rupee ++ lit "120, Date of travel is 3/01/2002, its within the limit as per 5.2 Travel Expenses hence fully reimburse." ++ dquote ++ lit "

Invoice data:
".

Definition accomodation_prompt : str :=
  lit "Based on the following invoice data, provide a SHORT accommodation description (max 2 lines):

Include: Total cost, hotel name if available, Date (should strictly match DD/MM/YYYY format), reason of given reimbursement
Format: " ++ dquote ++ lit "You stayed in hotel for 2 days, total cost " ++ rupee ++ lit "350, Date of travel is 23/2/21, it's more than HR Reimbursement Policy as per 5.3 Accommodation hence partially reimburse" ++ dquote ++ lit " or " ++ dquote ++ lit "You stayed in PG, total cost " ++ rupee ++ lit "120, Date of travel is 3/01/2002, its within the limit as per 5.3 Accommodation hence fully reimburse." ++ dquote ++ lit "

Invoice data:
".

Definition other_prompt : str :=
  lit "Based on the following invoice data, provide a SHORT description (max 2 lines):

Include: Service type, total cost, Date (should strictly match DD/MM/YYYY format), brief details
Format: " ++ dquote ++ lit "Service description with cost" ++ dquote ++ lit "

Invoice data:
".

Definition extraction_prompt_head : str :=
  lit "Extract invoice information and identify the EMPLOYEE NAME.

EMPLOYEE NAME RULES:
- For MEAL invoices: Look for " ++ dquote ++ lit "Customer Name" ++ dquote ++ lit "
- For TRAVEL invoices: Look for " ++ dquote ++ lit "Passenger Details" ++ dquote ++ lit "
- For CAB invoices: Look for " ++ dquote ++ lit "Customer Name" ++ dquote ++ lit "
- If no customer/passenger name found: use " ++ dquote ++ lit "No information about employee" ++ dquote ++ lit "

REIMBURSEMENT STATUS ANALYSIS:
Based on the HR reimbursement policy below, analyze the invoice and determine status:

**HR REIMBURSEMENT POLICY:**
".

Definition extraction_prompt_tail : str :=
  lit "

**Reimbursement Status Categories:**
- **Fully Reimbursed:** The entire invoice amount is reimbursable according to the HR policy
- **Partially Reimbursed:** Only a portion of the invoice amount is reimbursable according to the HR policy
- **Declined:** The invoice is not reimbursable according to the HR policy

FORMAT:
**EMPLOYEE NAME:** [exact name or " ++ dquote ++ lit "No information about employee" ++ dquote ++ lit "]

**REIMBURSEMENT STATUS:** [**Fully Reimbursed** OR **Partially Reimbursed** OR **Declined**]

**INVOICE DETAILS:**
- Invoice Type: [Meal/Travel/Cab/Accomodation/Other]
- Invoice Number: [if available]
- Date: [date]
- Total Amount: [amount with currency]
- Description: [brief description]
- Reason: What is the reason for this reimbursement?

Return clean markdown format.".

Definition query_prompt_head : str :=
  lit "
You are an HR assistant AI. Use the following employee information to answer the user's question.

Employee Data:
------------------
".

Definition query_prompt_mid : str :=
  lit "

User Question:
------------------
".

Definition query_prompt_tail : str :=
  lit "

Give a concise, helpful, and context-grounded answer.
".

End Prompt.

(** A path is the list of its components. *)
Definition path := list str.

(** [os.path.join(root, name)] *)
Definition path_join (root : path) (name : str) : path := root ++ [name].

(** ** The file system

    A file is known by whether its content is a well-formed archive, and
    then by the members of the archive; a directory holds its entries in
    the order in which they were created.  The order in which
    [os.scandir] lists them is not that order: it is a parameter of the
    runtime.

    A file system is a finite tree, and so are the archives in it: an
    archive that holds itself, which the walker is not meant for, is not
    among them, and neither the length of a path nor the depth of the
    recursion has a limit. *)

Module FS.

#[local] Set Warnings "-register-all".

Inductive node :=
| File (archive : option (list (str * node)))
| Dir (entries : list (str * node)).

Definition tree := list (str * node).

Fixpoint find (name : str) (t : tree) : option node :=
  match t with
  | [] => None
  | (name', n) :: t' => if str_eqb name name' then Some n else find name t'
  end.

Fixpoint put (name : str) (n : node) (t : tree) : tree :=
  match t with
  | [] => [(name, n)]
  | (name', n') :: t' =>
      if str_eqb name name' then (name', n) :: t' else (name', n') :: put name n t'
  end.

Fixpoint lookup (p : path) (t : tree) : option node :=
  match p with
  | [] => Some (Dir t)
  | name :: p' =>
      match find name t with
      | Some (Dir t') => lookup p' t'
      | Some (File z) => match p' with
                         | [] => Some (File z)
                         | _ :: _ => None
                         end
      | None => None
      end
  end.

Definition path_str (p : path) : str := lit "/" ++ join (lit "/") p.

(** The text of an [OSError]. *)
Definition os_error (errno what : string) (p : path) : exn :=
  lit "[Errno " ++ lit errno ++ lit "] " ++ lit what ++ lit ": '"
  ++ path_str p ++ lit "'".

Definition not_a_zip : exn := lit "File is not a zip file".

(** [zipfile.ZipFile(zip_path, 'r')]: the members of the archive. *)
Definition open_zip (zip_path : path) (t : tree) : result tree :=
  match lookup zip_path t with
  | Some (File (Some members)) => Ok members
  | Some (File None) => Raise not_a_zip
  | Some (Dir _) => Raise (os_error "21" "Is a directory" zip_path)
  | None => Raise (os_error "2" "No such file or directory" zip_path)
  end.

(** Writing one member of an archive, and all below it, into the
    directory [here] whose entries are [t]. *)
Fixpoint extract_member (here : path) (name : str) (n : node) (t : tree)
  {struct n} : result tree :=
  let target := path_join here name in
  let below (ms : tree) (t' : tree) : result tree :=
    t'' <- (fix members (ms : list (str * node)) (acc : tree)
              : result tree :=
              match ms with
              | [] => Ok acc
              | (name', m) :: ms' =>
                  acc' <- extract_member target name' m acc ;;
                  members ms' acc'
              end) ms t' ;;
    Ok (put name (Dir t'') t) in
  match n with
  | File z =>
      match find name t with
      | Some (Dir _) => Raise (os_error "21" "Is a directory" target)
      | _ => Ok (put name (File z) t)
      end
  | Dir ms =>
      match find name t with
      | Some (File _) => Raise (os_error "17" "File exists" target)
      | Some (Dir t') => below ms t'
      | None => below ms []
      end
  end.

Fixpoint extract_members (here : path) (ms : tree) (t : tree)
  : result tree :=
  match ms with
  | [] => Ok t
  | (name, m) :: ms' =>
      t' <- extract_member here name m t ;;
      extract_members here ms' t'
  end.

(** Running [f] on the entries of the directory [p], which is created,
    with the directories above it, when it is missing. *)
Fixpoint in_dir (done p : path) (f : tree -> result tree) (t : tree)
  : result tree :=
  match p with
  | [] => f t
  | name :: p' =>
      let here := path_join done name in
      match find name t with
      | Some (Dir t') =>
          t'' <- in_dir here p' f t' ;; Ok (put name (Dir t'') t)
      | Some (File _) =>
          match p' with
          | [] => Raise (os_error "17" "File exists" here)
          | _ :: _ => Raise (os_error "20" "Not a directory" (here ++ p'))
          end
      | None =>
          t'' <- in_dir here p' f [] ;; Ok (put name (Dir t'') t)
      end
  end.

(** [os.makedirs(p, exist_ok=True)] *)
Definition makedirs (p : path) (t : tree) : result tree :=
  in_dir [] p (fun t' => Ok t') t.

(** [zip_ref.extractall(extract_to)] *)
Definition extractall (members : tree) (extract_to : path) (t : tree)
  : result tree :=
  in_dir [] extract_to (extract_members extract_to members) t.

Definition is_dir (e : str * node) : bool :=
  match snd e with
  | Dir _ => true
  | File _ => false
  end.

(** The second and third components of what [os.walk] yields for a
    directory, from its listing. *)
Definition dirs (entries : tree) : list str :=
  map fst (filter is_dir entries).

Definition files (entries : tree) : list str :=
  map fst (filter (fun e => negb (is_dir e)) entries).

End FS.

(** ** The environment of the program *)

(** What the program takes from the Python runtime and the operating
    system: [str.lower], the Unicode classes behind [\d] (decimal digits)
    and [\w] (alphanumeric characters, and the underscore), [float] on a
    string, of which only the failure is observed, and the order in which
    [os.scandir], and so [os.walk], lists a directory: [scandir root
    entries] is the listing of the directory [root] that holds
    [entries]. *)
Record runtime := {
  lower : str -> str;
  isdecimal : char -> bool;
  isalnum : char -> bool;
  float_of : str -> result unit;
  scandir : path -> FS.tree -> FS.tree
}.

(** [\w] *)
Definition word (R : runtime) (c : char) : bool :=
  isalnum R c || char_eqb c 95.

(** The content of a [HumanMessage]. *)
Inductive message :=
| Text (content : str)
| TextImage (text : str) (image_url : str).

(** A [Document] of the vector store. *)
Record Document := {
  page_content : str;
  doc_employee_name : str;
  doc_date : option str
}.

(** The external collaborators.  [fitz_open] gives, for each page of the
    document, the base64 text of its PNG rendering at scale 2, or the
    exception raised while rendering it.  [similarity_search_with_score]
    takes the query, the number of results and the employee name of the
    metadata filter.  [disk] is the file system at the start, [mkdtemp] the
    path of the directory that [tempfile.TemporaryDirectory] creates and
    [rmtree] its removal at the end of the [with] block. *)
Record world (Score : Type) := {
  to_markdown : path -> result str;
  fitz_open : path -> result (list (result str));
  new_llm : result unit;
  llm_invoke : message -> result str;
  similarity_search_with_score :
    str -> nat -> str -> result (list (Document * Score));
  disk : FS.tree;
  mkdtemp : result path;
  rmtree : result unit
}.

(** The value of one employee in the summary. *)
Record summary_entry := {
  invoice_count : nat;
  invoice_mode : str;
  Reimbursement_Status : str;
  description : str
}.

(** The session state: a dictionary in which each key may be absent.
    [state_extract_invoice_data] is its key [extract_invoice_data]. *)
Record State := {
  md_text : option str;
  employee_invoice_data : option (dict str);
  state_extract_invoice_data : option (dict summary_entry)
}.

Definition nl : str := [10%N].

Fixpoint mapM {A B} (f : A -> result B) (l : list A) : result (list B) :=
  match l with
  | [] => Ok []
  | x :: l' => y <- f x ;; ys <- mapM f l' ;; Ok (y :: ys)
  end.

(** [bool(s)] *)
Definition nonempty (s : str) : bool :=
  match s with
  | [] => false
  | _ :: _ => true
  end.

(** ** [src/helper.py] *)

Module Helper.

Section Helper.

Variable R : runtime.
Variable Score : Type.
Variable W : world Score.

(** [get_extraction_prompt] of [src/prompt.py] *)
Definition get_extraction_prompt (state : State) : str :=
  let md := match md_text state with
            | Some t => t
            | None => []
            end in
  Prompt.extraction_prompt_head ++ md ++ Prompt.extraction_prompt_tail.

Definition extracted_text_header : str :=
  nl ++ nl ++ lit "Extracted text:" ++ nl ++ nl.

Definition vision_page (state : State) (page : result str) : result str :=
  img_base64 <- page ;;
  extracted_text <-
    llm_invoke W
      (TextImage (lit "Extract all text and details from this invoice image:")
                 (lit "data:image/png;base64," ++ img_base64)) ;;
  let full_prompt := get_extraction_prompt state in
  llm_invoke W (Text (full_prompt ++ extracted_text_header ++ extracted_text)).

Definition extract_with_vision (pdf_path : path) (state : State)
  : result str :=
  _ <- new_llm W ;;
  doc <- fitz_open W pdf_path ;;
  all_text <- mapM (vision_page state) doc ;;
  Ok (join (nl ++ nl) all_text).

Definition process_with_llm (text : str) (state : State) : result str :=
  _ <- new_llm W ;;
  let prompt := get_extraction_prompt state in
  llm_invoke W (Text (prompt ++ extracted_text_header ++ text)).

(** The body of the [try] of [extract_invoice_data]. *)
Definition extract_invoice_data_body (pdf_path : path) (state : State)
  : result str :=
  text <- to_markdown W pdf_path ;;
  if negb (nonempty text) || str_eqb (strip text) []
  then extract_with_vision pdf_path state
  else process_with_llm text state.

Definition extract_invoice_data (pdf_path : path) (state : State) : str :=
  try_except (extract_invoice_data_body pdf_path state) (fun _ => []).

(** *** Field extractors *)

Definition no_information : str := lit "No information about employee".
Definition pending_review : str := lit "**Pending Review**".

(** [line.split(':', 1)[1].strip()] and then
    [.replace('**', '').replace('*', '').strip()] *)
Definition labelled_value (line : str) : result str :=
  match nth_error (split1 58 line) 1 with
  | Some v =>
      Ok (strip (replace (lit "*") [] (replace (lit "**") [] (strip v))))
  | None => Raise (lit "list index out of range")
  end.

(** The first loop of [get_employee_name] and of
    [get_reimbursement_status]: the value of the first line that has the
    label and whose value is accepted. *)
Fixpoint scan_lines (label : str) (accept : str -> bool) (lines : list str)
  : result (option str) :=
  match lines with
  | [] => Ok None
  | line :: rest =>
      if contains label line then
        v <- labelled_value line ;;
        if accept v then Ok (Some v) else scan_lines label accept rest
      else scan_lines label accept rest
  end.

(** The second loop: the first pattern whose first match, stripped, is
    longer than one character. *)
Fixpoint first_pattern (patterns : list (list Re.atom)) (text : str)
  : option str :=
  match patterns with
  | [] => None
  | pattern :: rest =>
      match Re.findall pattern text with
      | m :: _ =>
          let v := strip m in
          if nonempty v && longer_than_one v then Some v
          else first_pattern rest text
      | [] => first_pattern rest text
      end
  end.

(** [[A-Za-z\s]] and [[A-Za-z\s*]] under [re.IGNORECASE] *)
Definition alpha_space (x : char) : bool := Re.alpha_ci x || isspace x.
Definition alpha_space_star (x : char) : bool :=
  Re.alpha_ci x || isspace x || char_eqb x 42.

Definition labelled_re (label : string) (cls : char -> bool)
  : list Re.atom :=
  Re.lit_ci label ++ [Re.Rep 0 Re.colon_space 1 None; Re.Rep 1 cls 1 None].

Definition name_patterns : list (list Re.atom) :=
  [ labelled_re "Customer Name" alpha_space;
    labelled_re "Passenger" alpha_space;
    labelled_re "Name" alpha_space ].

Definition status_patterns : list (list Re.atom) :=
  [ labelled_re "Status" alpha_space_star;
    labelled_re "Reimbursement" alpha_space_star ].

Definition accept_name (name : str) : bool :=
  nonempty name && negb (str_eqb name no_information).

Definition get_employee_name (invoice_text : str) : str :=
  try_except
    (let lines := split 10 invoice_text in
     found <- scan_lines (lit "**EMPLOYEE NAME:**") accept_name lines ;;
     match found with
     | Some name => Ok name
     | None =>
         match first_pattern name_patterns invoice_text with
         | Some name => Ok name
         | None => Ok no_information
         end
     end)
    (fun _ => no_information).

Definition get_reimbursement_status (invoice_text : str) : str :=
  try_except
    (let lines := split 10 invoice_text in
     found <- scan_lines (lit "**REIMBURSEMENT STATUS:**") nonempty lines ;;
     match found with
     | Some status => Ok status
     | None =>
         match first_pattern status_patterns invoice_text with
         | Some status => Ok status
         | None => Ok pending_review
         end
     end)
    (fun _ => pending_review).

(** [Invoice Type[:\s]+([A-Za-z/]+)] under [re.IGNORECASE] *)
Definition invoice_type_re : list Re.atom :=
  labelled_re "Invoice Type" (fun x => Re.alpha_ci x || char_eqb x 47).

(** The category as captured, before it is normalised. *)
Definition captured_category (invoice_data : str) : str :=
  match Re.search invoice_type_re invoice_data with
  | Some m => lower R (Re.group 1 m)
  | None => lit "other"
  end.

Definition has (keyword : string) (category : str) : bool :=
  contains (lit keyword) category.

Definition normalize_category (category : str) : str :=
  if has "meal" category || has "food" category then lit "meal"
  else if has "travel" category || has "ticket" category
          || has "flight" category || has "train" category then lit "travel"
  else if has "cab" category || has "taxi" category
          || has "uber" category || has "ola" category then lit "cab"
  else if has "hotel" category || has "house" category
          || has "pg" category || has "hostel" category
       then lit "accomodation"
  else lit "other".

Definition description_prompt (category : str) : str :=
  if str_eqb category (lit "travel") then Prompt.travel_prompt
  else if str_eqb category (lit "meal") then Prompt.meal_prompt
  else if str_eqb category (lit "cab") then Prompt.cab_prompt
  else if str_eqb category (lit "accomodation")
       then Prompt.accomodation_prompt
  else Prompt.other_prompt.

Definition generate_description_with_llm (invoice_data category : str)
  : str :=
  try_except
    (_ <- new_llm W ;;
     let prompt := description_prompt category in
     content <- llm_invoke W (Text (prompt ++ invoice_data)) ;;
     let description := strip content in
     if startswith Prompt.dquote description
        && endswith Prompt.dquote description
     then Ok (strip_ends description)
     else Ok description)
    (fun e => lit "Invoice total with basic details (Error: " ++ e ++ lit ")").

Definition get_invoice_category_and_description (invoice_data : str)
  : str * str :=
  try_except
    (let category := normalize_category (captured_category invoice_data) in
     let description := generate_description_with_llm invoice_data category in
     Ok (category, description))
    (fun _ => (lit "other", lit "Unable to generate description")).

(** [Total Amount[:\s]+[R$]\s*(G)], where [R] is the rupee sign and the
    group [G] is [[0-9,]+\.?\d*] *)
Definition total_amount_re : list Re.atom :=
  Re.lit_cs "Total Amount"
  ++ [ Re.Rep 0 Re.colon_space 1 None;
       Re.one (fun x => char_eqb x 8377 || char_eqb x 36);
       Re.Rep 0 isspace 0 None;
       Re.Rep 1 (fun x => in_range 48 57 x || char_eqb x 44) 1 None;
       Re.Rep 1 (char_eqb 46) 0 (Some 1);
       Re.Rep 1 (isdecimal R) 0 None ].

Definition invoice_marker : str := lit "**INVOICE DETAILS:**".

(** One turn of the loop of [get_summary]. *)
Definition summarize (summary : dict summary_entry) (item : str * str)
  : result (dict summary_entry) :=
  let (employee_name, invoice_data) := item in
  let invoice_count := count invoice_marker invoice_data in
  let amounts := Re.findall total_amount_re invoice_data in
  _ <- mapM (fun amt => float_of R (replace (lit ",") [] amt))
            (filter nonempty amounts) ;;
  let (category, description) :=
    get_invoice_category_and_description invoice_data in
  let status := get_reimbursement_status invoice_data in
  Ok (Dict.set employee_name
        {| invoice_count := invoice_count;
           invoice_mode := category;
           Reimbursement_Status := status;
           description := description |}
        summary).

Fixpoint summarize_all (summary : dict summary_entry)
  (items : list (str * str)) : result (dict summary_entry) :=
  match items with
  | [] => Ok summary
  | item :: rest =>
      summary' <- summarize summary item ;;
      summarize_all summary' rest
  end.

Definition get_summary (state : State) : result (dict summary_entry) :=
  match employee_invoice_data state with
  | None => Ok []
  | Some data => summarize_all [] data
  end.

(** [\b(\d{1,2})/(\d{1,2})/(\d{4})\b] *)
Definition date_pattern : list Re.atom :=
  [ Re.Boundary (word R);
    Re.Rep 1 (isdecimal R) 1 (Some 2);
    Re.one (char_eqb 47);
    Re.Rep 2 (isdecimal R) 1 (Some 2);
    Re.one (char_eqb 47);
    Re.Rep 3 (isdecimal R) 4 (Some 4);
    Re.Boundary (word R) ].

Definition extract_date_from_description (description : str) : option str :=
  if negb (nonempty description) then None
  else
    match Re.search date_pattern description with
    | Some m =>
        let day := Re.group 1 m in
        let month := Re.group 2 m in
        let year := Re.group 3 m in
        Some (zfill 2 day ++ lit "/" ++ zfill 2 month ++ lit "/" ++ year)
    | None => None
    end.

(** *** Archive walker

    The walk changes the file system while it lists it: a directory is
    listed when the walk reaches it, and the archives found in it are
    expanded before its sub-directories are entered.  A computation
    takes the file system and gives [None] when it is out of fuel. *)

Definition io (A : Type) := FS.tree -> option (result (A * FS.tree)).

Definition io_ret {A} (a : A) : io A := fun t => Some (Ok (a, t)).

Definition io_bind {A B} (m : io A) (k : A -> io B) : io B :=
  fun t =>
    match m t with
    | Some (Ok (a, t')) => k a t'
    | Some (Raise e) => Some (Raise e)
    | None => None
    end.

(** A change of the file system that may raise. *)
Definition io_change (f : FS.tree -> result FS.tree) : io unit :=
  fun t =>
    match f t with
    | Ok t' => Some (Ok (tt, t'))
    | Raise e => Some (Raise e)
    end.

Definition is_pdf (file : str) : bool := endswith (lit ".pdf") (lower R file).
Definition is_zip (file : str) : bool := endswith (lit ".zip") (lower R file).

(** [os.path.join(root, f"nested_{file[:-4]}")] *)
Definition nested_dir (root : path) (file : str) : path :=
  path_join root (lit "nested_" ++ drop_last 4 file).

(** The loop over the files of one directory; [extract] is
    [extract_zip_and_find_pdfs] itself. *)
Fixpoint scan_files (extract : path -> path -> io (list path))
  (root : path) (files : list str) : io (list path) :=
  match files with
  | [] => io_ret []
  | file :: rest =>
      let file_path := path_join root file in
      if is_pdf file then
        io_bind (scan_files extract root rest) (fun pdfs =>
        io_ret (file_path :: pdfs))
      else if is_zip file then
        io_bind (io_change (FS.makedirs (nested_dir root file))) (fun _ =>
        io_bind (extract file_path (nested_dir root file)) (fun nested_pdfs =>
        io_bind (scan_files extract root rest) (fun pdfs =>
        io_ret (nested_pdfs ++ pdfs))))
      else scan_files extract root rest
  end.

(** The walk into the sub-directories of one directory. *)
Fixpoint walk_dirs (walk : path -> io (list path)) (root : path)
  (dirs : list str) : io (list path) :=
  match dirs with
  | [] => io_ret []
  | d :: rest =>
      io_bind (walk (path_join root d)) (fun pdfs =>
      io_bind (walk_dirs walk root rest) (fun pdfs' =>
      io_ret (pdfs ++ pdfs')))
  end.

Inductive call :=
| Extract (zip_path extract_to : path)
| Walk (root : path).

(** [Extract] is the body of [extract_zip_and_find_pdfs] and [Walk] the
    part of its loop over [os.walk] that starts at one directory. *)
Fixpoint run_call (fuel : nat) (c : call) : io (list path) :=
  match fuel with
  | O => fun _ => None
  | S fuel' =>
      let extract zip_path extract_to :=
        run_call fuel' (Extract zip_path extract_to) in
      let walk root := run_call fuel' (Walk root) in
      match c with
      | Extract zip_path extract_to =>
          fun t =>
            match FS.open_zip zip_path t with
            | Ok members =>
                io_bind (io_change (FS.extractall members extract_to))
                        (fun _ => walk extract_to) t
            | Raise e => Some (Raise e)
            end
      | Walk root =>
          fun t =>
            match FS.lookup root t with
            | Some (FS.Dir entries) =>
                let listed := scandir R root entries in
                io_bind (scan_files extract root (FS.files listed))
                  (fun pdfs =>
                io_bind (walk_dirs walk root (FS.dirs listed))
                  (fun pdfs' =>
                io_ret (pdfs ++ pdfs'))) t
            | _ => io_ret [] t
            end
      end
  end.

Definition extract_zip_and_find_pdfs (fuel : nat)
  (zip_path extract_to : path) : io (list path) :=
  run_call fuel (Extract zip_path extract_to).

(** *** Aggregation of the invoices *)

Definition with_invoice_data (state : State) (data : dict str) : State :=
  {| md_text := md_text state;
     employee_invoice_data := Some data;
     state_extract_invoice_data := state_extract_invoice_data state |}.

Definition invoice_separator : str :=
  nl ++ nl ++ lit "---" ++ nl ++ nl.

(** Step 3 of the loop of [process_invoices]. *)
Definition store_invoice (data : dict str) (employee_name invoice_data : str)
  : dict str :=
  match Dict.get employee_name data with
  | Some old =>
      Dict.set employee_name (old ++ invoice_separator ++ invoice_data) data
  | None => Dict.set employee_name invoice_data data
  end.

(** One turn of the loop of [process_invoices]; [data] is
    [state["employee_invoice_data"]]. *)
Definition process_pdf (state : State) (data : dict str) (pdf_path : path)
  : dict str :=
  let invoice_data :=
    extract_invoice_data pdf_path (with_invoice_data state data) in
  if nonempty invoice_data then
    let employee_name := get_employee_name invoice_data in
    store_invoice data employee_name invoice_data
  else data.

Definition process_pdfs (state : State) (data : dict str)
  (pdf_files : list path) : dict str :=
  fold_left (process_pdf state) pdf_files data.

(** The [with] block of [process_invoices]: the dictionary it has
    reached, and how the block ends.  The temporary directory is removed
    when the block is left, also by an exception, and an exception of the
    removal replaces the one that left the block. *)
Definition with_temp_dir (fuel : nat) (state : State) (data : dict str)
  (zip_path : path) : option (dict str * result unit) :=
  match mkdtemp W with
  | Raise e => Some (data, Raise e)
  | Ok temp_dir =>
      match io_bind (io_change (FS.makedirs temp_dir))
              (fun _ => extract_zip_and_find_pdfs fuel zip_path temp_dir)
              (disk W) with
      | None => None
      | Some (Raise e) =>
          Some (data, match rmtree W with
                      | Ok _ => Raise e
                      | Raise e' => Raise e'
                      end)
      | Some (Ok (pdf_files, _)) =>
          Some (process_pdfs state data pdf_files, rmtree W)
      end
  end.

(** [state["employee_invoice_data"]] once [process_invoices] has
    initialised it. *)
Definition initial_data (state : State) : dict str :=
  match employee_invoice_data state with
  | Some d => d
  | None => []
  end.

Definition process_invoices (fuel : nat) (state : State) (zip_path : path)
  : option State :=
  let data := initial_data state in
  match with_temp_dir fuel state data zip_path with
  | None => None
  | Some (data', Ok _) => Some (with_invoice_data state data')
  | Some (data', Raise e) =>
      Some (with_invoice_data state (Dict.set (lit "Error") e data'))
  end.

(** *** The policy document *)

Definition policy_page (page : result str) : result str :=
  img_base64 <- page ;;
  llm_invoke W
    (TextImage
       (lit "Extract the HR Reimbursement policy from this image. Return the text in markdown format.")
       (lit "data:image/png;base64," ++ img_base64)).

(** The body of the [try] of [extract_hr_policy_from_pdf]: the text that
    is stored. *)
Definition extract_hr_policy_body (pdf_path : path) : result str :=
  md <- to_markdown W pdf_path ;;
  if negb (nonempty md) || str_eqb (strip md) [] then
    pdf_document <- fitz_open W pdf_path ;;
    all_extracted_text <- mapM policy_page pdf_document ;;
    Ok (join (nl ++ nl) all_extracted_text)
  else Ok md.

(** [state["md_text"] = text] *)
Definition with_md_text (state : State) (text : str) : State :=
  {| md_text := Some text;
     employee_invoice_data := employee_invoice_data state;
     state_extract_invoice_data := state_extract_invoice_data state |}.

(** The model client is made before the [try]. *)
Definition extract_hr_policy_from_pdf (state : State) (pdf_path : path)
  : result State :=
  _ <- new_llm W ;;
  Ok (with_md_text state
        (try_except (extract_hr_policy_body pdf_path) (fun _ => []))).

End Helper.

End Helper.

(** ** [src/store.py] *)

Module Store.

Section Store.

Variable R : runtime.
Variable Score : Type.
Variable W : world Score.

(** [\b(\d{1,2})/(\d{1,2})/(\d{4})\b] *)
Definition date_pattern : list Re.atom :=
  [ Re.Boundary (word R);
    Re.Rep 1 (isdecimal R) 1 (Some 2);
    Re.one (char_eqb 47);
    Re.Rep 2 (isdecimal R) 1 (Some 2);
    Re.one (char_eqb 47);
    Re.Rep 3 (isdecimal R) 4 (Some 4);
    Re.Boundary (word R) ].

Definition extract_date_from_description (description : str) : option str :=
  if negb (nonempty description) then None
  else
    match Re.search date_pattern description with
    | Some m =>
        let day := Re.group 1 m in
        let month := Re.group 2 m in
        let year := Re.group 3 m in
        Some (zfill 2 day ++ lit "/" ++ zfill 2 month ++ lit "/" ++ year)
    | None => None
    end.

Definition search_by_employee_name (employee_name : str) (top_k : nat)
  : result (list (Document * Score)) :=
  similarity_search_with_score W (lit "employee record") top_k employee_name.

(** [get_query_response_prompt()] of [src/prompt.py] with its two
    variables filled in. *)
Definition format_query_prompt (context question : str) : str :=
  Prompt.query_prompt_head ++ context ++ Prompt.query_prompt_mid
  ++ question ++ Prompt.query_prompt_tail.

(** [chain.run] of the chain of the model and the prompt template. *)
Definition chain_run (context question : str) : result str :=
  llm_invoke W (Text (format_query_prompt context question)).

Definition not_found (employee_name : str) : str :=
  lit "No data found for employee: " ++ employee_name.

Definition answer_query_for_employee (employee_name query : str)
  (top_k : nat) : result str :=
  _ <- new_llm W ;;
  results <- search_by_employee_name employee_name top_k ;;
  if negb (match results with [] => false | _ :: _ => true end)
  then Ok (not_found employee_name)
  else
    let context :=
      join (nl ++ nl) (map (fun r => page_content (fst r)) results) in
    chain_run context query.

End Store.

End Store.

(** ** [src/app.py]: the endpoints that read the summary *)

Module App.

(** What an endpoint raises: an [HTTPException], or another exception. *)
Inductive failure :=
| Http (status_code : nat) (detail : str)
| Other (e : exn).

(** What the client gets: a JSON response, or the error response made
    from the [HTTPException] that leaves the endpoint. *)
Inductive reply (A : Type) :=
| Json (status_code : nat) (content : A)
| HTTPError (status_code : nat) (detail : str).
Arguments Json {A} status_code content.
Arguments HTTPError {A} status_code detail.

(** The body of a [try] of an endpoint. *)
Definition attempt (A : Type) := (A + failure)%type.

Record query_answer := {
  answer_employee_name : str;
  answer_query : str;
  answer : str
}.

(** An uploaded file: its name, if it has one, and the path of the
    temporary file that its content is written to, or the exception of
    reading or writing it. *)
Record upload := {
  filename : option str;
  saved : result path
}.

(** The content of the reply of [analyze_invoices]. *)
Record analysis := {
  message : str;
  total_employees : nat;
  employees_processed : list str;
  analysis_summary : dict summary_entry
}.

Section App.

Variable R : runtime.
Variable Score : Type.
Variable W : world Score.

(** [str(e)] of an [HTTPException], which the version of the framework
    decides. *)
Variable http_str : nat -> str -> str.

Definition failure_str (f : failure) : str :=
  match f with
  | Http status_code detail => http_str status_code detail
  | Other e => e
  end.

Definition no_data : str :=
  lit "No data available. Please analyze invoices first using /analyze_invoices endpoint".

(** [not global_state.get("extract_invoice_data")] *)
Definition no_summary (global_state : State) : bool :=
  match state_extract_invoice_data global_state with
  | Some (_ :: _) => false
  | _ => true
  end.

Definition summary_of (global_state : State) : dict summary_entry :=
  match state_extract_invoice_data global_state with
  | Some d => d
  | None => []
  end.

Definition query_employee_body (global_state : State)
  (employee_name query : str) : attempt (reply query_answer) :=
  if no_summary global_state then inr (Http 400 no_data)
  else
    match Store.answer_query_for_employee W employee_name query 5 with
    | Ok text =>
        inl (Json 200 {| answer_employee_name := employee_name;
                         answer_query := query;
                         answer := text |})
    | Raise e => inr (Other e)
    end.

Definition query_employee (global_state : State) (employee_name query : str)
  : reply query_answer :=
  match query_employee_body global_state employee_name query with
  | inl r => r
  | inr f => HTTPError 500 (lit "Error processing query: " ++ failure_str f)
  end.

(** The loop of [get_employee_details]: the first entry whose name is
    the requested one when both are in lower case. *)
Fixpoint find_employee (employee_name : str) (items : dict summary_entry)
  : option (str * summary_entry) :=
  match items with
  | [] => None
  | (name, data) :: rest =>
      if str_eqb (lower R name) (lower R employee_name) then Some (name, data)
      else find_employee employee_name rest
  end.

Definition get_employee_details_body (global_state : State)
  (employee_name : str) : attempt (reply (str * summary_entry)) :=
  if no_summary global_state then inr (Http 400 no_data)
  else
    match find_employee employee_name (summary_of global_state) with
    | Some found => inl (Json 200 found)
    | None =>
        inr (Http 404 (lit "Employee '" ++ employee_name ++ lit "' not found"))
    end.

Definition get_employee_details (global_state : State) (employee_name : str)
  : reply (str * summary_entry) :=
  match get_employee_details_body global_state employee_name with
  | inl r => r
  | inr (Http status_code detail) => HTTPError status_code detail
  | inr (Other e) =>
      HTTPError 500 (lit "Error retrieving employee details: " ++ e)
  end.

(** *** [analyze_invoices] *)

(** What the endpoint takes from the vector store and the operating
    system: [process_employees_to_pinecone] of [src/store.py], of which
    only the failure is observed, and [os.unlink]. *)
Variable process_employees_to_pinecone : dict summary_entry -> result unit.
Variable unlink : path -> result unit.

(** The state that the endpoint starts from again at every request. *)
Definition reset_state : State :=
  {| md_text := Some [];
     employee_invoice_data := Some [];
     state_extract_invoice_data := Some [] |}.

(** [global_state["extract_invoice_data"] = summary] *)
Definition with_summary (state : State) (summary : dict summary_entry)
  : State :=
  {| md_text := md_text state;
     employee_invoice_data := employee_invoice_data state;
     state_extract_invoice_data := Some summary |}.

(** [if not file.filename.lower().endswith(suffix): raise HTTPException] *)
Definition check_suffix (suffix : string) (detail : string) (file : upload)
  : attempt unit :=
  match filename file with
  | None => inr (Other (lit "'NoneType' object has no attribute 'lower'"))
  | Some name =>
      if endswith (lit suffix) (lower R name) then inl tt
      else inr (Http 400 (lit detail))
  end.

(** The body of the inner [try]: the state it leaves, and how it
    ends. *)
Definition analyze_steps (fuel : nat) (hr_temp_path zip_temp_path : path)
  : option (State * attempt (reply analysis)) :=
  match Helper.extract_hr_policy_from_pdf W reset_state hr_temp_path with
  | Raise e => Some (reset_state, inr (Other e))
  | Ok state1 =>
      match Helper.process_invoices R W fuel state1 zip_temp_path with
      | None => None
      | Some state2 =>
          match Helper.get_summary R W state2 with
          | Raise e => Some (state2, inr (Other e))
          | Ok summary =>
              let state3 := with_summary state2 summary in
              match (match summary with
                     | [] => Ok tt
                     | _ :: _ => process_employees_to_pinecone summary
                     end) with
              | Raise e => Some (state3, inr (Other e))
              | Ok _ =>
                  Some (state3,
                        inl (Json 200
                               {| message :=
                                    lit "Invoice analysis completed successfully";
                                  total_employees := length summary;
                                  employees_processed := Dict.keys summary;
                                  analysis_summary := summary |}))
              end
          end
      end
  end.

(** The [finally] of the inner [try]: an exception of [os.unlink]
    replaces what the body has returned or raised. *)
Definition cleanup (hr_temp_path zip_temp_path : path)
  (r : attempt (reply analysis)) : attempt (reply analysis) :=
  match unlink hr_temp_path with
  | Raise e => inr (Other e)
  | Ok _ =>
      match unlink zip_temp_path with
      | Raise e => inr (Other e)
      | Ok _ => r
      end
  end.

(** The body of the outer [try], with the global state it leaves. *)
Definition analyze_invoices_body (fuel : nat)
  (hr_policy invoices_zip : upload)
  : option (State * attempt (reply analysis)) :=
  match check_suffix ".pdf" "HR policy must be a PDF file" hr_policy with
  | inr f => Some (reset_state, inr f)
  | inl _ =>
      match check_suffix ".zip" "Invoices must be in ZIP format"
              invoices_zip with
      | inr f => Some (reset_state, inr f)
      | inl _ =>
          match saved hr_policy with
          | Raise e => Some (reset_state, inr (Other e))
          | Ok hr_temp_path =>
              match saved invoices_zip with
              | Raise e => Some (reset_state, inr (Other e))
              | Ok zip_temp_path =>
                  match analyze_steps fuel hr_temp_path zip_temp_path with
                  | None => None
                  | Some (state, r) =>
                      Some (state, cleanup hr_temp_path zip_temp_path r)
                  end
              end
          end
      end
  end.

(** The endpoint: the global state once the request is served, and the
    reply. *)
Definition analyze_invoices (fuel : nat) (hr_policy invoices_zip : upload)
  : option (State * reply analysis) :=
  match analyze_invoices_body fuel hr_policy invoices_zip with
  | None => None
  | Some (state, inl r) => Some (state, r)
  | Some (state, inr f) =>
      Some (state,
            HTTPError 500
              (lit "Error processing invoices: " ++ failure_str f))
  end.

End App.

End App.

(** ** A runtime for ASCII text

    On characters below 128 the tables of CPython are these. *)

Module Latin.

Definition decimal (c : char) : bool := in_range 48 57 c.

Definition alnum (c : char) : bool :=
  in_range 48 57 c || in_range 65 90 c || in_range 97 122 c.

Definition to_lower (s : str) : str := map Re.ascii_lower s.

(** [float] on a string of digits with at most one point. *)
Definition to_float (s : str) : result unit :=
  if existsb decimal s then Ok tt
  else Raise (lit "could not convert string to float: '" ++ s ++ lit "'").

(** A file system that lists a directory in the order in which its
    entries were created, and one that lists it in the opposite order. *)
Definition rt : runtime :=
  {| lower := to_lower;
     isdecimal := decimal;
     isalnum := alnum;
     float_of := to_float;
     scandir := fun _ entries => entries |}.

Definition rt_reversed : runtime :=
  {| lower := to_lower;
     isdecimal := decimal;
     isalnum := alnum;
     float_of := to_float;
     scandir := fun _ entries => rev entries |}.

End Latin.

(** ** Sample environments *)

Module Sample.

(** A well-formed bundle: one PDF and one archive with two PDFs. *)
Definition inner_zip : FS.node :=
  FS.File (Some [(lit "b.pdf", FS.File None); (lit "c.pdf", FS.File None)]).

Definition bundle : FS.node :=
  FS.File (Some [(lit "a.pdf", FS.File None); (lit "inner.zip", inner_zip)]).

Definition record_of (name : string) : str :=
  lit "**EMPLOYEE NAME:** " ++ lit name ++ nl
  ++ lit "**REIMBURSEMENT STATUS:** **Declined**" ++ nl
  ++ lit "**INVOICE DETAILS:**" ++ nl
  ++ lit "- Invoice Type: Hotel" ++ nl
  ++ lit "- Total Amount: $120.50" ++ nl.

(** A world in which the text generation service gives [answer] to every
    message, every PDF has the text [pdf_text], and the vector store
    gives [found]. *)
Definition world_of (pdf_text : result str) (answer : result str)
  (found : list (Document * nat)) (files : FS.tree) : world nat :=
  {| to_markdown := fun _ => pdf_text;
     fitz_open := fun _ => Ok [];
     new_llm := Ok tt;
     llm_invoke := fun _ => answer;
     similarity_search_with_score := fun _ _ _ => Ok found;
     disk := files;
     mkdtemp := Ok [lit "tmp"];
     rmtree := Ok tt |}.

Definition files : FS.tree :=
  [(lit "bundle.zip", bundle); (lit "broken.zip", FS.File None)].

(** The same files once the temporary directory is made. *)
Definition staged : FS.tree := files ++ [(lit "tmp", FS.Dir [])].

Definition world : world nat :=
  world_of (Ok (lit "invoice")) (Ok (record_of "Asha")) [] files.

Definition state : State :=
  {| md_text := Some (lit "policy");
     employee_invoice_data :=
       Some [(lit "Asha", record_of "Asha" ++ record_of "Asha");
             (lit "Error", record_of "Error")];
     state_extract_invoice_data := None |}.

Definition doc : Document :=
  {| page_content := lit "Employee Name: Asha";
     doc_employee_name := lit "Asha";
     doc_date := None |}.

(** A state in which the text of one employee has an amount without a
    digit. *)
Definition comma_state : State :=
  {| md_text := None;
     employee_invoice_data :=
       Some [(lit "Asha", record_of "Asha");
             (lit "Ravi", lit "Total Amount: $,")];
     state_extract_invoice_data := None |}.


(** A state whose summary has two names that differ by case only. *)
Definition entry_of (n : nat) : summary_entry :=
  {| invoice_count := n;
     invoice_mode := lit "meal";
     Reimbursement_Status := lit "Declined";
     description := lit "Lunch" |}.

Definition served : State :=
  {| md_text := None;
     employee_invoice_data := None;
     state_extract_invoice_data :=
       Some [(lit "ravi", entry_of 1); (lit "asha", entry_of 2);
             (lit "Asha", entry_of 3)] |}.

(** Uploaded files: a policy, a text file offered as the policy, and a
    bundle that is not an archive. *)
Definition policy_upload : App.upload :=
  {| App.filename := Some (lit "policy.pdf");
     App.saved := Ok [lit "policy.pdf"] |}.

Definition text_upload : App.upload :=
  {| App.filename := Some (lit "policy.txt");
     App.saved := Ok [lit "policy.txt"] |}.

Definition broken_upload : App.upload :=
  {| App.filename := Some (lit "broken.zip");
     App.saved := Ok [lit "broken.zip"] |}.


Definition deep : FS.tree :=
  [(lit "b.pdf", FS.File None);
   (lit "more", FS.Dir [(lit "c.pdf", FS.File None)])].

Definition foldered : FS.tree :=
  [(lit "bundle.zip",
    FS.File (Some [(lit "docs",
                    FS.Dir [(lit "inner.zip", FS.File (Some deep))]);
                   (lit "a.pdf", FS.File None)]));
   (lit "tmp", FS.Dir [])].

(** A bundle whose nested archive is corrupt and lies in a folder. *)
Definition corrupt_folder : FS.tree :=
  [(lit "bundle.zip",
    FS.File (Some [(lit "a.pdf", FS.File None);
                   (lit "docs", FS.Dir [(lit "bad.zip", FS.File None)])]))].

End Sample.

(** ** Definitions used to state the properties *)

(** The value of a labelled line of a record: the text after the first
    colon of the line, stripped, without asterisks, stripped again. *)
Definition line_value (line : str) : str :=
  strip (replace (lit "*") []
           (replace (lit "**") [] (strip (nth 1 (split1 58 line) [])))).

(** What it is for a sequence of atoms to match at the start of [s],
    however the repetitions are cut: [Matches p prev s m] when the
    pattern [p] matches a prefix of [s] with the segments [m], [prev]
    being the character before [s]. *)
Inductive Matches : list Re.atom -> option char -> str -> Re.segments -> Prop :=
| Matches_nil prev s : Matches [] prev s []
| Matches_boundary word p prev s m :
    Re.at_boundary word prev s = true ->
    Matches p prev s m ->
    Matches (Re.Boundary word :: p) prev s m
| Matches_rep g cls lo hi p prev s n m :
    lo <= n -> n <= Re.run cls hi s ->
    Matches p (Re.last_char prev (firstn n s)) (skipn n s) m ->
    Matches (Re.Rep g cls lo hi :: p) prev s ((g, firstn n s) :: m).

(** [n] is within the upper bound of a repetition. *)
Definition within (hi : option nat) (n : nat) : Prop :=
  match hi with
  | Some h => n <= h
  | None => True
  end.

(** A string padded with zeros on the left to two characters. *)
Definition pad2 (s : str) : str := repeat (48 : char) (2 - length s) ++ s.

(** Between [lo] and [hi] characters, all of them decimal digits. *)
Definition digits (R : runtime) (lo hi : nat) (s : str) : Prop :=
  lo <= length s <= hi /\ Forall (fun c => isdecimal R c = true) s.

(** No word character at a side of a position. *)
Definition no_word (R : runtime) (c : option char) : Prop :=
  Re.is_word (word R) c = false.

(** The text [t] has the digits [dd/mm/yyyy] after [pre] and before
    [post]. *)
Definition bare_date_at (R : runtime) (t pre dd mm yyyy post : str) : Prop :=
  t = pre ++ dd ++ lit "/" ++ mm ++ lit "/" ++ yyyy ++ post
  /\ digits R 1 2 dd /\ digits R 1 2 mm /\ digits R 4 4 yyyy.

(** The same, between word boundaries: no word character stands just
    before the day or just after the year. *)
Definition date_at (R : runtime) (t pre dd mm yyyy post : str) : Prop :=
  bare_date_at R t pre dd mm yyyy post
  /\ no_word R (Re.last_char None pre) /\ no_word R (hd_error post).

(** The segments of a match of the date pattern. *)
Definition date_segments (dd mm yyyy : str) : Re.segments :=
  [(1, dd); (0, lit "/"); (2, mm); (0, lit "/"); (3, yyyy)].

(** The date that is returned for the digits [dd/mm/yyyy]. *)
Definition padded_date (dd mm yyyy : str) : str :=
  pad2 dd ++ lit "/" ++ pad2 mm ++ lit "/" ++ yyyy.

(** No date stands between word boundaries to the left of [pre]. *)
Definition leftmost_date (R : runtime) (t pre : str) : Prop :=
  forall pre' dd' mm' yyyy' post',
    date_at R t pre' dd' mm' yyyy' post' -> length pre <= length pre'.

(** Facts of the Unicode tables: a decimal digit is alphanumeric, [0] is
    a decimal digit and no character before [0] is one. *)
Definition unicode_ok (R : runtime) : Prop :=
  (forall c, isdecimal R c = true -> isalnum R c = true)
  /\ isdecimal R 48 = true
  /\ (forall c, (c < 48)%N -> isdecimal R c = false).

(** The text that the loop of [process_invoices] gets for a PDF. *)
Definition extracted (Score : Type) (W : world Score) (state : State)
  (pdf_path : path) : str :=
  Helper.extract_invoice_data W pdf_path (Helper.with_invoice_data state []).

(** The texts of the invoices of one employee, in the order of the PDFs;
    a PDF without text has no invoice. *)
Definition invoices_of (Score : Type) (W : world Score) (state : State)
  (name : str) (pdf_files : list path) : list str :=
  filter (fun invoice_data =>
            nonempty invoice_data
            && str_eqb (Helper.get_employee_name invoice_data) name)
         (map (extracted W state) pdf_files).

(** The strings that [get_summary] gives to [float] for one text. *)
Definition amounts_of (R : runtime) (invoice_data : str) : list str :=
  map (replace (lit ",") [])
      (filter nonempty (Re.findall (Helper.total_amount_re R) invoice_data)).

(** Two digits, a slash, two digits, a slash, four digits. *)
Definition date_shaped (R : runtime) (d : str) : Prop :=
  exists dd mm yyyy,
    d = dd ++ lit "/" ++ mm ++ lit "/" ++ yyyy
    /\ digits R 2 2 dd /\ digits R 2 2 mm /\ digits R 4 4 yyyy.

(** A name that is expanded as an archive. *)
Definition expanded (R : runtime) (file : str) : bool :=
  negb (Helper.is_pdf R file) && Helper.is_zip R file.


(** The status code of a reply. *)
Definition status_of (A : Type) (r : App.reply A) : nat :=
  match r with
  | App.Json status_code _ => status_code
  | App.HTTPError status_code _ => status_code
  end.

(** The text that a dictionary of invoices has for an employee, as a
    list of at most one text. *)
Definition earlier_text (data : dict str) (name : str) : list str :=
  match Dict.get name data with
  | Some text => [text]
  | None => []
  end.

(** A path below [base] whose last component is the name of a PDF. *)
Definition pdf_below (R : runtime) (base p : path) : Prop :=
  exists rel file, p = base ++ rel ++ [file] /\ Helper.is_pdf R file = true.

(** How deep a file system is: a file counts for one level, a directory
    and an archive for one level more than the deepest of their
    entries. *)
Fixpoint height (n : FS.node) : nat :=
  let fix heights (l : list (str * FS.node)) : nat :=
    match l with
    | [] => 0
    | (_, m) :: l' => Nat.max (height m) (heights l')
    end in
  match n with
  | FS.File None => 1
  | FS.File (Some ms) => S (heights ms)
  | FS.Dir es => S (heights es)
  end.

Fixpoint height_tree (t : FS.tree) : nat :=
  match t with
  | [] => 0
  | (_, m) :: t' => Nat.max (height m) (height_tree t')
  end.

(** What a call gives when the file system is not deeper than [B]: a
    result, and a file system that is not deeper either. *)
Definition settles (B : nat) (m : Helper.io (list path)) : Prop :=
  forall t, height_tree t <= B ->
    exists r, m t = Some r
              /\ forall pdfs t', r = Ok (pdfs, t') -> height_tree t' <= B.

(** A list of patterns [label[:\s]+(cls+)] of one class. *)
Definition labelled_patterns (cls : char -> bool)
  (patterns : list (list Re.atom)) : Prop :=
  Forall (fun p => exists label, p = Helper.labelled_re label cls) patterns.

(** The listing of a directory holds the entries of the directory, in
    some order. *)
Definition scandir_ok (R : runtime) : Prop :=
  forall root entries, Permutation (scandir R root entries) entries.

(** The name of the directory that the walker makes for a nested
    archive. *)
Definition nested_name (file : str) : str :=
  lit "nested_" ++ drop_last 4 file.








(** A name that is not one of the directories that the walker makes. *)
Definition plain (name : str) : bool :=
  negb (startswith (lit "nested_") name).


(** * Properties *)

(** ** Strings and dictionaries *)

Lemma char_eqb_eq (a b : char) : char_eqb a b = true <-> a = b.
Proof. apply N.eqb_eq. Qed.

Lemma char_eqb_refl (a : char) : char_eqb a a = true.
Proof. apply N.eqb_refl. Qed.

Lemma str_eqb_eq (a b : str) : str_eqb a b = true <-> a = b.
Proof.
  revert b; induction a as [|x a IH]; intros [|y b]; simpl;
    try (split; [discriminate | discriminate]); try tauto.
  rewrite andb_true_iff, char_eqb_eq, IH.
  split; [intros [-> ->]; reflexivity | intros H; inversion H; auto].
Qed.

Lemma str_eqb_refl (a : str) : str_eqb a a = true.
Proof. apply str_eqb_eq; reflexivity. Qed.

Lemma str_eqb_neq (a b : str) : str_eqb a b = false <-> a <> b.
Proof.
  rewrite <- str_eqb_eq. destruct (str_eqb a b); split; congruence.
Qed.

Lemma get_set_same V (k : str) (v : V) (d : dict V) :
  Dict.get k (Dict.set k v d) = Some v.
Proof.
  induction d as [|[k' v'] d IH]; simpl.
  - now rewrite str_eqb_refl.
  - destruct (str_eqb k k') eqn:E; simpl; rewrite E; auto.
Qed.

Lemma get_set_other V (k k' : str) (v : V) (d : dict V) :
  k <> k' -> Dict.get k (Dict.set k' v d) = Dict.get k d.
Proof.
  intros Hk. induction d as [|[k0 v0] d IH]; simpl.
  - apply str_eqb_neq in Hk. now rewrite Hk.
  - destruct (str_eqb k' k0) eqn:E; simpl.
    + apply str_eqb_eq in E; subst k0.
      apply str_eqb_neq in Hk. now rewrite Hk.
    + destruct (str_eqb k k0); auto.
Qed.

Lemma get_In V (k : str) (v : V) (d : dict V) :
  Dict.get k d = Some v -> In (k, v) d.
Proof.
  induction d as [|[k' v'] d IH]; simpl; [discriminate|].
  destruct (str_eqb k k') eqn:E.
  - apply str_eqb_eq in E; subst. intros [= ->]. now left.
  - auto.
Qed.

Lemma In_get V (k : str) (v : V) (d : dict V) :
  Dict.wf d -> In (k, v) d -> Dict.get k d = Some v.
Proof.
  unfold Dict.wf, Dict.keys.
  induction d as [|[k' v'] d IH]; simpl; [tauto|].
  intros Hnd [H|H].
  - inversion H; subst. now rewrite str_eqb_refl.
  - inversion Hnd as [|? ? Hnotin Hnd']; subst.
    destruct (str_eqb k k') eqn:E; auto.
    apply str_eqb_eq in E; subst k'.
    exfalso. apply Hnotin. apply (in_map fst) in H. exact H.
Qed.

Lemma keys_set V (k : str) (v : V) (d : dict V) :
  Dict.keys (Dict.set k v d)
  = if Dict.mem k d then Dict.keys d else Dict.keys d ++ [k].
Proof.
  unfold Dict.mem, Dict.keys.
  induction d as [|[k' v'] d IH]; simpl; auto.
  destruct (str_eqb k k') eqn:E; simpl; auto.
  rewrite IH. destruct (Dict.get k d); reflexivity.
Qed.

Lemma mem_keys V (k : str) (d : dict V) :
  Dict.mem k d = true <-> In k (Dict.keys d).
Proof.
  unfold Dict.mem, Dict.keys.
  induction d as [|[k' v'] d IH]; simpl.
  - split; [discriminate | tauto].
  - destruct (str_eqb k k') eqn:E.
    + apply str_eqb_eq in E. subst. split; auto.
    + apply str_eqb_neq in E. rewrite IH. split; auto.
      intros [H|H]; [congruence | auto].
Qed.

Lemma set_wf V (k : str) (v : V) (d : dict V) :
  Dict.wf d -> Dict.wf (Dict.set k v d).
Proof.
  unfold Dict.wf. rewrite keys_set.
  destruct (Dict.mem k d) eqn:E; auto.
  intros H. apply NoDup_app; auto.
  - constructor; [simpl; tauto | constructor].
  - intros x Hx [<-|[]]. apply mem_keys in Hx. congruence.
Qed.

(** ** The summary ([get_summary]) *)

Section Summary.

Variable R : runtime.
Variable Score : Type.
Variable W : world Score.

Lemma bind_Ok A B (r : result A) (k : A -> result B) (b : B) :
  bind r k = Ok b -> exists a, r = Ok a /\ k a = Ok b.
Proof. destruct r; simpl; [eauto | discriminate]. Qed.

(** What one turn of the loop stores under the employee's name. *)
Lemma summarize_Ok summary name data summary' :
  Helper.summarize R W summary (name, data) = Ok summary' ->
  exists entry,
    summary' = Dict.set name entry summary
    /\ invoice_count entry = count Helper.invoice_marker data.
Proof.
  unfold Helper.summarize. intros H.
  apply bind_Ok in H. destruct H as [_ [_ H]].
  destruct (Helper.get_invoice_category_and_description R W data).
  inversion H; subst. eexists; split; reflexivity.
Qed.

(** Every entry of the summary was computed from an item of the raw
    dictionary with the same key, or was there before the loop. *)
Lemma summarize_all_entries items :
  forall summary summary',
    Helper.summarize_all R W summary items = Ok summary' ->
    forall name entry,
      Dict.get name summary' = Some entry ->
      (exists data, In (name, data) items
                    /\ invoice_count entry = count Helper.invoice_marker data)
      \/ Dict.get name summary = Some entry.
Proof.
  induction items as [|[k data] items IH]; simpl; intros summary summary' H name entry Hget.
  - inversion H; subst. now right.
  - apply bind_Ok in H. destruct H as [s1 [H1 H2]].
    destruct (IH _ _ H2 _ _ Hget) as [[d [Hin Hc]]|Hold].
    + left. exists d. auto.
    + apply summarize_Ok in H1. destruct H1 as [e [-> Hc]].
      destruct (str_eqb name k) eqn:E.
      * apply str_eqb_eq in E. subst k.
        rewrite get_set_same in Hold. inversion Hold; subst.
        left. exists data. auto.
      * apply str_eqb_neq in E. rewrite get_set_other in Hold by exact E.
        now right.
Qed.

(** Every key of the raw dictionary is a key of the summary. *)
Lemma summarize_all_keys items :
  forall summary summary',
    Helper.summarize_all R W summary items = Ok summary' ->
    forall name,
      In name (Dict.keys items) \/ Dict.mem name summary = true ->
      Dict.mem name summary' = true.
Proof.
  induction items as [|[k data] items IH]; simpl; intros summary summary' H name Hin.
  - inversion H; subst. destruct Hin as [[]|Hin]; exact Hin.
  - apply bind_Ok in H. destruct H as [s1 [H1 H2]].
    apply (IH _ _ H2).
    apply summarize_Ok in H1. destruct H1 as [e [-> _]].
    destruct Hin as [[<-|Hin]|Hin]; auto; right.
    + unfold Dict.mem. now rewrite get_set_same.
    + unfold Dict.mem in *. destruct (str_eqb name k) eqn:E.
      * apply str_eqb_eq in E. subst. now rewrite get_set_same.
      * apply str_eqb_neq in E. now rewrite get_set_other.
Qed.

(** C1. For every employee entry of the summary that [get_summary]
    returns, [invoice_count] is the number of occurrences, counted as
    [str.count] counts them, of the marker [**INVOICE DETAILS:**] in the
    text stored for that employee in [state["employee_invoice_data"]]. *)
Theorem get_summary_invoice_count (state : State)
  (summary : dict summary_entry) (employee : str) (entry : summary_entry) :
  (forall raw, employee_invoice_data state = Some raw -> Dict.wf raw) ->
  Helper.get_summary R W state = Ok summary ->
  Dict.get employee summary = Some entry ->
  exists raw raw_text,
    employee_invoice_data state = Some raw
    /\ Dict.get employee raw = Some raw_text
    /\ invoice_count entry = count (lit "**INVOICE DETAILS:**") raw_text.
Proof.
  intros Hwf Hsum Hget.
  unfold Helper.get_summary in Hsum.
  destruct (employee_invoice_data state) as [raw|] eqn:Hraw.
  - destruct (summarize_all_entries _ _ Hsum _ Hget) as [[d [Hin Hc]]|Hold].
    + exists raw, d. split; [reflexivity|].
      split; [apply In_get; auto | exact Hc].
    + discriminate.
  - inversion Hsum; subst. discriminate.
Qed.

End Summary.

Lemma get_summary_invoice_count_witness :
  exists summary entry,
    (forall raw, employee_invoice_data Sample.state = Some raw -> Dict.wf raw)
    /\ Helper.get_summary Latin.rt Sample.world Sample.state = Ok summary
    /\ Dict.get (lit "Asha") summary = Some entry
    /\ exists raw raw_text,
         employee_invoice_data Sample.state = Some raw
         /\ Dict.get (lit "Asha") raw = Some raw_text
         /\ invoice_count entry = count (lit "**INVOICE DETAILS:**") raw_text.
Proof.
  assert (Hwf : forall raw,
            employee_invoice_data Sample.state = Some raw -> Dict.wf raw).
  { intros raw H. inversion H; subst.
    repeat constructor; simpl; intuition discriminate. }
  eexists. eexists.
  split; [exact Hwf|].
  split; [vm_compute; reflexivity|].
  split; [vm_compute; reflexivity|].
  eapply (@get_summary_invoice_count Latin.rt nat Sample.world Sample.state).
  - exact Hwf.
  - vm_compute. reflexivity.
  - vm_compute. reflexivity.
Defined.

(** ** Category normalisation *)

(** C2, as amended. The category that
    [get_invoice_category_and_description] returns is one of [meal],
    [travel], [cab], [accomodation] (spelled so) and [other], and the
    keyword groups decide in that order of priority on the captured
    invoice type. *)
Theorem category_normalization (R : runtime) (Score : Type) (W : world Score)
  (invoice_data : str) :
  let captured := Helper.captured_category R invoice_data in
  let category :=
    fst (Helper.get_invoice_category_and_description R W invoice_data) in
  let meal := Helper.has "meal" captured || Helper.has "food" captured in
  let travel := Helper.has "travel" captured || Helper.has "ticket" captured
                || Helper.has "flight" captured
                || Helper.has "train" captured in
  let cab := Helper.has "cab" captured || Helper.has "taxi" captured
             || Helper.has "uber" captured || Helper.has "ola" captured in
  let stay := Helper.has "hotel" captured || Helper.has "house" captured
              || Helper.has "pg" captured || Helper.has "hostel" captured in
  In category [lit "meal"; lit "travel"; lit "cab"; lit "accomodation";
               lit "other"]
  /\ category =
       if meal then lit "meal"
       else if travel then lit "travel"
       else if cab then lit "cab"
       else if stay then lit "accomodation"
       else lit "other".
Proof.
  cbv zeta.
  unfold Helper.get_invoice_category_and_description, try_except.
  cbn [fst]. unfold Helper.normalize_category.
  set (c := Helper.captured_category R invoice_data).
  destruct (Helper.has "meal" c || Helper.has "food" c).
  { split; [simpl; auto | reflexivity]. }
  destruct (Helper.has "travel" c || Helper.has "ticket" c
            || Helper.has "flight" c || Helper.has "train" c).
  { split; [simpl; auto | reflexivity]. }
  destruct (Helper.has "cab" c || Helper.has "taxi" c
            || Helper.has "uber" c || Helper.has "ola" c).
  { split; [simpl; auto | reflexivity]. }
  destruct (Helper.has "hotel" c || Helper.has "house" c
            || Helper.has "pg" c || Helper.has "hostel" c).
  { split; [simpl; auto 6 | reflexivity]. }
  split; [simpl; auto 6 | reflexivity].
Qed.

(** C2 as stated fails: a hotel invoice gets the category [accomodation],
    which is not one of meal, travel, cab, accommodation, other. *)
Lemma category_hotel_counterexample :
  fst (Helper.get_invoice_category_and_description Latin.rt Sample.world
         (lit "- Invoice Type: Hotel")) = lit "accomodation"
  /\ ~ In (fst (Helper.get_invoice_category_and_description Latin.rt
                  Sample.world (lit "- Invoice Type: Hotel")))
          [lit "meal"; lit "travel"; lit "cab"; lit "accommodation";
           lit "other"].
Proof.
  split; [vm_compute; reflexivity|].
  vm_compute. intuition discriminate.
Qed.

(** ** The two date extractors *)

(** C10. [extract_date_from_description] of [helper.py] and the one of
    [store.py] return the same result on every string; on the empty
    string both return the no-value result. *)
Theorem extract_date_copies_agree (R : runtime) :
  (forall description : str,
     Helper.extract_date_from_description R description
     = Store.extract_date_from_description R description)
  /\ Helper.extract_date_from_description R [] = None
  /\ Store.extract_date_from_description R [] = None.
Proof.
  split; [|split].
  - intros description.
    unfold Helper.extract_date_from_description,
      Store.extract_date_from_description.
    destruct (nonempty description); [|reflexivity].
    change (Store.date_pattern R) with (Helper.date_pattern R).
    reflexivity.
  - reflexivity.
  - reflexivity.
Qed.

(** ** The query answerer *)

(** C7, as amended. When the filtered similarity search gives no result,
    [answer_query_for_employee] returns the message [No data found for
    employee: <name>] without running the chain; when it gives results,
    the answer is what the chain returns for the page contents of the
    results, in the order of the store and joined by blank lines, and
    the question. *)
Theorem answer_query_cases (Score : Type) (W : world Score)
  (employee_name query : str) (top_k : nat)
  (results : list (Document * Score)) :
  new_llm W = Ok tt ->
  Store.search_by_employee_name W employee_name top_k = Ok results ->
  Store.answer_query_for_employee W employee_name query top_k
  = match results with
    | [] => Ok (lit "No data found for employee: " ++ employee_name)
    | _ :: _ =>
        llm_invoke W
          (Text (Store.format_query_prompt
                   (join (nl ++ nl)
                         (map (fun r => page_content (fst r)) results))
                   query))
    end.
Proof.
  intros Hllm Hsearch.
  unfold Store.answer_query_for_employee.
  rewrite Hllm, Hsearch. simpl.
  destruct results; reflexivity.
Qed.

Lemma answer_query_cases_witness :
  new_llm Sample.world = Ok tt
  /\ Store.search_by_employee_name Sample.world (lit "Asha") 5 = Ok []
  /\ Store.answer_query_for_employee Sample.world (lit "Asha")
       (lit "How much was declined?") 5
     = Ok (lit "No data found for employee: " ++ lit "Asha").
Proof.
  split; [reflexivity|]. split; [reflexivity|].
  apply (@answer_query_cases nat Sample.world (lit "Asha")
           (lit "How much was declined?") 5 []); reflexivity.
Defined.

(** C7 as stated fails in the direction from the message to the empty
    result set: the search finds a document, and the answer is the
    message all the same, because the chain produced that text. *)
Lemma answer_query_counterexample :
  Store.search_by_employee_name
    (Sample.world_of (Ok []) (Ok (lit "No data found for employee: Asha"))
       [(Sample.doc, 1)] [])
    (lit "Asha") 5 = Ok [(Sample.doc, 1)]
  /\ Store.answer_query_for_employee
       (Sample.world_of (Ok []) (Ok (lit "No data found for employee: Asha"))
          [(Sample.doc, 1)] [])
       (lit "Asha") (lit "Repeat the header.") 5
     = Ok (lit "No data found for employee: Asha").
Proof. split; reflexivity. Qed.

(** ** Failed extractions *)

Section Extraction.

Variable Score : Type.
Variable W : world Score.

(** The extraction reads the policy text of the state and nothing else. *)
Lemma extraction_ignores_data (state : State) (d d' : dict str)
  (pdf_path : path) :
  Helper.extract_invoice_data_body W pdf_path
    (Helper.with_invoice_data state d)
  = Helper.extract_invoice_data_body W pdf_path
      (Helper.with_invoice_data state d').
Proof. reflexivity. Qed.

Lemma process_pdf_empty (state : State) (d : dict str) (pdf_path : path) :
  Helper.extract_invoice_data W pdf_path (Helper.with_invoice_data state d)
  = [] ->
  Helper.process_pdf W state d pdf_path = d.
Proof.
  intros H. unfold Helper.process_pdf. rewrite H. reflexivity.
Qed.

Lemma extraction_failed (state : State) (pdf_path : path) (e : exn) :
  Helper.extract_invoice_data_body W pdf_path state = Raise e ->
  Helper.extract_invoice_data W pdf_path state = [].
Proof.
  intros H. unfold Helper.extract_invoice_data. rewrite H. reflexivity.
Qed.

(** C8. When the extraction of an invoice raises, [extract_invoice_data]
    gives the empty string; a turn of the loop of [process_invoices]
    whose extraction gives the empty string leaves the dictionary as it
    is; the loop ends with the dictionary it would have reached without
    the invoice whose extraction raises; and so does the [with] block of
    [process_invoices] when the walker has found that invoice among
    others. *)
Theorem failed_extraction_is_dropped (state : State) (data : dict str)
  (pdf_path : path) (e : exn) :
  Helper.extract_invoice_data_body W pdf_path
    (Helper.with_invoice_data state data) = Raise e ->
  Helper.extract_invoice_data W pdf_path (Helper.with_invoice_data state data)
  = []
  /\ (forall (d : dict str) (other : path),
        Helper.extract_invoice_data W other (Helper.with_invoice_data state d)
        = [] ->
        Helper.process_pdf W state d other = d)
  /\ Helper.process_pdf W state data pdf_path = data
  /\ (forall before after : list path,
        Helper.process_pdfs W state data (before ++ pdf_path :: after)
        = Helper.process_pdfs W state data (before ++ after))
  /\ (forall (R : runtime) (fuel : nat) (zip_path temp_dir : path)
             (before after : list path) (t' : FS.tree),
        mkdtemp W = Ok temp_dir ->
        Helper.io_bind (Helper.io_change (FS.makedirs temp_dir))
          (fun _ => Helper.extract_zip_and_find_pdfs R fuel zip_path temp_dir)
          (disk W)
        = Some (Ok (before ++ pdf_path :: after, t')) ->
        Helper.with_temp_dir R W fuel state data zip_path
        = Some (Helper.process_pdfs W state data (before ++ after),
                rmtree W)).
Proof.
  intros H.
  assert (Hdrop : forall before after : list path,
            Helper.process_pdfs W state data (before ++ pdf_path :: after)
            = Helper.process_pdfs W state data (before ++ after)).
  { intros before after. unfold Helper.process_pdfs.
    rewrite !fold_left_app. simpl.
    rewrite process_pdf_empty; [reflexivity|].
    apply extraction_failed with (e := e).
    rewrite <- H. apply extraction_ignores_data. }
  split; [|split; [|split; [|split]]].
  - exact (extraction_failed _ _ H).
  - intros d other. apply process_pdf_empty.
  - apply process_pdf_empty. exact (extraction_failed _ _ H).
  - exact Hdrop.
  - intros R fuel zip_path temp_dir before after t' Htmp Hwalk.
    unfold Helper.with_temp_dir. rewrite Htmp, Hwalk, Hdrop. reflexivity.
Qed.

End Extraction.

Lemma failed_extraction_is_dropped_witness :
  Helper.extract_invoice_data_body
    (Sample.world_of (Raise (lit "cannot open file")) (Ok []) [] [])
    [lit "tmp"; lit "a.pdf"]
    (Helper.with_invoice_data Sample.state []) = Raise (lit "cannot open file")
  /\ Helper.process_pdfs
       (Sample.world_of (Raise (lit "cannot open file")) (Ok []) [] [])
       Sample.state [] ([] ++ [lit "tmp"; lit "a.pdf"] :: [])
     = Helper.process_pdfs
         (Sample.world_of (Raise (lit "cannot open file")) (Ok []) [] [])
         Sample.state [] ([] ++ []).
Proof.
  split; [reflexivity|].
  apply (@failed_extraction_is_dropped nat
           (Sample.world_of (Raise (lit "cannot open file")) (Ok []) [] [])
           Sample.state [] [lit "tmp"; lit "a.pdf"] (lit "cannot open file")).
  reflexivity.
Defined.

(** ** Exceptions inside [process_invoices] *)

Section Errors.

Variable R : runtime.
Variable Score : Type.
Variable W : world Score.

Lemma store_invoice_extends (d : dict str) (name invoice k v : str) :
  Dict.get k d = Some v ->
  exists rest, Dict.get k (Helper.store_invoice d name invoice)
               = Some (v ++ rest).
Proof.
  intros Hk. unfold Helper.store_invoice.
  destruct (str_eqb k name) eqn:E.
  - apply str_eqb_eq in E. subst name. rewrite Hk.
    rewrite get_set_same. eauto.
  - apply str_eqb_neq in E.
    destruct (Dict.get name d); rewrite get_set_other by exact E;
      exists []; now rewrite app_nil_r.
Qed.

Lemma process_pdfs_extends (state : State) (pdf_files : list path) :
  forall (d : dict str) (k v : str),
    Dict.get k d = Some v ->
    exists rest, Dict.get k (Helper.process_pdfs W state d pdf_files)
                 = Some (v ++ rest).
Proof.
  unfold Helper.process_pdfs.
  induction pdf_files as [|p ps IH]; simpl; intros d k v Hk.
  - exists []. now rewrite app_nil_r.
  - assert (H1 : exists rest, Dict.get k (Helper.process_pdf W state d p)
                              = Some (v ++ rest)).
    { unfold Helper.process_pdf.
      destruct (nonempty _).
      - now apply store_invoice_extends.
      - exists []. now rewrite app_nil_r. }
    destruct H1 as [r1 H1].
    destruct (IH _ _ _ H1) as [r2 H2].
    exists (r1 ++ r2). now rewrite app_assoc.
Qed.

(** The dictionary with which the [with] block is left holds, extended,
    every entry the state had on entry. *)
Lemma with_temp_dir_extends (fuel : nat) (state : State) (zip_path : path)
  (data' : dict str) (r : result unit) (k v : str) :
  Helper.with_temp_dir R W fuel state (Helper.initial_data state) zip_path
  = Some (data', r) ->
  Dict.get k (Helper.initial_data state) = Some v ->
  exists rest, Dict.get k data' = Some (v ++ rest).
Proof.
  unfold Helper.with_temp_dir. intros H Hk.
  destruct (mkdtemp W).
  - destruct (Helper.io_bind _ _ _) as [[[pdfs t]|e']|]; inversion H; subst.
    + now apply process_pdfs_extends.
    + exists []. now rewrite app_nil_r.
  - inversion H; subst. exists []. now rewrite app_nil_r.
Qed.

(** C9, as amended. When the [with] block of [process_invoices] is left
    by an exception, the function returns a state in whose
    [employee_invoice_data] the key [Error] holds the text of the
    exception; the entries under the other keys are those reached before
    the exception, which extend the entries the state had on entry; and
    the summary of that state, when [get_summary] returns one, has the
    key [Error]. *)
Theorem process_invoices_records_error (fuel : nat) (state : State)
  (zip_path : path) (data' : dict str) (e : exn) :
  Helper.with_temp_dir R W fuel state (Helper.initial_data state) zip_path
  = Some (data', Raise e) ->
  exists (state' : State) (recorded : dict str),
    Helper.process_invoices R W fuel state zip_path = Some state'
    /\ employee_invoice_data state' = Some recorded
    /\ md_text state' = md_text state
    /\ Dict.get (lit "Error") recorded = Some e
    /\ (forall k, k <> lit "Error" -> Dict.get k recorded = Dict.get k data')
    /\ (forall k v, k <> lit "Error" ->
          Dict.get k (Helper.initial_data state) = Some v ->
          exists rest, Dict.get k recorded = Some (v ++ rest))
    /\ (forall summary,
          Helper.get_summary R W state' = Ok summary ->
          Dict.mem (lit "Error") summary = true).
Proof.
  intros H.
  exists (Helper.with_invoice_data state (Dict.set (lit "Error") e data')),
         (Dict.set (lit "Error") e data').
  split. { unfold Helper.process_invoices. rewrite H. reflexivity. }
  split; [reflexivity|]. split; [reflexivity|].
  split. { apply get_set_same. }
  split. { intros k Hk. now apply get_set_other. }
  split.
  - intros k v Hk Hget.
    destruct (with_temp_dir_extends _ _ _ _ H Hget) as [rest Hrest].
    exists rest. rewrite get_set_other by exact Hk. exact Hrest.
  - intros summary Hs. unfold Helper.get_summary in Hs. simpl in Hs.
    eapply summarize_all_keys; [exact Hs|]. left.
    apply mem_keys. unfold Dict.mem. now rewrite get_set_same.
Qed.

End Errors.

Lemma process_invoices_records_error_witness :
  Helper.with_temp_dir Latin.rt Sample.world 5 Sample.state
    (Helper.initial_data Sample.state) [lit "broken.zip"]
  = Some (Helper.initial_data Sample.state, Raise (lit "File is not a zip file"))
  /\ exists (state' : State) (recorded : dict str),
    Helper.process_invoices Latin.rt Sample.world 5 Sample.state
      [lit "broken.zip"] = Some state'
    /\ employee_invoice_data state' = Some recorded
    /\ md_text state' = md_text Sample.state
    /\ Dict.get (lit "Error") recorded = Some (lit "File is not a zip file")
    /\ (forall k, k <> lit "Error" ->
          Dict.get k recorded = Dict.get k (Helper.initial_data Sample.state))
    /\ (forall k v, k <> lit "Error" ->
          Dict.get k (Helper.initial_data Sample.state) = Some v ->
          exists rest, Dict.get k recorded = Some (v ++ rest))
    /\ (forall summary,
          Helper.get_summary Latin.rt Sample.world state' = Ok summary ->
          Dict.mem (lit "Error") summary = true).
Proof.
  split; [vm_compute; reflexivity|].
  apply (@process_invoices_records_error Latin.rt nat Sample.world 5
           Sample.state [lit "broken.zip"]).
  vm_compute. reflexivity.
Defined.

(** C9 as stated fails for an employee whose name is [Error]: the entry
    stored for that employee is replaced by the text of the exception. *)
Lemma process_invoices_error_counterexample :
  Dict.get (lit "Error") (Helper.initial_data Sample.state)
  = Some (Sample.record_of "Error")
  /\ exists recorded : dict str,
       option_map employee_invoice_data
         (Helper.process_invoices Latin.rt Sample.world 5 Sample.state
            [lit "broken.zip"]) = Some (Some recorded)
       /\ Dict.get (lit "Error") recorded = Some (lit "File is not a zip file")
       /\ Dict.get (lit "Error") recorded <> Some (Sample.record_of "Error").
Proof.
  split; [reflexivity|].
  eexists. split; [vm_compute; reflexivity|].
  split; [vm_compute; reflexivity|].
  vm_compute. discriminate.
Qed.

(** ** The employee name *)

Lemma startswith_In (p s : str) (c : char) :
  startswith p s = true -> In c p -> In c s.
Proof.
  revert s; induction p as [|x p IH]; intros s H Hin; [destruct Hin|].
  destruct s as [|y s]; [discriminate|].
  simpl in H. apply andb_true_iff in H. destruct H as [Hxy Hp].
  apply char_eqb_eq in Hxy. subst y.
  destruct Hin as [<-|Hin]; [now left | right; eauto].
Qed.

Lemma contains_In (sub s : str) (c : char) :
  contains sub s = true -> In c sub -> In c s.
Proof.
  induction s as [|y s IH]; simpl; intros H Hin.
  - rewrite orb_false_r in H. exact (startswith_In _ _ _ H Hin).
  - apply orb_true_iff in H. destruct H as [H|H].
    + exact (startswith_In _ _ _ H Hin).
    + right. auto.
Qed.

Lemma split1_In (sep : char) (s : str) :
  In sep s -> exists a b, split1 sep s = [a; b].
Proof.
  induction s as [|c s IH]; simpl; [tauto|].
  intros Hin. destruct (char_eqb c sep) eqn:E; [eauto|].
  destruct Hin as [->|Hin]; [now rewrite char_eqb_refl in E|].
  destruct (IH Hin) as [a [b ->]]. eauto.
Qed.

Lemma labelled_value_Ok (label line : str) :
  In 58%N label -> contains label line = true ->
  Helper.labelled_value line = Ok (line_value line).
Proof.
  intros Hc H. unfold Helper.labelled_value, line_value.
  destruct (split1_In 58 line (contains_In _ _ _ H Hc)) as [a [b ->]].
  reflexivity.
Qed.

Lemma scan_lines_filter (label : str) (accept : str -> bool)
  (lines : list str) :
  In 58%N label ->
  Helper.scan_lines label accept lines
  = Ok (hd_error (filter accept
                    (map line_value (filter (contains label) lines)))).
Proof.
  intros Hc. induction lines as [|l lines IH]; simpl; [reflexivity|].
  destruct (contains label l) eqn:E; [|exact IH].
  rewrite (labelled_value_Ok _ _ Hc E). simpl.
  destruct (accept (line_value l)); [reflexivity | exact IH].
Qed.

Lemma lstrip_star (s : str) : ~ In 42%N s -> ~ In 42%N (lstrip s).
Proof.
  induction s as [|c s IH]; simpl; auto.
  intros H. destruct (isspace c); simpl; auto.
Qed.

Lemma strip_star (s : str) : ~ In 42%N s -> ~ In 42%N (strip s).
Proof.
  intros H. unfold strip, rstrip.
  rewrite <- in_rev. apply lstrip_star. rewrite <- in_rev.
  now apply lstrip_star.
Qed.

Lemma replace_star_from (s : str) :
  forall skip, ~ In 42%N (replace_from skip (lit "*") [] s).
Proof.
  induction s as [|c s IH]; intros skip; cbn [replace_from]; [tauto|].
  destruct skip as [|k]; [|apply IH].
  replace (startswith (lit "*") (c :: s)) with (char_eqb 42 c)
    by (cbn; now rewrite andb_true_r).
  destruct (char_eqb 42 c) eqn:E.
  - apply IH.
  - intros [H|H]; [|exact (IH _ H)].
    subst c. now rewrite char_eqb_refl in E.
Qed.

(** C3, as amended. [get_employee_name] returns the value of the first
    line with the label [**EMPLOYEE NAME:**] whose value (the text after
    the first colon of the line, without asterisks and surrounding white
    space) is neither empty nor the sentinel; when there is no such
    line, the fallback patterns are tried on the whole text and the
    sentinel is returned only when they give nothing.  No value of a
    labelled line keeps an asterisk, and the line
    [**EMPLOYEE NAME:** **John Doe**] gives [John Doe]. *)
Theorem get_employee_name_spec (invoice_text : str) :
  Helper.get_employee_name invoice_text
  = match filter Helper.accept_name
            (map line_value
               (filter (contains (lit "**EMPLOYEE NAME:**"))
                       (split 10 invoice_text))) with
    | name :: _ => name
    | [] =>
        match Helper.first_pattern Helper.name_patterns invoice_text with
        | Some name => name
        | None => lit "No information about employee"
        end
    end
  /\ (forall line, ~ In 42%N (line_value line))
  /\ Helper.get_employee_name (lit "**EMPLOYEE NAME:** **John Doe**")
     = lit "John Doe".
Proof.
  split; [|split].
  - unfold Helper.get_employee_name.
    rewrite scan_lines_filter by (vm_compute; tauto).
    unfold bind, try_except.
    destruct (filter Helper.accept_name _); cbn [hd_error]; [|reflexivity].
    destruct (Helper.first_pattern Helper.name_patterns invoice_text);
      reflexivity.
  - intros line. unfold line_value. apply strip_star.
    apply replace_star_from.
  - vm_compute. reflexivity.
Qed.

(** C3 as stated fails: the label line holds the sentinel, and the
    fallback patterns are tried and give the name of another line. *)
Lemma get_employee_name_counterexample :
  Helper.get_employee_name
    (lit "**EMPLOYEE NAME:** No information about employee" ++ nl
     ++ lit "Customer Name: Bob") = lit "Bob"
  /\ line_value (lit "**EMPLOYEE NAME:** No information about employee")
     = lit "No information about employee".
Proof. split; vm_compute; reflexivity. Qed.

(** ** The matcher *)

Section Matching.

Import Re.

Lemma last_char_cons prev c s : last_char prev (c :: s) = last_char (Some c) s.
Proof.
  unfold last_char. simpl. destruct (rev s); reflexivity.
Qed.

Lemma last_char_app prev a b :
  last_char prev (a ++ b) = last_char (last_char prev a) b.
Proof.
  revert prev; induction a as [|c a IH]; intros prev; simpl.
  - reflexivity.
  - now rewrite !last_char_cons, IH.
Qed.

Lemma run_le cls hi s : run cls hi s <= length s.
Proof.
  revert hi; induction s as [|c s IH]; intros hi; simpl; [lia|].
  destruct (cls c); [|lia].
  destruct hi as [[|h]|]; [lia | specialize (IH (Some h)); lia
                           | specialize (IH None); lia].
Qed.

Lemma run_cap cls h s : run cls (Some h) s <= h.
Proof.
  revert h; induction s as [|c s IH]; intros h; simpl; [lia|].
  destruct (cls c); [|lia].
  destruct h as [|h]; [lia | specialize (IH h); lia].
Qed.

Lemma run_Forall cls hi s :
  forall n, n <= run cls hi s -> Forall (fun c => cls c = true) (firstn n s).
Proof.
  revert hi; induction s as [|c s IH]; intros hi n Hn.
  - rewrite firstn_nil. constructor.
  - destruct n as [|n]; [constructor|].
    simpl in Hn. destruct (cls c) eqn:E; [|lia].
    simpl. constructor; [exact E|].
    destruct hi as [[|h]|]; [lia | apply (IH (Some h)); lia
                             | apply (IH None); lia].
Qed.

Lemma run_ge cls hi seg rest :
  Forall (fun c => cls c = true) seg -> within hi (length seg) ->
  length seg <= run cls hi (seg ++ rest).
Proof.
  revert hi; induction seg as [|c seg IH]; intros hi Hall Hhi; simpl; [lia|].
  inversion Hall as [|? ? Hc Hall']; subst. rewrite Hc.
  destruct hi as [[|h]|]; simpl in Hhi.
  - lia.
  - specialize (IH (Some h) Hall'). simpl in IH. lia.
  - specialize (IH None Hall' I). lia.
Qed.

Lemma back_Some lo k n r :
  back lo k n = Some r -> exists i, lo <= i <= n /\ k i = Some r.
Proof.
  induction n as [|n IH]; simpl.
  - destruct (Nat.leb lo 0) eqn:E.
    + apply Nat.leb_le in E. destruct (k 0) eqn:K; [|discriminate].
      intros [= <-]. exists 0. split; [lia | exact K].
    + discriminate.
  - destruct (Nat.leb lo (S n)) eqn:E.
    + apply Nat.leb_le in E. destruct (k (S n)) eqn:K.
      * intros [= <-]. exists (S n). split; [lia | exact K].
      * intros H. destruct (IH H) as [i [Hi Hk]]. exists i. split; [lia|auto].
    + intros H. destruct (IH H) as [i [Hi Hk]]. exists i. split; [lia|auto].
Qed.

Lemma back_None lo k n :
  back lo k n = None -> forall i, lo <= i <= n -> k i = None.
Proof.
  induction n as [|n IH]; simpl; intros H i Hi.
  - assert (i = 0) by lia. subst i.
    destruct (Nat.leb lo 0) eqn:E.
    + destruct (k 0); [discriminate | reflexivity].
    + apply Nat.leb_gt in E. lia.
  - destruct (Nat.leb lo (S n)) eqn:E.
    + destruct (k (S n)) eqn:K; [discriminate|].
      destruct (Nat.eq_dec i (S n)) as [->|Hne]; [exact K|].
      apply IH; [exact H | lia].
    + apply Nat.leb_gt in E. apply IH; [exact H | lia].
Qed.

(** The matcher finds only matches, and finds one when there is one. *)
Lemma match_atoms_sound p :
  forall prev s m, match_atoms p prev s = Some m -> Matches p prev s m.
Proof.
  induction p as [|[g cls lo hi|w] p IH]; intros prev s m H; simpl in H.
  - inversion H. constructor.
  - apply back_Some in H. destruct H as [i [Hi Hk]].
    destruct (match_atoms p _ _) eqn:Hm; [|discriminate].
    inversion Hk; subst. constructor; [lia | lia | now apply IH].
  - destruct (at_boundary w prev s) eqn:E; [|discriminate].
    constructor; auto.
Qed.

Lemma match_atoms_complete p prev s m :
  Matches p prev s m -> match_atoms p prev s <> None.
Proof.
  induction 1 as [| |g cls lo hi p prev s n m Hlo Hn HM IH]; simpl.
  - discriminate.
  - now rewrite H.
  - intros Hnone. apply back_None with (i := n) in Hnone; [|lia].
    destruct (match_atoms p _ _); [discriminate | now apply IH].
Qed.

(** A repetition matches a segment of its class and of a length within
    its bounds. *)
Lemma Matches_rep_inv g cls lo hi p prev s m :
  Matches (Rep g cls lo hi :: p) prev s m ->
  exists seg rest m',
    s = seg ++ rest /\ m = (g, seg) :: m'
    /\ lo <= length seg /\ within hi (length seg)
    /\ Forall (fun c => cls c = true) seg
    /\ Matches p (last_char prev seg) rest m'.
Proof.
  intros H. inversion H as [| |? ? ? ? ? ? ? n m' Hlo Hn HM]; subst.
  exists (firstn n s), (skipn n s), m'.
  assert (Hlen : length (firstn n s) = n).
  { apply firstn_length_le. pose proof (run_le cls hi s). lia. }
  rewrite Hlen. repeat split; auto.
  - symmetry. apply firstn_skipn.
  - destruct hi as [h|]; simpl; [|exact I].
    pose proof (run_cap cls h s). lia.
  - now apply run_Forall with (hi := hi).
Qed.

Lemma Matches_rep_intro g cls lo hi p prev seg rest m' :
  lo <= length seg -> within hi (length seg) ->
  Forall (fun c => cls c = true) seg ->
  Matches p (last_char prev seg) rest m' ->
  Matches (Rep g cls lo hi :: p) prev (seg ++ rest) ((g, seg) :: m').
Proof.
  intros Hlo Hhi Hall HM.
  pose proof (@Matches_rep g cls lo hi p prev (seg ++ rest) (length seg) m')
    as HR.
  rewrite firstn_app, Nat.sub_diag, firstn_all, firstn_O, app_nil_r in HR.
  rewrite skipn_app, Nat.sub_diag, skipn_all, skipn_O in HR. simpl in HR.
  apply HR; auto. now apply run_ge.
Qed.

(** [re.search] gives the match at the leftmost position that has one. *)
Lemma search_from_Some p s :
  forall prev m,
    search_from p prev s = Some m ->
    exists pre rest,
      s = pre ++ rest
      /\ match_atoms p (last_char prev pre) rest = Some m
      /\ forall pre' rest',
           s = pre' ++ rest' -> length pre' < length pre ->
           match_atoms p (last_char prev pre') rest' = None.
Proof.
  induction s as [|c s IH]; intros prev m H; simpl in H.
  - destruct (match_atoms p prev []) eqn:E; [|discriminate].
    inversion H; subst. exists [], []. repeat split; auto.
    simpl. intros ? ? ? Hlt. lia.
  - destruct (match_atoms p prev (c :: s)) eqn:E.
    + inversion H; subst. exists [], (c :: s). repeat split; auto.
      simpl. intros ? ? ? Hlt. lia.
    + destruct (IH _ _ H) as [pre [rest [Hs [Hm Hleft]]]].
      exists (c :: pre), rest. subst s. repeat split; auto.
      * now rewrite last_char_cons.
      * intros pre' rest' Heq Hlt. destruct pre' as [|c' pre'].
        -- simpl in Heq. subst rest'. exact E.
        -- simpl in Heq. inversion Heq; subst c'.
           rewrite last_char_cons. apply Hleft; [assumption|simpl in Hlt; lia].
Qed.

Lemma search_from_None p s :
  forall prev,
    search_from p prev s = None ->
    forall pre rest,
      s = pre ++ rest -> match_atoms p (last_char prev pre) rest = None.
Proof.
  induction s as [|c s IH]; intros prev H pre rest Heq; simpl in H.
  - destruct (match_atoms p prev []) eqn:E; [discriminate|].
    symmetry in Heq. apply app_eq_nil in Heq. destruct Heq; subst. exact E.
  - destruct (match_atoms p prev (c :: s)) eqn:E; [discriminate|].
    destruct pre as [|c' pre].
    + simpl in Heq. subst rest. exact E.
    + simpl in Heq. inversion Heq; subst c'.
      rewrite last_char_cons. eapply IH; eauto.
Qed.

End Matching.

(** ** The date pattern *)

Section Dates.

Import Re.

Variable R : runtime.
Hypothesis Hok : unicode_ok R.

Lemma decimal_word c : isdecimal R c = true -> word R c = true.
Proof.
  intros H. unfold word. destruct Hok as [Hw _]. now rewrite (Hw c H).
Qed.

Lemma slash_decimal : isdecimal R 47 = false.
Proof. destruct Hok as [_ [_ H]]. apply H. reflexivity. Qed.

Lemma last_char_In prev seg :
  seg <> [] -> exists c, last_char prev seg = Some c /\ In c seg.
Proof.
  intros Hne. unfold last_char. destruct (rev seg) as [|c r] eqn:E.
  - apply (f_equal (@rev char)) in E. rewrite rev_involutive in E.
    simpl in E. contradiction.
  - exists c. split; [reflexivity|]. apply in_rev. rewrite E. now left.
Qed.

Lemma digits_word_first lo hi seg rest :
  digits R (S lo) hi seg -> is_word (word R) (hd_error (seg ++ rest)) = true.
Proof.
  intros [[Hlen _] Hall]. destruct seg as [|c seg]; [simpl in Hlen; lia|].
  simpl. inversion Hall; subst. now apply decimal_word.
Qed.

Lemma digits_word_last lo hi prev seg :
  digits R (S lo) hi seg -> is_word (word R) (last_char prev seg) = true.
Proof.
  intros [[Hlen _] Hall].
  destruct (@last_char_In prev seg) as [c [-> Hin]].
  { intros ->. simpl in Hlen. lia. }
  simpl. apply decimal_word. rewrite Forall_forall in Hall. auto.
Qed.

Lemma one_slash seg :
  1 <= length seg -> within (Some 1) (length seg) ->
  Forall (fun c => char_eqb 47 c = true) seg -> seg = lit "/".
Proof.
  intros H1 H2 Hall. unfold within in H2.
  destruct seg as [|c [|c' seg]]; cbn [length] in H1, H2; try lia.
  inversion Hall as [|? ? Hc _]; subst. apply char_eqb_eq in Hc. now subst.
Qed.

Lemma date_Matches_inv prev s m :
  Matches (Helper.date_pattern R) prev s m ->
  exists dd mm yyyy post,
    s = dd ++ lit "/" ++ mm ++ lit "/" ++ yyyy ++ post
    /\ digits R 1 2 dd /\ digits R 1 2 mm /\ digits R 4 4 yyyy
    /\ no_word R prev /\ no_word R (hd_error post)
    /\ m = date_segments dd mm yyyy.
Proof.
  unfold Helper.date_pattern, one. intros H.
  inversion H as [|? ? ? ? ? Hb1 H1|]; subst. clear H.
  apply Matches_rep_inv in H1.
  destruct H1 as [dd [r1 [m1 [-> [-> [Hlo1 [Hhi1 [Hd1 H2]]]]]]]].
  apply Matches_rep_inv in H2.
  destruct H2 as [s1 [r2 [m2 [-> [-> [Hlo2 [Hhi2 [Hs1 H3]]]]]]]].
  apply Matches_rep_inv in H3.
  destruct H3 as [mm [r3 [m3 [-> [-> [Hlo3 [Hhi3 [Hd3 H4]]]]]]]].
  apply Matches_rep_inv in H4.
  destruct H4 as [s2 [r4 [m4 [-> [-> [Hlo4 [Hhi4 [Hs2 H5]]]]]]]].
  apply Matches_rep_inv in H5.
  destruct H5 as [yy [post [m5 [-> [-> [Hlo5 [Hhi5 [Hd5 H6]]]]]]]].
  inversion H6 as [|? ? ? ? ? Hb2 H7|]; subst. clear H6.
  inversion H7; subst. clear H7.
  rewrite (one_slash Hlo2 Hhi2 Hs1) in *.
  rewrite (one_slash Hlo4 Hhi4 Hs2) in *.
  simpl in Hhi1, Hhi3, Hhi5.
  assert (D1 : digits R 1 2 dd) by (split; [lia | exact Hd1]).
  assert (D3 : digits R 1 2 mm) by (split; [lia | exact Hd3]).
  assert (D5 : digits R 4 4 yy) by (split; [lia | exact Hd5]).
  exists dd, mm, yy, post. repeat split; try assumption; try lia.
  - unfold at_boundary in Hb1. rewrite (digits_word_first _ D1) in Hb1.
    unfold no_word. destruct (is_word (word R) prev); [discriminate|reflexivity].
  - unfold at_boundary in Hb2. rewrite (digits_word_last _ D5) in Hb2.
    unfold no_word. simpl in Hb2.
    destruct (is_word (word R) (hd_error post)); [discriminate|reflexivity].
Qed.

Lemma date_Matches_intro prev dd mm yyyy post :
  digits R 1 2 dd -> digits R 1 2 mm -> digits R 4 4 yyyy ->
  no_word R prev -> no_word R (hd_error post) ->
  Matches (Helper.date_pattern R) prev
    (dd ++ lit "/" ++ mm ++ lit "/" ++ yyyy ++ post)
    (date_segments dd mm yyyy).
Proof.
  intros D1 D3 D5 Hp Hq. unfold Helper.date_pattern, one, date_segments.
  assert (Hsl : Forall (fun c => char_eqb 47 c = true) (lit "/")).
  { repeat constructor. }
  constructor.
  { unfold at_boundary. rewrite (digits_word_first _ D1).
    unfold no_word in Hp. now rewrite Hp. }
  destruct D1 as [L1 A1]. destruct D3 as [L3 A3]. pose proof D5 as [L5 A5].
  apply Matches_rep_intro; [lia | simpl; lia | exact A1 |].
  apply Matches_rep_intro; [simpl; lia | simpl; lia | exact Hsl |].
  apply Matches_rep_intro; [lia | simpl; lia | exact A3 |].
  apply Matches_rep_intro; [simpl; lia | simpl; lia | exact Hsl |].
  apply Matches_rep_intro; [lia | simpl; lia | exact A5 |].
  constructor; [|constructor].
  unfold at_boundary. rewrite (digits_word_last _ D5).
  unfold no_word in Hq. now rewrite Hq.
Qed.

Lemma app_same_length (a a' b b' : str) :
  length a = length a' -> a ++ b = a' ++ b' -> a = a' /\ b = b'.
Proof.
  revert a'; induction a as [|x a IH]; intros [|y a'] Hlen H;
    simpl in Hlen; try discriminate.
  - auto.
  - simpl in H. inversion H; subst. destruct (IH a') as [-> ->]; auto.
Qed.

(** The digits before a slash are determined by the text. *)
Lemma digits_slash_unique (a a' r r' : str) :
  Forall (fun c => isdecimal R c = true) a ->
  Forall (fun c => isdecimal R c = true) a' ->
  a ++ lit "/" ++ r = a' ++ lit "/" ++ r' -> a = a' /\ r = r'.
Proof.
  revert a'; induction a as [|c a IH]; intros [|c' a'] Ha Ha' H; simpl in H.
  - inversion H. auto.
  - inversion H; subst. inversion Ha'; subst.
    rewrite slash_decimal in *. discriminate.
  - inversion H; subst. inversion Ha; subst.
    rewrite slash_decimal in *. discriminate.
  - inversion H; subst. inversion Ha; inversion Ha'; subst.
    destruct (IH a') as [-> ->]; auto.
Qed.

Lemma date_text_unique dd mm yyyy post dd' mm' yyyy' post' :
  digits R 1 2 dd -> digits R 1 2 mm -> digits R 4 4 yyyy ->
  digits R 1 2 dd' -> digits R 1 2 mm' -> digits R 4 4 yyyy' ->
  dd ++ lit "/" ++ mm ++ lit "/" ++ yyyy ++ post
  = dd' ++ lit "/" ++ mm' ++ lit "/" ++ yyyy' ++ post' ->
  dd = dd' /\ mm = mm' /\ yyyy = yyyy' /\ post = post'.
Proof.
  intros [_ A1] [_ A3] [L5 _] [_ A1'] [_ A3'] [L5' _] H.
  apply digits_slash_unique in H; auto. destruct H as [-> H].
  apply digits_slash_unique in H; auto. destruct H as [-> H].
  assert (Hlen : length yyyy = length yyyy') by lia.
  destruct (app_same_length _ _ _ _ Hlen H) as [-> ->]. tauto.
Qed.

Lemma date_match_at prev dd mm yyyy post :
  digits R 1 2 dd -> digits R 1 2 mm -> digits R 4 4 yyyy ->
  no_word R prev -> no_word R (hd_error post) ->
  match_atoms (Helper.date_pattern R) prev
    (dd ++ lit "/" ++ mm ++ lit "/" ++ yyyy ++ post)
  = Some (date_segments dd mm yyyy).
Proof.
  intros D1 D3 D5 Hp Hq.
  pose proof (@date_Matches_intro prev dd mm yyyy post D1 D3 D5 Hp Hq) as HM.
  apply match_atoms_complete in HM.
  destruct (match_atoms _ _ _) as [m|] eqn:E; [|contradiction].
  apply match_atoms_sound, date_Matches_inv in E.
  destruct E as [dd' [mm' [yy' [post' [Heq [D1' [D3' [D5' [_ [_ ->]]]]]]]]]].
  destruct (@date_text_unique dd mm yyyy post dd' mm' yy' post'
              D1 D3 D5 D1' D3' D5' Heq) as [-> [-> [-> _]]].
  reflexivity.
Qed.

Lemma date_match_inv prev s m :
  match_atoms (Helper.date_pattern R) prev s = Some m ->
  exists dd mm yyyy post,
    s = dd ++ lit "/" ++ mm ++ lit "/" ++ yyyy ++ post
    /\ digits R 1 2 dd /\ digits R 1 2 mm /\ digits R 4 4 yyyy
    /\ no_word R prev /\ no_word R (hd_error post)
    /\ m = date_segments dd mm yyyy.
Proof. intros H. now apply date_Matches_inv, match_atoms_sound. Qed.

(** On digits, [zfill] has no sign to keep in front. *)
Lemma zfill_digits lo hi s : digits R (S lo) hi s -> zfill 2 s = pad2 s.
Proof.
  intros [[Hlen _] Hall]. destruct s as [|c s]; [simpl in Hlen; lia|].
  inversion Hall as [|? ? Hc _]; subst.
  unfold zfill, pad2.
  destruct Hok as [_ [_ Hlow]].
  destruct (char_eqb c 43) eqn:E1.
  { apply char_eqb_eq in E1. subst c.
    rewrite Hlow in Hc by reflexivity. discriminate. }
  destruct (char_eqb c 45) eqn:E2.
  { apply char_eqb_eq in E2. subst c.
    rewrite Hlow in Hc by reflexivity. discriminate. }
  reflexivity.
Qed.

Lemma date_segments_groups dd mm yyyy :
  group 1 (date_segments dd mm yyyy) = dd
  /\ group 2 (date_segments dd mm yyyy) = mm
  /\ group 3 (date_segments dd mm yyyy) = yyyy.
Proof.
  unfold group, date_segments. simpl. now rewrite !app_nil_r.
Qed.

Lemma date_of_segments dd mm yyyy :
  digits R 1 2 dd -> digits R 1 2 mm ->
  zfill 2 (group 1 (date_segments dd mm yyyy)) ++ lit "/"
  ++ zfill 2 (group 2 (date_segments dd mm yyyy)) ++ lit "/"
  ++ group 3 (date_segments dd mm yyyy)
  = padded_date dd mm yyyy.
Proof.
  intros D1 D3.
  destruct (date_segments_groups dd mm yyyy) as [-> [-> ->]].
  now rewrite (zfill_digits D1), (zfill_digits D3).
Qed.

Lemma date_at_text t pre dd mm yyyy post :
  date_at R t pre dd mm yyyy post ->
  t = pre ++ (dd ++ lit "/" ++ mm ++ lit "/" ++ yyyy ++ post)
  /\ match_atoms (Helper.date_pattern R) (last_char None pre)
       (dd ++ lit "/" ++ mm ++ lit "/" ++ yyyy ++ post)
     = Some (date_segments dd mm yyyy).
Proof.
  intros [[Ht [D1 [D3 D5]]] [Hp Hq]]. split; [exact Ht|].
  now apply date_match_at.
Qed.

Lemma date_at_nonempty t pre dd mm yyyy post :
  date_at R t pre dd mm yyyy post -> nonempty t = true.
Proof.
  intros [[Ht [[[L _] _] _]] _]. subst t.
  destruct pre; [|reflexivity].
  destruct dd; [simpl in L; lia | reflexivity].
Qed.

(** What [extract_date_from_description] returns is the padded date of
    the leftmost date between word boundaries. *)
Lemma extract_date_inv t d :
  Helper.extract_date_from_description R t = Some d ->
  exists pre dd mm yyyy post,
    date_at R t pre dd mm yyyy post /\ leftmost_date R t pre
    /\ d = padded_date dd mm yyyy.
Proof.
  unfold Helper.extract_date_from_description, search.
  destruct (nonempty t); simpl; [|discriminate].
  destruct (search_from _ None t) as [m|] eqn:E; [|discriminate].
  intros [= <-].
  apply search_from_Some in E.
  destruct E as [pre [rest [Ht [Hm Hleft]]]].
  apply date_match_inv in Hm.
  destruct Hm as [dd [mm [yy [post [Hr [D1 [D3 [D5 [Hp [Hq ->]]]]]]]]]].
  exists pre, dd, mm, yy, post. split; [|split].
  - subst rest. repeat split; auto; try apply D1; try apply D3; try apply D5.
  - intros pre' dd' mm' yy' post' Hat.
    destruct (le_lt_dec (length pre) (length pre')) as [Hle|Hlt]; [exact Hle|].
    apply date_at_text in Hat. destruct Hat as [Ht' Hm'].
    rewrite (Hleft _ _ Ht' Hlt) in Hm'. discriminate.
  - now apply date_of_segments.
Qed.

Lemma extract_date_none t :
  Helper.extract_date_from_description R t = None ->
  forall pre dd mm yyyy post, ~ date_at R t pre dd mm yyyy post.
Proof.
  unfold Helper.extract_date_from_description, search.
  intros H pre dd mm yy post Hat.
  rewrite (date_at_nonempty Hat) in H. simpl in H.
  destruct (search_from _ None t) as [m|] eqn:E; [discriminate|].
  apply date_at_text in Hat. destruct Hat as [Ht Hm].
  rewrite (search_from_None _ _ E _ _ Ht) in Hm. discriminate.
Qed.

Lemma extract_date_found t pre dd mm yyyy post :
  date_at R t pre dd mm yyyy post -> leftmost_date R t pre ->
  Helper.extract_date_from_description R t = Some (padded_date dd mm yyyy).
Proof.
  intros Hat Hleft.
  destruct (Helper.extract_date_from_description R t) as [d|] eqn:E.
  - apply extract_date_inv in E.
    destruct E as [pre' [dd' [mm' [yy' [post' [Hat' [Hleft' ->]]]]]]].
    pose proof (Hleft _ _ _ _ _ Hat') as L1.
    pose proof (Hleft' _ _ _ _ _ Hat) as L2.
    destruct Hat as [[Ht [D1 [D3 D5]]] _].
    destruct Hat' as [[Ht' [D1' [D3' D5']]] _].
    rewrite Ht in Ht'.
    apply app_same_length in Ht'; [|lia]. destruct Ht' as [_ Heq].
    destruct (@date_text_unique dd mm yyyy post dd' mm' yy' post'
                D1 D3 D5 D1' D3' D5' Heq) as [-> [-> [-> _]]].
    reflexivity.
  - exfalso. exact (extract_date_none E Hat).
Qed.

(** C4, as amended. [extract_date_from_description] is a total function:
    it returns the no-value result when no day/month/year of one or two,
    one or two and four decimal digits stands between word boundaries in
    the text, and otherwise returns the leftmost such date with the day
    and the month padded with zeros to two digits. *)
Theorem extract_date_between_boundaries (t : str) :
  ((forall pre dd mm yyyy post, ~ date_at R t pre dd mm yyyy post) ->
   Helper.extract_date_from_description R t = None)
  /\ (forall pre dd mm yyyy post,
        date_at R t pre dd mm yyyy post -> leftmost_date R t pre ->
        Helper.extract_date_from_description R t
        = Some (pad2 dd ++ lit "/" ++ pad2 mm ++ lit "/" ++ yyyy))
  /\ (forall d,
        Helper.extract_date_from_description R t = Some d ->
        exists pre dd mm yyyy post,
          date_at R t pre dd mm yyyy post /\ leftmost_date R t pre
          /\ d = pad2 dd ++ lit "/" ++ pad2 mm ++ lit "/" ++ yyyy).
Proof.
  split; [|split].
  - intros Hno.
    destruct (Helper.extract_date_from_description R t) as [d|] eqn:E;
      [|reflexivity].
    apply extract_date_inv in E.
    destruct E as [pre [dd [mm [yy [post [Hat _]]]]]].
    exfalso. exact (Hno _ _ _ _ _ Hat).
  - intros pre dd mm yy post Hat Hleft. exact (extract_date_found Hat Hleft).
  - intros d E. exact (extract_date_inv _ E).
Qed.

Lemma pad2_digits dd : digits R 1 2 dd -> digits R 2 2 (pad2 dd).
Proof.
  intros [L A]. destruct Hok as [_ [H0 _]]. unfold pad2.
  destruct dd as [|a [|b [|c dd]]]; simpl in L; try lia; simpl.
  - inversion A; subst. split; [simpl; lia | repeat constructor; auto].
  - split; [simpl; lia | exact A].
Qed.

Lemma pad2_twice dd : digits R 1 2 dd -> pad2 (pad2 dd) = pad2 dd.
Proof.
  intros D. destruct (pad2_digits D) as [L _]. unfold pad2 at 1.
  replace (2 - length (pad2 dd)) with 0 by lia. reflexivity.
Qed.

(** C5. Date extraction is idempotent: a date that
    [extract_date_from_description] returns is returned unchanged when it
    is given the date. *)
Theorem extract_date_idempotent (t d : str) :
  Helper.extract_date_from_description R t = Some d ->
  Helper.extract_date_from_description R d = Some d.
Proof.
  intros E. apply extract_date_inv in E.
  destruct E as [pre [dd [mm [yy [post [Hat [_ ->]]]]]]].
  destruct Hat as [[_ [D1 [D3 D5]]] _].
  assert (Hat' : date_at R (padded_date dd mm yy) [] (pad2 dd) (pad2 mm) yy []).
  { repeat split; try apply D5.
    - unfold padded_date. simpl. now rewrite app_nil_r.
    - destruct (pad2_digits D1); lia.
    - destruct (pad2_digits D1); lia.
    - now destruct (pad2_digits D1).
    - destruct (pad2_digits D3); lia.
    - destruct (pad2_digits D3); lia.
    - now destruct (pad2_digits D3). }
  rewrite (extract_date_found Hat').
  - unfold padded_date. now rewrite (pad2_twice D1), (pad2_twice D3).
  - intros ? ? ? ? ? _. simpl. lia.
Qed.

End Dates.

Lemma latin_ok : unicode_ok Latin.rt.
Proof.
  split; [|split].
  - intros c H. simpl in *. unfold Latin.alnum. unfold Latin.decimal in H.
    now rewrite H.
  - reflexivity.
  - intros c H. simpl. unfold Latin.decimal, in_range.
    apply N.leb_gt in H. now rewrite H.
Qed.

Lemma extract_date_between_boundaries_witness :
  unicode_ok Latin.rt
  /\ date_at Latin.rt (lit "3/1/2024 lunch") [] (lit "3") (lit "1")
       (lit "2024") (lit " lunch")
  /\ leftmost_date Latin.rt (lit "3/1/2024 lunch") []
  /\ Helper.extract_date_from_description Latin.rt (lit "3/1/2024 lunch")
     = Some (lit "03/01/2024").
Proof.
  assert (Hat : date_at Latin.rt (lit "3/1/2024 lunch") [] (lit "3") (lit "1")
                  (lit "2024") (lit " lunch")).
  { unfold date_at, bare_date_at, digits, no_word.
    repeat split; simpl; try lia; repeat constructor. }
  assert (Hleft : leftmost_date Latin.rt (lit "3/1/2024 lunch") []).
  { intros ? ? ? ? ? _. simpl. lia. }
  split; [exact latin_ok|]. split; [exact Hat|]. split; [exact Hleft|].
  exact (proj1 (proj2 (extract_date_between_boundaries latin_ok
                         (lit "3/1/2024 lunch")))
           [] (lit "3") (lit "1") (lit "2024") (lit " lunch") Hat Hleft).
Defined.

(** C4 as stated fails: the text has a day/month/year in digits, and the
    result is the no-value result, because a letter stands just before
    the day. *)
Lemma extract_date_bare_counterexample :
  bare_date_at Latin.rt (lit "ref3/1/2024") (lit "ref") (lit "3") (lit "1")
    (lit "2024") []
  /\ Helper.extract_date_from_description Latin.rt (lit "ref3/1/2024") = None.
Proof.
  split; [|vm_compute; reflexivity].
  unfold bare_date_at, digits. repeat split; simpl; try lia; repeat constructor.
Qed.

Lemma extract_date_idempotent_witness :
  unicode_ok Latin.rt
  /\ Helper.extract_date_from_description Latin.rt (lit "paid on 3/1/2024")
     = Some (lit "03/01/2024")
  /\ Helper.extract_date_from_description Latin.rt (lit "03/01/2024")
     = Some (lit "03/01/2024").
Proof.
  split; [exact latin_ok|]. split; [vm_compute; reflexivity|].
  apply (@extract_date_idempotent Latin.rt latin_ok (lit "paid on 3/1/2024")).
  vm_compute. reflexivity.
Defined.

(** ** The archive walker *)

Section Walker.

Variable R : runtime.

Lemma find_put_same name n t : FS.find name (FS.put name n t) = Some n.
Proof.
  induction t as [|[name' n'] t IH]; simpl.
  - now rewrite str_eqb_refl.
  - destruct (str_eqb name name') eqn:E; simpl; rewrite E; auto.
Qed.


(** One step of [run_call]. *)
Lemma run_call_extract fuel zip_path extract_to t :
  Helper.run_call R (S fuel) (Helper.Extract zip_path extract_to) t
  = match FS.open_zip zip_path t with
    | Ok members =>
        Helper.io_bind
          (Helper.io_change (FS.extractall members extract_to))
          (fun _ => Helper.run_call R fuel (Helper.Walk extract_to)) t
    | Raise e => Some (Raise e)
    end.
Proof. reflexivity. Qed.

Lemma run_call_walk fuel root t :
  Helper.run_call R (S fuel) (Helper.Walk root) t
  = match FS.lookup root t with
    | Some (FS.Dir entries) =>
        Helper.io_bind
          (Helper.scan_files R
             (fun zp et => Helper.run_call R fuel (Helper.Extract zp et))
             root (FS.files (scandir R root entries)))
          (fun pdfs =>
             Helper.io_bind
               (Helper.walk_dirs
                  (fun r => Helper.run_call R fuel (Helper.Walk r))
                  root (FS.dirs (scandir R root entries)))
               (fun pdfs' => Helper.io_ret (pdfs ++ pdfs'))) t
    | _ => Helper.io_ret [] t
    end.
Proof. reflexivity. Qed.



End Walker.

(** A corrupt archive: the [with] block is left by the exception of
    [zipfile.ZipFile] before any invoice is read. *)
Lemma with_temp_dir_bad_archive (R : runtime) (Score : Type)
  (W : world Score) (fuel : nat) (state : State) (data : dict str)
  (zip_path temp_dir : path) (t : FS.tree) (e : exn) :
  mkdtemp W = Ok temp_dir ->
  FS.makedirs temp_dir (disk W) = Ok t ->
  FS.open_zip zip_path t = Raise e ->
  rmtree W = Ok tt ->
  Helper.with_temp_dir R W (S fuel) state data zip_path
  = Some (data, Raise e).
Proof.
  intros Htmp Hmk Hopen Hrm. unfold Helper.with_temp_dir.
  rewrite Htmp. unfold Helper.io_bind, Helper.io_change. rewrite Hmk.
  unfold Helper.extract_zip_and_find_pdfs. cbn [Helper.run_call].
  rewrite Hopen, Hrm. reflexivity.
Qed.

(** ** More fuel gives the same result *)

Section Fuel.

Variable R : runtime.

Lemma io_bind_mono A B (m m' : Helper.io A) (k k' : A -> Helper.io B) t r :
  (forall x, m t = Some x -> m' t = Some x) ->
  (forall a t' x, k a t' = Some x -> k' a t' = Some x) ->
  Helper.io_bind m k t = Some r -> Helper.io_bind m' k' t = Some r.
Proof.
  intros Hm Hk H. unfold Helper.io_bind in *.
  destruct (m t) as [[[a t']|e]|] eqn:E; try discriminate;
    rewrite (Hm _ eq_refl); auto.
Qed.

Lemma scan_files_mono extract extract' root files :
  (forall a b t x, extract a b t = Some x -> extract' a b t = Some x) ->
  forall t x,
    Helper.scan_files R extract root files t = Some x ->
    Helper.scan_files R extract' root files t = Some x.
Proof.
  intros He. induction files as [|file rest IH]; intros t x H; [exact H|].
  cbn [Helper.scan_files] in *.
  destruct (Helper.is_pdf R file).
  - revert H. apply io_bind_mono; auto.
  - destruct (Helper.is_zip R file); [|auto].
    revert H. apply io_bind_mono; [auto|]. intros _ t1 x1.
    apply io_bind_mono; [apply He|]. intros nested t2 x2.
    apply io_bind_mono; auto.
Qed.

Lemma walk_dirs_mono walk walk' root dirs :
  (forall a t x, walk a t = Some x -> walk' a t = Some x) ->
  forall t x,
    Helper.walk_dirs walk root dirs t = Some x ->
    Helper.walk_dirs walk' root dirs t = Some x.
Proof.
  intros Hw. induction dirs as [|d rest IH]; intros t x H; [exact H|].
  cbn [Helper.walk_dirs] in *.
  revert H. apply io_bind_mono; [apply Hw|]. intros pdfs t1 x1.
  apply io_bind_mono; auto.
Qed.

(** A result reached with some fuel is reached with any larger fuel. *)
Lemma run_call_more_fuel fuel :
  forall c t x,
    Helper.run_call R fuel c t = Some x ->
    Helper.run_call R (S fuel) c t = Some x.
Proof.
  induction fuel as [|fuel IH]; intros c t x H; [discriminate|].
  destruct c as [zip_path extract_to|root].
  - rewrite run_call_extract in *.
    destruct (FS.open_zip zip_path t); [|exact H].
    revert H. apply io_bind_mono; [auto|]. intros _ t1 x1. apply IH.
  - rewrite run_call_walk in *.
    destruct (FS.lookup root t) as [[z|entries]|]; try exact H.
    revert H. apply io_bind_mono.
    + intros x1. apply scan_files_mono. intros a b t1 x2. apply IH.
    + intros pdfs t1 x1. apply io_bind_mono; [|auto].
      intros x2. apply walk_dirs_mono. intros a t2 x3. apply IH.
Qed.

Lemma extract_zip_more_fuel fuel fuel' zip_path extract_to t x :
  fuel <= fuel' ->
  Helper.extract_zip_and_find_pdfs R fuel zip_path extract_to t = Some x ->
  Helper.extract_zip_and_find_pdfs R fuel' zip_path extract_to t = Some x.
Proof.
  unfold Helper.extract_zip_and_find_pdfs.
  induction 1 as [|fuel' Hle IH]; [auto|].
  intros H. apply run_call_more_fuel. auto.
Qed.

End Fuel.

(** ** Results of the walk *)

Lemma io_bind_Ok A B (m : Helper.io A) (k : A -> Helper.io B) t b t' :
  Helper.io_bind m k t = Some (Ok (b, t')) ->
  exists a t1, m t = Some (Ok (a, t1)) /\ k a t1 = Some (Ok (b, t')).
Proof.
  unfold Helper.io_bind. intros H.
  destruct (m t) as [[[a t1]|e]|]; try discriminate. eauto.
Qed.

Lemma io_ret_Ok A (a b : A) t t' :
  Helper.io_ret a t = Some (Ok (b, t')) -> b = a /\ t' = t.
Proof. unfold Helper.io_ret. intros H. inversion H. auto. Qed.

(** *** Entries of a directory *)


Lemma find_In name n (t : FS.tree) :
  FS.find name t = Some n -> In (name, n) t.
Proof.
  induction t as [|[k m] t IH]; simpl; [discriminate|].
  destruct (str_eqb name k) eqn:E.
  - apply str_eqb_eq in E. subst k. intros [= ->]. now left.
  - intros H. right. auto.
Qed.


Lemma find_put_other name name' n (t : FS.tree) :
  name <> name' -> FS.find name (FS.put name' n t) = FS.find name t.
Proof.
  intros Hne. induction t as [|[k m] t IH]; simpl.
  - apply str_eqb_neq in Hne. now rewrite Hne.
  - destruct (str_eqb name' k) eqn:E; simpl.
    + apply str_eqb_eq in E. subst k.
      apply str_eqb_neq in Hne. now rewrite Hne.
    + destruct (str_eqb name k); auto.
Qed.




(** *** Changes in one directory *)


(** A result does not depend on the path kept for the messages. *)
Lemma in_dir_done p f :
  forall d d' (t t' : FS.tree),
    FS.in_dir d p f t = Ok t' -> FS.in_dir d' p f t = Ok t'.
Proof.
  induction p as [|name p IH]; intros d d' t t' H; [exact H|].
  cbn [FS.in_dir] in *.
  destruct (FS.find name t) as [[z|t0]|].
  - destruct p; discriminate.
  - apply bind_Ok in H. destruct H as [t'' [H1 H2]].
    rewrite (IH _ (path_join d' name) _ _ H1). exact H2.
  - apply bind_Ok in H. destruct H as [t'' [H1 H2]].
    rewrite (IH _ (path_join d' name) _ _ H1). exact H2.
Qed.









(** *** The walk is never out of fuel *)

Section Termination.

Variable R : runtime.
Hypothesis Hsd : scandir_ok R.

Lemma height_Dir es : height (FS.Dir es) = S (height_tree es).
Proof. reflexivity. Qed.

Lemma height_archive ms : height (FS.File (Some ms)) = S (height_tree ms).
Proof. reflexivity. Qed.

Lemma height_pos n : 1 <= height n.
Proof.
  destruct n as [[ms|]|es];
    rewrite ?height_archive, ?height_Dir; simpl; lia.
Qed.

Lemma find_height name (t : FS.tree) n :
  FS.find name t = Some n -> height n <= height_tree t.
Proof.
  induction t as [|[k m] t IH]; simpl; [discriminate|].
  destruct (str_eqb name k).
  - intros [= ->]. lia.
  - intros H. apply IH in H. lia.
Qed.

Lemma put_height name n (t : FS.tree) b :
  height n <= b -> height_tree t <= b ->
  height_tree (FS.put name n t) <= b.
Proof.
  intros Hn. induction t as [|[k m] t IH]; simpl; intros Ht.
  - lia.
  - destruct (str_eqb name k); simpl.
    + lia.
    + assert (height_tree t <= b) by lia. apply IH in H. lia.
Qed.

Lemma lookup_height p :
  forall (t : FS.tree) n B,
    FS.lookup p t = Some n -> height_tree t <= B ->
    match n with
    | FS.Dir es => length p + height_tree es <= B
    | FS.File (Some ms) => length p + height_tree ms <= B
    | FS.File None => length p <= B
    end.
Proof.
  induction p as [|name p IH]; intros t n B Hl Ht.
  - simpl in Hl. inversion Hl; subst. simpl. exact Ht.
  - simpl in Hl. destruct (FS.find name t) as [[z|t0]|] eqn:E;
      try discriminate.
    + apply find_height in E.
      destruct p; [|discriminate]. inversion Hl; subst.
      destruct z as [ms|].
      * rewrite height_archive in E. simpl. lia.
      * simpl in *. lia.
    + apply find_height in E. rewrite height_Dir in E.
      assert (Ht0 : height_tree t0 <= B - 1) by lia.
      specialize (IH t0 n (B - 1) Hl Ht0).
      destruct n as [[ms|]|es]; simpl; lia.
Qed.

Lemma extract_member_dir here name ms (t : FS.tree) :
  FS.extract_member here name (FS.Dir ms) t
  = match FS.find name t with
    | Some (FS.File _) =>
        Raise (FS.os_error "17" "File exists" (path_join here name))
    | Some (FS.Dir t') =>
        t'' <- FS.extract_members (path_join here name) ms t' ;;
        Ok (FS.put name (FS.Dir t'') t)
    | None =>
        t'' <- FS.extract_members (path_join here name) ms [] ;;
        Ok (FS.put name (FS.Dir t'') t)
    end.
Proof.
  cbn [FS.extract_member].
  assert (H : forall acc,
    (fix members (ms0 : list (str * FS.node)) (acc0 : FS.tree)
         {struct ms0} : result FS.tree :=
       match ms0 with
       | [] => Ok acc0
       | (name', m) :: ms' =>
           acc' <- FS.extract_member (path_join here name) name' m acc0 ;;
           members ms' acc'
       end) ms acc
    = FS.extract_members (path_join here name) ms acc).
  { induction ms as [|[k m] ms IH]; intros acc; [reflexivity|].
    cbn [FS.extract_members].
    destruct (FS.extract_member (path_join here name) k m acc);
      cbn [bind]; [apply IH | reflexivity]. }
  destruct (FS.find name t) as [[z|t']|]; [reflexivity| |];
    now rewrite H.
Qed.

(** Writing the members of an archive makes nothing deeper than the
    directory and the archive were. *)
Lemma extract_height b :
  (forall here name n (t t' : FS.tree),
      height n <= b -> height_tree t <= b ->
      FS.extract_member here name n t = Ok t' -> height_tree t' <= b)
  /\ (forall here (ms acc acc' : FS.tree),
        height_tree ms <= b -> height_tree acc <= b ->
        FS.extract_members here ms acc = Ok acc' -> height_tree acc' <= b).
Proof.
  induction b as [|b [IHm IHs]].
  - assert (Hm : forall here name n (t t' : FS.tree),
      height n <= 0 -> height_tree t <= 0 ->
      FS.extract_member here name n t = Ok t' -> height_tree t' <= 0).
    { intros here name n t t' Hn. pose proof (height_pos n). lia. }
    split; [exact Hm|].
    intros here ms. induction ms as [|[k m] ms IH]; intros acc acc' Hms Ha H.
    + inversion H; subst. exact Ha.
    + pose proof (height_pos m). simpl in Hms. lia.
  - assert (Hm : forall here name n (t t' : FS.tree),
      height n <= S b -> height_tree t <= S b ->
      FS.extract_member here name n t = Ok t' -> height_tree t' <= S b).
    { intros here name n t t' Hn Ht H. destruct n as [z|ms].
      - cbn [FS.extract_member] in H.
        destruct (FS.find name t) as [[z'|t0]|]; inversion H; subst;
          now apply put_height.
      - rewrite extract_member_dir in H. rewrite height_Dir in Hn.
        destruct (FS.find name t) as [[z'|t0]|] eqn:E; [discriminate| |].
        + apply find_height in E. rewrite height_Dir in E.
          apply bind_Ok in H. destruct H as [t'' [H1 H2]].
          inversion H2; subst.
          apply IHs in H1; [|lia|lia].
          apply put_height; [rewrite height_Dir; lia | exact Ht].
        + apply bind_Ok in H. destruct H as [t'' [H1 H2]].
          inversion H2; subst.
          apply IHs in H1; [|lia|simpl; lia].
          apply put_height; [rewrite height_Dir; lia | exact Ht]. }
    split; [exact Hm|].
    intros here ms. induction ms as [|[k m] ms IH]; intros acc acc' Hms Ha H.
    + inversion H; subst. exact Ha.
    + cbn [FS.extract_members] in H. simpl in Hms.
      apply bind_Ok in H. destruct H as [t1 [H1 H2]].
      apply Hm in H1; [|lia|exact Ha].
      apply (IH t1 acc'); [lia | exact H1 | exact H2].
Qed.

Lemma in_dir_height p f :
  forall done (t t' : FS.tree) B,
    height_tree t <= B -> length p <= B ->
    (forall es es', height_tree es <= B - length p -> f es = Ok es' ->
                    height_tree es' <= B - length p) ->
    FS.in_dir done p f t = Ok t' ->
    height_tree t' <= B.
Proof.
  induction p as [|name p IH]; intros done t t' B Ht Hp Hf H.
  - simpl in *. rewrite Nat.sub_0_r in Hf. apply (Hf t t'); [lia | exact H].
  - simpl in Hp. cbn [FS.in_dir] in H.
    assert (Hf' : forall es es', height_tree es <= B - 1 - length p ->
                                 f es = Ok es' ->
                                 height_tree es' <= B - 1 - length p).
    { intros es es' He Hfe. simpl in Hf.
      replace (B - 1 - length p) with (B - S (length p)) in * by lia.
      eauto. }
    destruct (FS.find name t) as [[z|t0]|] eqn:E.
    + destruct p; discriminate.
    + apply find_height in E. rewrite height_Dir in E.
      apply bind_Ok in H. destruct H as [t'' [H1 H2]]. inversion H2; subst.
      apply (IH _ _ _ (B - 1)) in H1; [|lia|lia|exact Hf'].
      apply put_height; [rewrite height_Dir; lia | exact Ht].
    + apply bind_Ok in H. destruct H as [t'' [H1 H2]]. inversion H2; subst.
      apply (IH _ _ _ (B - 1)) in H1; [|simpl; lia|lia|exact Hf'].
      apply put_height; [rewrite height_Dir; lia | exact Ht].
Qed.

Lemma settles_bind B (m : Helper.io (list path))
  (k : list path -> Helper.io (list path)) :
  settles B m -> (forall a, settles B (k a)) ->
  settles B (Helper.io_bind m k).
Proof.
  intros Hm Hk t Ht. destruct (Hm t Ht) as [r [Hr Hb]].
  unfold Helper.io_bind. rewrite Hr.
  destruct r as [[a t1]|e].
  - apply Hk. eauto.
  - eexists. split; [reflexivity|]. discriminate.
Qed.

Lemma settles_ret B (a : list path) : settles B (Helper.io_ret a).
Proof.
  intros t Ht. eexists. split; [reflexivity|].
  intros pdfs t' H. inversion H; subst. exact Ht.
Qed.

Lemma scan_files_settles B extract root :
  length root < B ->
  (forall file, settles B (extract (path_join root file)
                                   (Helper.nested_dir root file))) ->
  forall files, settles B (Helper.scan_files R extract root files).
Proof.
  intros Hroot Hex. induction files as [|file rest IH].
  - apply settles_ret.
  - cbn [Helper.scan_files].
    destruct (Helper.is_pdf R file).
    + apply settles_bind; [exact IH|]. intros a. apply settles_ret.
    + destruct (Helper.is_zip R file); [|exact IH].
      intros t Ht. unfold Helper.io_bind at 1. unfold Helper.io_change.
      destruct (FS.makedirs (Helper.nested_dir root file) t) as [t1|e] eqn:E.
      * assert (Ht1 : height_tree t1 <= B).
        { unfold FS.makedirs in E.
          apply (@in_dir_height _ _ _ _ _ B) in E; auto.
          - unfold Helper.nested_dir, path_join. rewrite length_app.
            simpl. lia.
          - intros es es' He [= <-]. exact He. }
        clear E. revert t1 Ht1.
        change (settles B
          (Helper.io_bind
             (extract (path_join root file) (Helper.nested_dir root file))
             (fun nested_pdfs =>
                Helper.io_bind (Helper.scan_files R extract root rest)
                  (fun pdfs => Helper.io_ret (nested_pdfs ++ pdfs))))).
        apply settles_bind; [apply Hex|]. intros a.
        apply settles_bind; [exact IH|]. intros b. apply settles_ret.
      * eexists. split; [reflexivity|]. discriminate.
Qed.

Lemma walk_dirs_settles B walk root :
  (forall d, settles B (walk (path_join root d))) ->
  forall dirs, settles B (Helper.walk_dirs walk root dirs).
Proof.
  intros Hw. induction dirs as [|d rest IH].
  - apply settles_ret.
  - cbn [Helper.walk_dirs].
    apply settles_bind; [apply Hw|]. intros a.
    apply settles_bind; [exact IH|]. intros b. apply settles_ret.
Qed.

Lemma run_call_settles fuel :
  forall B,
    (forall root t,
        height_tree t <= B ->
        2 * (B - length root) + 1 <= fuel ->
        exists r,
          Helper.run_call R fuel (Helper.Walk root) t = Some r
          /\ forall pdfs t', r = Ok (pdfs, t') -> height_tree t' <= B)
    /\ (forall zip_path extract_to t,
          height_tree t <= B -> length extract_to <= B ->
          (forall ms, FS.open_zip zip_path t = Ok ms ->
                      height_tree ms <= B - length extract_to) ->
          2 * (B - length extract_to) + 2 <= fuel ->
          exists r,
            Helper.run_call R fuel (Helper.Extract zip_path extract_to) t
            = Some r
            /\ forall pdfs t', r = Ok (pdfs, t') -> height_tree t' <= B).
Proof.
  induction fuel as [|fuel IH]; intros B.
  - split; intros; lia.
  - destruct (IH B) as [IHw IHe]. split.
    + intros root t Ht Hfuel. rewrite run_call_walk.
      destruct (FS.lookup root t) as [[z|es]|] eqn:El;
        try (apply settles_ret; exact Ht).
      pose proof (lookup_height _ _ El Ht) as Hes. simpl in Hes.
      assert (Hcase : es = [] \/ 1 <= height_tree es).
      { destruct es as [|[k m] es0]; [now left | right].
        simpl. pose proof (height_pos m). lia. }
      destruct Hcase as [->|Hpos].
      { assert (E : scandir R root [] = []).
        { apply Permutation_nil. symmetry. apply Hsd. }
        rewrite E. eexists. split; [reflexivity|].
        intros pdfs t' H. inversion H; subst. exact Ht. }
      assert (Hroot : length root < B) by lia.
      revert t Ht El.
      cut (settles B
        (Helper.io_bind
           (Helper.scan_files R
              (fun zp et => Helper.run_call R fuel (Helper.Extract zp et))
              root (FS.files (scandir R root es)))
           (fun pdfs =>
              Helper.io_bind
                (Helper.walk_dirs
                   (fun r => Helper.run_call R fuel (Helper.Walk r))
                   root (FS.dirs (scandir R root es)))
                (fun pdfs' => Helper.io_ret (pdfs ++ pdfs'))))).
      { intros H t Ht _. exact (H t Ht). }
      apply settles_bind.
      * apply scan_files_settles; [exact Hroot|].
        intros file t Ht. apply IHe; auto.
        -- unfold Helper.nested_dir, path_join. rewrite length_app.
           simpl. lia.
        -- intros ms Hopen. unfold FS.open_zip in Hopen.
           destruct (FS.lookup (path_join root file) t)
             as [[[ms'|]|es']|] eqn:Ez; inversion Hopen; subst.
           pose proof (lookup_height _ _ Ez Ht) as Hms. simpl in Hms.
           unfold Helper.nested_dir, path_join in *.
           rewrite length_app in *. simpl in *. lia.
        -- unfold Helper.nested_dir, path_join. rewrite length_app.
           simpl. lia.
      * intros a. apply settles_bind; [|intros b; apply settles_ret].
        apply walk_dirs_settles. intros d t Ht. apply IHw; auto.
        unfold path_join. rewrite length_app. simpl. lia.
    + intros zip_path extract_to t Ht Het Hms Hfuel.
      rewrite run_call_extract.
      destruct (FS.open_zip zip_path t) as [ms|e] eqn:Eo.
      * specialize (Hms ms eq_refl).
        unfold Helper.io_bind, Helper.io_change.
        destruct (FS.extractall ms extract_to t) as [t1|e] eqn:Ex.
        -- apply IHw; [|lia].
           unfold FS.extractall in Ex.
           apply (@in_dir_height _ _ _ _ _ B) in Ex; auto.
           intros es es' Hes Hx.
           exact (proj2 (extract_height (B - length extract_to))
                    _ _ _ _ Hms Hes Hx).
        -- eexists. split; [reflexivity|]. discriminate.
      * eexists. split; [reflexivity|]. discriminate.
Qed.

Lemma walker_settles fuel zip_path extract_to (t : FS.tree) :
  2 * height_tree t + 2 <= fuel ->
  exists r,
    Helper.extract_zip_and_find_pdfs R fuel zip_path extract_to t = Some r.
Proof.
  intros Hfuel.
  set (B := length extract_to + height_tree t).
  destruct (proj2 (run_call_settles fuel B) zip_path extract_to t)
    as [r [Hr _]]; [unfold B; lia | unfold B; lia | | unfold B; lia | eauto].
  intros ms Hopen. unfold FS.open_zip in Hopen.
  destruct (FS.lookup zip_path t) as [[[ms'|]|es']|] eqn:Ez;
    inversion Hopen; subst.
  pose proof (lookup_height _ _ Ez (le_n _)) as Hms. simpl in Hms.
  unfold B. lia.
Qed.

Lemma makedirs_height p (t t' : FS.tree) :
  FS.makedirs p t = Ok t' ->
  height_tree t' <= Nat.max (height_tree t) (length p).
Proof.
  unfold FS.makedirs. intros H.
  apply (@in_dir_height _ _ _ _ _ (Nat.max (height_tree t) (length p)))
    in H; auto; try lia.
  intros es es' He [= <-]. exact He.
Qed.

End Termination.

(** *** Lists *)





(** *** The PDFs to find, and clean entries *)

Section Clean.

Variable R : runtime.









Lemma file_listed (es : FS.tree) name :
  In name (FS.files es) -> exists a, In (name, FS.File a) es.
Proof.
  unfold FS.files. intros H. apply in_map_iff in H.
  destruct H as [[k n] [E H]]. simpl in E. subst k.
  apply filter_In in H. destruct H as [H Hd].
  destruct n as [a|es0]; [eauto | discriminate].
Qed.



End Clean.

(** *** The walk of a clean directory *)

Lemma io_bind_Some A B (m : Helper.io A) (k : A -> Helper.io B) t r :
  Helper.io_bind m k t = Some r ->
  exists r1, m t = Some r1
             /\ match r1 with
                | Ok (a, t1) => k a t1 = Some r
                | Raise e => r = Raise e
                end.
Proof.
  unfold Helper.io_bind. intros H.
  destruct (m t) as [[[a t1]|e]|]; [| | discriminate].
  - exists (Ok (a, t1)). split; [reflexivity | exact H].
  - inversion H; subst. exists (Raise e). split; reflexivity.
Qed.

Section Correct.

Variable R : runtime.
Hypothesis Hsd : scandir_ok R.

(** What the walk of the directory [root] has reached: the file system
    is the one the walk started from but for the entries of [root], and
    these are the entries [es] it started from but for the names [K] of
    directories made or walked. *)


Lemma expanded_cases name :
  expanded R name = true ->
  Helper.is_pdf R name = false /\ Helper.is_zip R name = true.
Proof.
  unfold expanded. intros H. apply andb_true_iff in H.
  destruct H as [H1 H2]. apply negb_true_iff in H1. auto.
Qed.

Lemma nested_dir_path root file :
  Helper.nested_dir root file = root ++ [nested_name file].
Proof. reflexivity. Qed.





End Correct.

(** *** Each PDF is found once *)

Section Distinct.

Variable R : runtime.






End Distinct.

(** *** The walker on a clean archive *)

Section Found.

Variable R : runtime.
Hypothesis Hsd : scandir_ok R.


End Found.

(** *** A bundle of one PDF and one archive *)

Lemma rt_scandir_ok : scandir_ok Latin.rt.
Proof. intros root entries. apply Permutation_refl. Qed.

Lemma rt_reversed_scandir_ok : scandir_ok Latin.rt_reversed.
Proof. intros root entries. symmetry. apply Permutation_rev. Qed.

Section Bundle.

Variable R : runtime.






End Bundle.




(** ** Worked examples *)

Example count_does_not_overlap :
  count (lit "**") (lit "***") = 1
  /\ count (lit "**INVOICE DETAILS:**")
       (lit "**INVOICE DETAILS:***INVOICE DETAILS:**") = 1.
Proof. split; reflexivity. Qed.

Example split_examples :
  split 10 (lit "a:b") = [lit "a:b"]
  /\ split1 58 (lit "a:b:c") = [lit "a"; lit "b:c"].
Proof. split; reflexivity. Qed.

Example search_backtracks :
  Re.search (Re.lit_cs "a" ++ [Re.Rep 1 (in_range 97 98) 1 None]
             ++ Re.lit_cs "b") (lit "xaabbbc")
  = Some [(0, lit "a"); (1, lit "abb"); (0, lit "b")].
Proof. reflexivity. Qed.

Example findall_ignores_case :
  Re.findall (Re.lit_ci "id" ++ [Re.Rep 1 (in_range 48 57) 1 None])
             (lit "id12 ID3 Id id7")
  = [lit "12"; lit "3"; lit "7"].
Proof. reflexivity. Qed.

Example status_examples :
  Helper.get_reimbursement_status
    (lit "**REIMBURSEMENT STATUS:** **Fully Reimbursed**")
  = lit "Fully Reimbursed"
  /\ Helper.get_reimbursement_status (lit "no label here")
     = lit "**Pending Review**".
Proof. split; vm_compute; reflexivity. Qed.

Example date_examples :
  Helper.extract_date_from_description Latin.rt
    (lit "a1/2/2024 5/6/2025") = Some (lit "05/06/2025")
  /\ Helper.extract_date_from_description Latin.rt (lit "3/1/20245") = None
  /\ Helper.extract_date_from_description Latin.rt [] = None.
Proof. repeat split; vm_compute; reflexivity. Qed.

(** A sum of amounts none of whose digits is left raises in [float], and
    [get_summary] with it. *)
Example get_summary_raises :
  Helper.get_summary Latin.rt Sample.world
    {| md_text := None;
       employee_invoice_data :=
         Some [(lit "Asha", lit "Total Amount: $,")];
       state_extract_invoice_data := None |}
  = Raise (lit "could not convert string to float: ''").
Proof. vm_compute. reflexivity. Qed.

(** A directory of the bundle that bears the name of the directory made
    for a nested archive is walked twice. *)
Example walker_repeats_paths :
  option_map
    (fun r => match r with
              | Ok (pdfs, _) => Some (length pdfs)
              | Raise _ => None
              end)
    (Helper.extract_zip_and_find_pdfs Latin.rt 6 [lit "up.zip"] [lit "tmp"]
       [(lit "up.zip",
         FS.File (Some [(lit "nested_inner",
                         FS.Dir [(lit "x.pdf", FS.File None)]);
                        (lit "inner.zip", Sample.inner_zip)]))])
  = Some (Some 6).
Proof. vm_compute. reflexivity. Qed.

(** The whole pipeline on the sample bundle: three invoices of one
    employee. *)
Example process_invoices_sample :
  option_map
    (fun s => option_map (map (fun kv => (fst kv,
                count Helper.invoice_marker (snd kv))))
                (employee_invoice_data s))
    (Helper.process_invoices Latin.rt Sample.world 4
       {| md_text := Some (lit "policy");
          employee_invoice_data := None;
          state_extract_invoice_data := None |}
       [lit "bundle.zip"])
  = Some (Some [(lit "Asha", 3)]).
Proof. vm_compute. reflexivity. Qed.

(** * Further properties of the code *)

(** ** The field extractors *)

Lemma get_reimbursement_status_cases (invoice_text : str) :
  Helper.get_reimbursement_status invoice_text
  = match filter nonempty
            (map line_value
               (filter (contains (lit "**REIMBURSEMENT STATUS:**"))
                       (split 10 invoice_text))) with
    | status :: _ => status
    | [] =>
        match Helper.first_pattern Helper.status_patterns invoice_text with
        | Some status => status
        | None => Helper.pending_review
        end
    end.
Proof.
  unfold Helper.get_reimbursement_status.
  rewrite scan_lines_filter by (vm_compute; tauto).
  unfold bind, try_except.
  destruct (filter nonempty _); cbn [hd_error]; [|reflexivity].
  destruct (Helper.first_pattern Helper.status_patterns invoice_text);
    reflexivity.
Qed.

(** X1. [get_reimbursement_status] returns the value of the first line
    with the label [**REIMBURSEMENT STATUS:**] whose value (the text
    after the first colon of the line, without asterisks and surrounding
    white space) is not empty; when there is none, the first fallback
    pattern whose first match, stripped, has more than one character
    decides; and when there is none either, the result is
    [**Pending Review**], asterisks included. *)
Theorem get_reimbursement_status_spec (invoice_text : str) :
  Helper.get_reimbursement_status invoice_text
  = match filter nonempty
            (map line_value
               (filter (contains (lit "**REIMBURSEMENT STATUS:**"))
                       (split 10 invoice_text))) with
    | status :: _ => status
    | [] =>
        match Helper.first_pattern Helper.status_patterns invoice_text with
        | Some status => status
        | None => lit "**Pending Review**"
        end
    end.
Proof.
  unfold Helper.get_reimbursement_status.
  rewrite scan_lines_filter by (vm_compute; tauto).
  unfold bind, try_except.
  destruct (filter nonempty _); cbn [hd_error]; [|reflexivity].
  destruct (Helper.first_pattern Helper.status_patterns invoice_text);
    reflexivity.
Qed.

Lemma first_pattern_Some patterns text v :
  Helper.first_pattern patterns text = Some v ->
  nonempty v = true /\ longer_than_one v = true.
Proof.
  induction patterns as [|p ps IH]; simpl; [discriminate|].
  destruct (Re.findall p text) as [|m ms]; [exact IH|].
  destruct (nonempty (strip m) && longer_than_one (strip m)) eqn:E;
    [|exact IH].
  intros [= <-]. now apply andb_true_iff in E.
Qed.

Lemma filter_head_accepts (accept : str -> bool) (l : list str) v rest :
  filter accept l = v :: rest -> accept v = true.
Proof.
  intros H. assert (Hin : In v (filter accept l)) by (rewrite H; now left).
  now apply filter_In in Hin.
Qed.

Lemma get_employee_name_cases (invoice_text : str) :
  Helper.get_employee_name invoice_text
  = match filter Helper.accept_name
            (map line_value
               (filter (contains (lit "**EMPLOYEE NAME:**"))
                       (split 10 invoice_text))) with
    | name :: _ => name
    | [] =>
        match Helper.first_pattern Helper.name_patterns invoice_text with
        | Some name => name
        | None => Helper.no_information
        end
    end.
Proof.
  unfold Helper.get_employee_name.
  rewrite scan_lines_filter by (vm_compute; tauto).
  unfold bind, try_except.
  destruct (filter Helper.accept_name _); cbn [hd_error]; [|reflexivity].
  destruct (Helper.first_pattern Helper.name_patterns invoice_text);
    reflexivity.
Qed.

(** X2. Neither [get_employee_name] nor [get_reimbursement_status] ever
    returns the empty string. *)
Theorem extractors_never_empty (invoice_text : str) :
  Helper.get_employee_name invoice_text <> []
  /\ Helper.get_reimbursement_status invoice_text <> [].
Proof.
  split.
  - rewrite get_employee_name_cases.
    destruct (filter Helper.accept_name _) as [|v rest] eqn:E.
    + destruct (Helper.first_pattern _ _) as [v|] eqn:F; [|discriminate].
      apply first_pattern_Some in F. destruct F as [F _].
      intros ->. discriminate.
    + apply filter_head_accepts in E. unfold Helper.accept_name in E.
      apply andb_true_iff in E. destruct E as [E _].
      intros ->. discriminate.
  - rewrite get_reimbursement_status_cases.
    destruct (filter nonempty _) as [|v rest] eqn:E.
    + destruct (Helper.first_pattern _ _) as [v|] eqn:F; [|discriminate].
      apply first_pattern_Some in F. destruct F as [F _].
      intros ->. discriminate.
    + apply filter_head_accepts in E. intros ->. discriminate.
Qed.

(** ** What the fallback patterns capture *)

Lemma lstrip_head (s : str) :
  lstrip s = [] \/ exists c x, lstrip s = c :: x /\ isspace c = false.
Proof.
  induction s as [|c s IH]; simpl; [now left|].
  destruct (isspace c) eqn:E; [exact IH|]. right. eauto.
Qed.

Lemma lstrip_clean (c : char) (x : str) :
  isspace c = false -> lstrip (c :: x) = c :: x.
Proof. intros H. simpl. now rewrite H. Qed.

Lemma lstrip_idem (s : str) : lstrip (lstrip s) = lstrip s.
Proof.
  destruct (lstrip_head s) as [->|[c [x [-> H]]]]; [reflexivity|].
  now apply lstrip_clean.
Qed.

Lemma lstrip_snoc (l : str) (c : char) :
  isspace c = false -> exists y, lstrip (l ++ [c]) = y ++ [c].
Proof.
  intros H. induction l as [|a l IH]; simpl.
  - rewrite H. now exists [].
  - destruct (isspace a); [exact IH|]. now exists (a :: l).
Qed.

Lemma strip_idem (s : str) : strip (strip s) = strip s.
Proof.
  unfold strip.
  assert (Hl : lstrip (rstrip (lstrip s)) = rstrip (lstrip s)).
  { destruct (lstrip_head s) as [->|[c [x [-> H]]]]; [reflexivity|].
    unfold rstrip. simpl rev.
    destruct (@lstrip_snoc (rev x) c H) as [y ->].
    rewrite rev_app_distr. simpl. now rewrite H. }
  rewrite Hl. unfold rstrip. now rewrite rev_involutive, lstrip_idem.
Qed.

Lemma lstrip_Forall (P : char -> Prop) (s : str) :
  Forall P s -> Forall P (lstrip s).
Proof.
  induction 1 as [|c s Hc Hs IH]; simpl; [constructor|].
  destruct (isspace c); [exact IH | now constructor].
Qed.

Lemma strip_Forall (P : char -> Prop) (s : str) :
  Forall P s -> Forall P (strip s).
Proof.
  intros H. unfold strip, rstrip.
  apply Forall_rev, lstrip_Forall, Forall_rev, lstrip_Forall, H.
Qed.

(** Every match of [re.findall] is a match of the pattern somewhere. *)
Lemma finditer_from_In p s :
  forall skip prev m,
    In m (Re.finditer_from p skip prev s) ->
    exists prev' s', Re.match_atoms p prev' s' = Some m.
Proof.
  induction s as [|c s IH]; intros skip prev m H.
  - destruct skip; simpl in H; [|destruct H].
    destruct (Re.match_atoms p prev []) eqn:E; simpl in H; [|destruct H].
    destruct H as [<-|[]]. eauto.
  - destruct skip as [|k]; simpl in H; [|eauto].
    destruct (Re.match_atoms p prev (c :: s)) eqn:E; simpl in H; [|eauto].
    destruct H as [<-|H]; eauto.
Qed.

Lemma group_app g m0 m' :
  Re.group g (m0 ++ m') = Re.group g m0 ++ Re.group g m'.
Proof.
  unfold Re.group. now rewrite filter_app, map_app, concat_app.
Qed.

(** A literal of a pattern captures nothing. *)
Lemma Matches_literal (f : char -> char -> bool) (l : str) rest :
  forall prev s m,
    Matches (map (fun c => Re.one (f c)) l ++ rest) prev s m ->
    exists m0 m' prev' s',
      m = m0 ++ m' /\ Re.group 1 m0 = [] /\ Matches rest prev' s' m'.
Proof.
  induction l as [|c l IH]; intros prev s m H; simpl in H.
  - exists [], m, prev, s. auto.
  - unfold Re.one in H at 1. apply Matches_rep_inv in H.
    destruct H as [seg [r [m1 [-> [-> [_ [_ [_ H]]]]]]]].
    destruct (IH _ _ _ H) as [m0 [m' [prev' [s' [-> [Hg HM]]]]]].
    exists ((0, seg) :: m0), m', prev', s'. repeat split; auto.
Qed.

(** The group of a pattern [label[:\s]+(cls+)] is in the class and is
    not empty. *)
Lemma labelled_re_group label cls prev s m :
  Re.match_atoms (Helper.labelled_re label cls) prev s = Some m ->
  Forall (fun c => cls c = true) (Re.group 1 m) /\ Re.group 1 m <> [].
Proof.
  intros H. apply match_atoms_sound in H.
  unfold Helper.labelled_re, Re.lit_ci in H.
  apply Matches_literal in H.
  destruct H as [m0 [m' [prev' [s' [-> [Hg H]]]]]].
  apply Matches_rep_inv in H.
  destruct H as [seg1 [r1 [m1 [-> [-> [_ [_ [_ H]]]]]]]].
  apply Matches_rep_inv in H.
  destruct H as [seg2 [r2 [m2 [-> [-> [Hlo [_ [Hcls H]]]]]]]].
  inversion H; subst.
  rewrite group_app, Hg. unfold Re.group. simpl. rewrite app_nil_r.
  split; [exact Hcls|]. intros ->. simpl in Hlo. lia.
Qed.

Lemma findall_labelled label cls text g :
  In g (Re.findall (Helper.labelled_re label cls) text) ->
  Forall (fun c => cls c = true) g.
Proof.
  unfold Re.findall. intros H. apply in_map_iff in H.
  destruct H as [m [<- H]]. apply finditer_from_In in H.
  destruct H as [prev' [s' H]]. now apply labelled_re_group in H.
Qed.

Lemma first_pattern_shape cls patterns text v :
  labelled_patterns cls patterns ->
  Helper.first_pattern patterns text = Some v ->
  Forall (fun c => cls c = true) v /\ 2 <= length v /\ strip v = v.
Proof.
  induction 1 as [|p ps [label ->] Hps IH]; simpl; [discriminate|].
  destruct (Re.findall _ text) as [|m ms] eqn:F; [exact IH|].
  destruct (nonempty (strip m) && longer_than_one (strip m)) eqn:E;
    [|exact IH].
  intros [= <-]. apply andb_true_iff in E. destruct E as [_ E].
  unfold longer_than_one in E. apply Nat.ltb_lt in E.
  split; [|split; [lia | apply strip_idem]].
  apply strip_Forall. apply (@findall_labelled label cls text).
  rewrite F. now left.
Qed.

Lemma name_patterns_labelled :
  labelled_patterns Helper.alpha_space Helper.name_patterns.
Proof. repeat constructor; eexists; reflexivity. Qed.

Lemma status_patterns_labelled :
  labelled_patterns Helper.alpha_space_star Helper.status_patterns.
Proof. repeat constructor; eexists; reflexivity. Qed.

(** X3. When no line with the label gives a name, the name that
    [get_employee_name] returns is made of letters and white space only,
    has at least two characters and no white space at its ends: a digit
    or a punctuation mark ends the name that a fallback pattern
    captures. *)
Theorem fallback_name_shape (invoice_text : str) :
  filter Helper.accept_name
    (map line_value
       (filter (contains (lit "**EMPLOYEE NAME:**"))
               (split 10 invoice_text))) = [] ->
  Forall (fun c => Re.alpha_ci c || isspace c = true)
         (Helper.get_employee_name invoice_text)
  /\ 2 <= length (Helper.get_employee_name invoice_text)
  /\ strip (Helper.get_employee_name invoice_text)
     = Helper.get_employee_name invoice_text.
Proof.
  intros H. rewrite get_employee_name_cases, H.
  destruct (Helper.first_pattern _ _) as [v|] eqn:F.
  - exact (@first_pattern_shape _ _ _ _ name_patterns_labelled F).
  - split; [|split].
    + apply Forall_forall. intros c Hc. vm_compute in Hc.
      repeat (destruct Hc as [<-|Hc]; [reflexivity|]). destruct Hc.
    + vm_compute. lia.
    + vm_compute. reflexivity.
Qed.

Lemma fallback_name_shape_witness :
  filter Helper.accept_name
    (map line_value
       (filter (contains (lit "**EMPLOYEE NAME:**"))
               (split 10 (lit "Passenger: Mr O'Neil 12A")))) = []
  /\ Helper.get_employee_name (lit "Passenger: Mr O'Neil 12A") = lit "Mr O"
  /\ 2 <= length (Helper.get_employee_name (lit "Passenger: Mr O'Neil 12A")).
Proof.
  split; [reflexivity|]. split; [vm_compute; reflexivity|].
  apply (@fallback_name_shape (lit "Passenger: Mr O'Neil 12A")).
  reflexivity.
Defined.

(** X4. When no line with the label gives a status, the status that
    [get_reimbursement_status] returns is made of letters, white space
    and asterisks only, has at least two characters and no white space
    at its ends. *)
Theorem fallback_status_shape (invoice_text : str) :
  filter nonempty
    (map line_value
       (filter (contains (lit "**REIMBURSEMENT STATUS:**"))
               (split 10 invoice_text))) = [] ->
  Forall (fun c => Re.alpha_ci c || isspace c || char_eqb c 42 = true)
         (Helper.get_reimbursement_status invoice_text)
  /\ 2 <= length (Helper.get_reimbursement_status invoice_text)
  /\ strip (Helper.get_reimbursement_status invoice_text)
     = Helper.get_reimbursement_status invoice_text.
Proof.
  intros H. rewrite get_reimbursement_status_cases, H.
  destruct (Helper.first_pattern _ _) as [v|] eqn:F.
  - exact (@first_pattern_shape _ _ _ _ status_patterns_labelled F).
  - split; [|split].
    + apply Forall_forall. intros c Hc. vm_compute in Hc.
      repeat (destruct Hc as [<-|Hc]; [reflexivity|]). destruct Hc.
    + vm_compute. lia.
    + vm_compute. reflexivity.
Qed.

Lemma fallback_status_shape_witness :
  Helper.get_reimbursement_status (lit "Status: Fully Reimbursed (100%)")
  = lit "Fully Reimbursed"
  /\ 2 <= length (Helper.get_reimbursement_status
                    (lit "Status: Fully Reimbursed (100%)")).
Proof.
  split; [vm_compute; reflexivity|].
  apply (@fallback_status_shape (lit "Status: Fully Reimbursed (100%)")).
  reflexivity.
Defined.

(** ** The invoices of one employee *)

Lemma join_cons (sep x : str) (l : list str) :
  l <> [] -> join sep (x :: l) = x ++ sep ++ join sep l.
Proof. destruct l; [congruence | reflexivity]. Qed.

Lemma join_append (sep old x : str) (l : list str) :
  join sep ((old ++ sep ++ x) :: l) = join sep (old :: x :: l).
Proof.
  destruct l as [|y l]; [reflexivity|].
  rewrite !join_cons by discriminate. now rewrite <- !app_assoc.
Qed.

Section Grouping.

Variable Score : Type.
Variable W : world Score.

Lemma process_pdf_cases (state : State) (data : dict str) (pdf_path : path) :
  Helper.process_pdf W state data pdf_path
  = if nonempty (extracted W state pdf_path)
    then Helper.store_invoice data
           (Helper.get_employee_name (extracted W state pdf_path))
           (extracted W state pdf_path)
    else data.
Proof. reflexivity. Qed.

Lemma earlier_text_store (data : dict str) (name employee invoice : str) :
  earlier_text (Helper.store_invoice data employee invoice) name
  = if str_eqb employee name
    then match earlier_text data name with
         | [] => [invoice]
         | old :: _ => [old ++ Helper.invoice_separator ++ invoice]
         end
    else earlier_text data name.
Proof.
  unfold earlier_text, Helper.store_invoice.
  destruct (str_eqb employee name) eqn:E.
  - apply str_eqb_eq in E. subst employee.
    destruct (Dict.get name data); now rewrite get_set_same.
  - apply str_eqb_neq in E.
    destruct (Dict.get employee data);
      now rewrite get_set_other by congruence.
Qed.

Lemma process_pdfs_texts (state : State) (name : str)
  (pdf_files : list path) :
  forall data,
    match earlier_text (Helper.process_pdfs W state data pdf_files) name with
    | [] => earlier_text data name ++ invoices_of W state name pdf_files = []
    | text :: rest =>
        rest = []
        /\ text = join Helper.invoice_separator
                    (earlier_text data name
                     ++ invoices_of W state name pdf_files)
        /\ earlier_text data name ++ invoices_of W state name pdf_files
           <> []
    end.
Proof.
  unfold Helper.process_pdfs, invoices_of.
  induction pdf_files as [|p ps IH]; intros data.
  - simpl. rewrite app_nil_r. unfold earlier_text.
    destruct (Dict.get name data); auto.
    repeat split; discriminate.
  - cbn [fold_left map filter]. specialize (IH (Helper.process_pdf W state data p)).
    rewrite process_pdf_cases in *.
    destruct (nonempty (extracted W state p)) eqn:Hne; cbn [andb];
      [|exact IH].
    rewrite earlier_text_store in IH.
    destruct (str_eqb _ name) eqn:E; [|exact IH].
    set (l := filter _ (map _ ps)) in *.
    destruct (earlier_text (fold_left _ ps _) name) as [|text rest].
    + destruct (earlier_text data name); discriminate.
    + destruct IH as [-> [-> _]]. split; [reflexivity|].
      unfold earlier_text. destruct (Dict.get name data) as [old|].
      * split; [apply join_append | discriminate].
      * split; [reflexivity | discriminate].
Qed.

End Grouping.

(** X5. After the loop of [process_invoices] over the PDFs, the text
    stored for an employee is the text stored before, if any, and the
    texts extracted from the PDFs that are not empty and whose
    [get_employee_name] is that employee, in the order of the PDFs,
    joined by the separator; an employee with none of them has no
    entry. *)
Theorem process_pdfs_groups_by_employee (Score : Type) (W : world Score)
  (state : State) (data : dict str) (pdf_files : list path) (name : str) :
  Dict.get name (Helper.process_pdfs W state data pdf_files)
  = match earlier_text data name ++ invoices_of W state name pdf_files with
    | [] => None
    | texts => Some (join (nl ++ nl ++ lit "---" ++ nl ++ nl) texts)
    end.
Proof.
  pose proof (process_pdfs_texts W state name pdf_files data) as H.
  unfold earlier_text at 1 in H.
  destruct (Dict.get name (Helper.process_pdfs W state data pdf_files))
    as [text|].
  - destruct H as [_ [-> H]].
    destruct (earlier_text data name ++ _); [congruence | reflexivity].
  - now rewrite H.
Qed.

(** ** The number of invoices of an employee *)

Lemma startswith_length (p s : str) :
  startswith p s = true -> length p <= length s.
Proof.
  revert s. induction p as [|a p IH]; intros [|b s]; simpl;
    try discriminate; try lia.
  intros H. apply andb_true_iff in H. destruct H as [_ H].
  apply IH in H. lia.
Qed.

Lemma startswith_before (c : char) (sub : str) :
  ~ In c sub ->
  forall x y, startswith sub (x ++ c :: y) = startswith sub x.
Proof.
  induction sub as [|a sub IH]; intros Hc x y; [reflexivity|].
  destruct x as [|b x]; simpl.
  - destruct (char_eqb a c) eqn:E; [|reflexivity].
    apply char_eqb_eq in E. subst. exfalso. apply Hc. now left.
  - rewrite IH; [reflexivity|]. intros H. apply Hc. now right.
Qed.

(** An occurrence does not go across a character that the searched text
    does not have. *)
Lemma count_from_across (c : char) (sub : str) :
  ~ In c sub -> sub <> [] ->
  forall x skip y,
    skip <= length x ->
    count_from skip sub (x ++ c :: y)
    = count_from skip sub x + count_from 0 sub y.
Proof.
  intros Hc Hsub.
  induction x as [|a x IH]; intros skip y Hskip.
  - simpl in Hskip. assert (skip = 0) as -> by lia.
    cbn [app count_from].
    pose proof (@startswith_before c sub Hc [] y) as E.
    cbn [app] in E. rewrite E.
    destruct sub; [congruence | reflexivity].
  - destruct skip as [|k]; cbn [app count_from].
    + change (a :: x ++ c :: y) with ((a :: x) ++ c :: y).
      rewrite (@startswith_before c sub Hc (a :: x) y).
      destruct (startswith sub (a :: x)) eqn:E.
      * apply startswith_length in E. simpl in E.
        rewrite IH by lia. reflexivity.
      * apply IH. lia.
    + apply IH. simpl in Hskip. lia.
Qed.

Lemma count_marker_across (x y : str) :
  count Helper.invoice_marker (x ++ Helper.invoice_separator ++ y)
  = count Helper.invoice_marker x + count Helper.invoice_marker y.
Proof.
  assert (Hnl : ~ In (10 : char) Helper.invoice_marker).
  { vm_compute. intuition discriminate. }
  assert (Hne : Helper.invoice_marker <> []) by discriminate.
  change (count Helper.invoice_marker) with (count_from 0 Helper.invoice_marker).
  change (x ++ Helper.invoice_separator ++ y)
    with (x ++ 10%N :: ([] ++ 10%N :: (lit "---" ++ 10%N :: ([] ++ 10%N :: y)))).
  rewrite !(@count_from_across 10%N Helper.invoice_marker Hnl Hne) by (simpl; lia).
  change (count_from 0 Helper.invoice_marker (lit "---")) with 0.
  simpl. lia.
Qed.

Lemma count_marker_join (texts : list str) :
  count Helper.invoice_marker (join Helper.invoice_separator texts)
  = list_sum (map (count Helper.invoice_marker) texts).
Proof.
  induction texts as [|x [|y l] IH].
  - reflexivity.
  - simpl. lia.
  - rewrite join_cons by discriminate.
    rewrite count_marker_across, IH. reflexivity.
Qed.

Lemma process_pdf_wf (Score : Type) (W : world Score) (state : State)
  (data : dict str) (pdf_path : path) :
  Dict.wf data -> Dict.wf (Helper.process_pdf W state data pdf_path).
Proof.
  intros H. unfold Helper.process_pdf, Helper.store_invoice.
  destruct (nonempty _); [|exact H].
  destruct (Dict.get _ data); now apply set_wf.
Qed.

Lemma process_pdfs_wf (Score : Type) (W : world Score) (state : State)
  (pdf_files : list path) :
  forall data,
    Dict.wf data -> Dict.wf (Helper.process_pdfs W state data pdf_files).
Proof.
  unfold Helper.process_pdfs.
  induction pdf_files as [|p ps IH]; intros data H; [exact H|].
  simpl. apply IH. now apply process_pdf_wf.
Qed.

(** X6. The [invoice_count] that the summary has for an employee after
    the loop of [process_invoices] is the sum, over the text stored
    before and the texts extracted for that employee, of the number of
    markers [**INVOICE DETAILS:**] in each: the separator that joins the
    texts adds none and hides none. *)
Theorem invoice_count_is_sum_of_markers (R : runtime) (Score : Type)
  (W : world Score) (state : State) (data : dict str)
  (pdf_files : list path) (summary : dict summary_entry) (name : str)
  (entry : summary_entry) :
  Dict.wf data ->
  Helper.get_summary R W
    (Helper.with_invoice_data state
       (Helper.process_pdfs W state data pdf_files)) = Ok summary ->
  Dict.get name summary = Some entry ->
  invoice_count entry
  = list_sum (map (count (lit "**INVOICE DETAILS:**"))
                (earlier_text data name
                 ++ invoices_of W state name pdf_files)).
Proof.
  intros Hwf Hsum Hget. unfold Helper.get_summary in Hsum. simpl in Hsum.
  destruct (@summarize_all_entries R Score W _ _ _ Hsum _ _ Hget) as [[d [Hin Hc]]|Hold];
    [|discriminate].
  apply In_get in Hin; [|now apply process_pdfs_wf].
  pose proof (process_pdfs_texts W state name pdf_files data) as H.
  unfold earlier_text at 1 in H. rewrite Hin in H.
  destruct H as [_ [-> _]]. rewrite Hc. apply count_marker_join.
Qed.

Lemma invoice_count_is_sum_of_markers_witness :
  exists summary entry,
    Dict.wf (@nil (str * str))
    /\ Helper.get_summary Latin.rt Sample.world
         (Helper.with_invoice_data Sample.state
            (Helper.process_pdfs Sample.world Sample.state []
               [[lit "a.pdf"]; [lit "b.pdf"]])) = Ok summary
    /\ Dict.get (lit "Asha") summary = Some entry
    /\ invoice_count entry = 2.
Proof.
  assert (Hwf : Dict.wf (@nil (str * str))) by constructor.
  eexists. eexists.
  split; [exact Hwf|].
  split; [vm_compute; reflexivity|].
  split; [vm_compute; reflexivity|].
  change 2 with
    (list_sum (map (count (lit "**INVOICE DETAILS:**"))
                 (earlier_text [] (lit "Asha")
                  ++ invoices_of Sample.world Sample.state (lit "Asha")
                       [[lit "a.pdf"]; [lit "b.pdf"]]))).
  eapply (@invoice_count_is_sum_of_markers Latin.rt nat Sample.world
            Sample.state [] [[lit "a.pdf"]; [lit "b.pdf"]]).
  - exact Hwf.
  - vm_compute. reflexivity.
  - vm_compute. reflexivity.
Defined.

(** ** The entries of the summary *)

Section SummaryKeys.

Variable R : runtime.
Variable Score : Type.
Variable W : world Score.

Lemma summarize_all_key_list items :
  forall summary summary',
    NoDup (Dict.keys summary ++ Dict.keys items) ->
    Helper.summarize_all R W summary items = Ok summary' ->
    Dict.keys summary' = Dict.keys summary ++ Dict.keys items.
Proof.
  induction items as [|[k text] items IH]; simpl; intros summary summary' Hnd H.
  - inversion H; subst. now rewrite app_nil_r.
  - apply bind_Ok in H. destruct H as [s1 [H1 H2]].
    apply summarize_Ok in H1. destruct H1 as [e [-> _]].
    assert (Hk : Dict.keys (Dict.set k e summary) = Dict.keys summary ++ [k]).
    { rewrite keys_set. destruct (Dict.mem k summary) eqn:E; [|reflexivity].
      apply mem_keys in E. exfalso.
      apply NoDup_remove_2 in Hnd. apply Hnd.
      apply in_or_app. now left. }
    apply IH in H2.
    + rewrite H2, Hk, <- app_assoc. reflexivity.
    + rewrite Hk, <- app_assoc. exact Hnd.
Qed.

Lemma mapM_Ok A B (f : A -> result B) (l : list A) :
  (exists ys, mapM f l = Ok ys)
  <-> (forall x, In x l -> exists y, f x = Ok y).
Proof.
  induction l as [|a l IH]; simpl.
  - split; [intros _ x [] | eauto].
  - split.
    + intros [ys H]. apply bind_Ok in H. destruct H as [y [Hy H]].
      apply bind_Ok in H. destruct H as [ys' [Hys _]].
      intros x [<-|Hx]; [eauto|]. apply IH; eauto.
    + intros H. destruct (H a (or_introl eq_refl)) as [y Hy].
      destruct (proj2 IH (fun x Hx => H x (or_intror Hx))) as [ys Hys].
      exists (y :: ys). rewrite Hy, Hys. reflexivity.
Qed.

Lemma summarize_succeeds summary name text :
  (exists summary', Helper.summarize R W summary (name, text) = Ok summary')
  <-> (forall amount, In amount (amounts_of R text) ->
                      exists u, float_of R amount = Ok u).
Proof.
  unfold Helper.summarize, amounts_of.
  set (l := filter nonempty _).
  set (f := fun amt => float_of R (replace (lit ",") [] amt)).
  transitivity (exists ys, mapM f l = Ok ys).
  - destruct (mapM f l) as [ys|e]; simpl.
    + destruct (Helper.get_invoice_category_and_description R W text).
      split; eauto.
    + split; intros [? H]; discriminate.
  - rewrite mapM_Ok. split.
    + intros H amount Hin. apply in_map_iff in Hin.
      destruct Hin as [a [<- Ha]]. exact (H a Ha).
    + intros H a Ha. apply H. now apply in_map.
Qed.

Lemma summarize_all_succeeds items :
  forall summary,
    (exists summary', Helper.summarize_all R W summary items = Ok summary')
    <-> (forall name text amount,
           In (name, text) items -> In amount (amounts_of R text) ->
           exists u, float_of R amount = Ok u).
Proof.
  induction items as [|[k text] items IH]; intros summary;
    cbn [Helper.summarize_all].
  - split; [intros _ ? ? ? [] | eauto].
  - split.
    + intros [s' H]. apply bind_Ok in H. destruct H as [s1 [H1 H2]].
      intros name t amount [Heq|Hin] Ha.
      * inversion Heq; subst.
        eapply (proj1 (summarize_succeeds summary name t)); eauto.
      * eapply (proj1 (IH s1)); eauto.
    + intros H.
      destruct (proj2 (summarize_succeeds summary k text)) as [s1 H1].
      { intros amount Ha. eapply H; [left; reflexivity | exact Ha]. }
      rewrite H1. cbn [bind]. apply IH.
      intros name t amount Hin Ha. eapply H; [right; exact Hin | exact Ha].
Qed.

(** X7. The summary that [get_summary] returns has one entry for each
    key of [state["employee_invoice_data"]], in the same order, and no
    other: a key [Error] that [process_invoices] has stored is
    summarised as an employee. *)
Theorem get_summary_keys (state : State) (raw : dict str)
  (summary : dict summary_entry) :
  employee_invoice_data state = Some raw ->
  Dict.wf raw ->
  Helper.get_summary R W state = Ok summary ->
  Dict.keys summary = Dict.keys raw.
Proof.
  intros Hraw Hwf H. unfold Helper.get_summary in H. rewrite Hraw in H.
  now apply summarize_all_key_list in H.
Qed.

(** X8. [get_summary] returns a summary exactly when [float] accepts
    every amount that the pattern of the total amount captures in the
    texts, once its commas are removed; the model and the vector store
    have no part in it.  One amount that [float] refuses, in the text of
    one employee, leaves no summary for any employee. *)
Theorem get_summary_succeeds_iff (state : State) (raw : dict str) :
  employee_invoice_data state = Some raw ->
  (exists summary, Helper.get_summary R W state = Ok summary)
  <-> (forall name text amount,
         In (name, text) raw -> In amount (amounts_of R text) ->
         exists u, float_of R amount = Ok u).
Proof.
  intros Hraw. unfold Helper.get_summary. rewrite Hraw.
  apply summarize_all_succeeds.
Qed.

End SummaryKeys.

Lemma get_summary_keys_witness :
  exists summary,
    Helper.get_summary Latin.rt Sample.world Sample.state = Ok summary
    /\ Dict.keys summary = [lit "Asha"; lit "Error"].
Proof.
  eexists. split; [vm_compute; reflexivity|].
  change [lit "Asha"; lit "Error"]
    with (Dict.keys (Helper.initial_data Sample.state)).
  eapply (@get_summary_keys Latin.rt nat Sample.world Sample.state).
  - reflexivity.
  - repeat constructor; simpl; intuition discriminate.
  - vm_compute. reflexivity.
Defined.

Lemma get_summary_succeeds_iff_witness :
  employee_invoice_data Sample.comma_state
  = Some (Helper.initial_data Sample.comma_state)
  /\ ~ (exists summary,
          Helper.get_summary Latin.rt Sample.world Sample.comma_state
          = Ok summary).
Proof.
  split; [reflexivity|]. intros H.
  pose proof (proj1 (@get_summary_succeeds_iff Latin.rt nat Sample.world
                       Sample.comma_state
                       (Helper.initial_data Sample.comma_state)
                       eq_refl) H) as H'.
  destruct (H' (lit "Ravi") (lit "Total Amount: $,") []) as [u Hu].
  - right. left. reflexivity.
  - vm_compute. left. reflexivity.
  - vm_compute in Hu. discriminate.
Defined.

(** ** What the walker returns *)

Section WalkerPaths.

Variable R : runtime.

Lemma pdf_below_deeper (root : path) (d : str) (p : path) :
  pdf_below R (path_join root d) p -> pdf_below R root p.
Proof.
  intros [rel [file [-> H]]]. exists (d :: rel), file. split; [|exact H].
  unfold path_join. now rewrite <- app_assoc.
Qed.

Lemma scan_files_below extract root :
  (forall zp et t pdfs t',
      extract zp et t = Some (Ok (pdfs, t')) ->
      Forall (pdf_below R et) pdfs) ->
  forall files t pdfs t',
    Helper.scan_files R extract root files t = Some (Ok (pdfs, t')) ->
    Forall (pdf_below R root) pdfs.
Proof.
  intros Hex. induction files as [|file rest IH]; intros t pdfs t' H.
  - apply io_ret_Ok in H. destruct H as [-> _]. constructor.
  - cbn [Helper.scan_files] in H.
    destruct (Helper.is_pdf R file) eqn:Hp.
    + apply io_bind_Ok in H. destruct H as [l [t1 [H1 H2]]].
      apply io_ret_Ok in H2. destruct H2 as [-> _].
      constructor; [|eauto].
      exists [], file. split; [reflexivity | exact Hp].
    + destruct (Helper.is_zip R file); [|eauto].
      apply io_bind_Ok in H. destruct H as [[] [t1 [_ H]]].
      apply io_bind_Ok in H. destruct H as [nested [t2 [Hn H]]].
      apply io_bind_Ok in H. destruct H as [l [t3 [Hl H]]].
      apply io_ret_Ok in H. destruct H as [-> _].
      apply Forall_app. split; [|eauto].
      apply Hex in Hn. revert Hn. apply Forall_impl.
      intros p. apply pdf_below_deeper.
Qed.

Lemma walk_dirs_below walk root :
  (forall r t pdfs t',
      walk r t = Some (Ok (pdfs, t')) -> Forall (pdf_below R r) pdfs) ->
  forall dirs t pdfs t',
    Helper.walk_dirs walk root dirs t = Some (Ok (pdfs, t')) ->
    Forall (pdf_below R root) pdfs.
Proof.
  intros Hw. induction dirs as [|d rest IH]; intros t pdfs t' H.
  - apply io_ret_Ok in H. destruct H as [-> _]. constructor.
  - cbn [Helper.walk_dirs] in H.
    apply io_bind_Ok in H. destruct H as [l1 [t1 [H1 H]]].
    apply io_bind_Ok in H. destruct H as [l2 [t2 [H2 H]]].
    apply io_ret_Ok in H. destruct H as [-> _].
    apply Forall_app. split; [|eauto].
    apply Hw in H1. revert H1. apply Forall_impl.
    intros p. apply pdf_below_deeper.
Qed.

Lemma run_call_below fuel :
  forall c t pdfs t',
    Helper.run_call R fuel c t = Some (Ok (pdfs, t')) ->
    Forall (pdf_below R match c with
                        | Helper.Extract _ extract_to => extract_to
                        | Helper.Walk root => root
                        end) pdfs.
Proof.
  induction fuel as [|fuel IH]; intros c t pdfs t' H; [discriminate|].
  destruct c as [zip_path extract_to|root].
  - rewrite run_call_extract in H.
    destruct (FS.open_zip zip_path t) as [members|e]; [|discriminate].
    apply io_bind_Ok in H. destruct H as [[] [t1 [_ H]]].
    exact (IH _ _ _ _ H).
  - rewrite run_call_walk in H.
    destruct (FS.lookup root t) as [[z|entries]|].
    + apply io_ret_Ok in H. destruct H as [-> _]. constructor.
    + apply io_bind_Ok in H. destruct H as [l1 [t1 [H1 H]]].
      apply io_bind_Ok in H. destruct H as [l2 [t2 [H2 H]]].
      apply io_ret_Ok in H. destruct H as [-> _].
      apply Forall_app. split.
      * eapply scan_files_below; [|exact H1].
        intros zp et t0 pdfs0 t0' H0. exact (IH _ _ _ _ H0).
      * eapply walk_dirs_below; [|exact H2].
        intros r t0 pdfs0 t0' H0. exact (IH _ _ _ _ H0).
    + apply io_ret_Ok in H. destruct H as [-> _]. constructor.
Qed.

End WalkerPaths.

(** X9. Every path that [extract_zip_and_find_pdfs] returns is below the
    directory into which the archive is expanded, and its last
    component, in lower case, ends in [.pdf]; this holds whatever the
    archive contains and however deep its nested archives are. *)
Theorem walker_returns_pdfs_below (R : runtime) (fuel : nat)
  (zip_path extract_to : path) (t t' : FS.tree) (pdfs : list path) :
  Helper.extract_zip_and_find_pdfs R fuel zip_path extract_to t
  = Some (Ok (pdfs, t')) ->
  forall p, In p pdfs ->
    exists rel file,
      p = extract_to ++ rel ++ [file]
      /\ endswith (lit ".pdf") (lower R file) = true.
Proof.
  intros H p Hp.
  apply (@run_call_below R fuel (Helper.Extract zip_path extract_to)) in H.
  rewrite Forall_forall in H. exact (H p Hp).
Qed.

Lemma walker_returns_pdfs_below_witness :
  exists t' pdfs,
    Helper.extract_zip_and_find_pdfs Latin.rt 4 [lit "bundle.zip"]
      [lit "tmp"] Sample.staged = Some (Ok (pdfs, t'))
    /\ In [lit "tmp"; lit "nested_inner"; lit "c.pdf"] pdfs
    /\ exists rel file,
         [lit "tmp"; lit "nested_inner"; lit "c.pdf"]
         = [lit "tmp"] ++ rel ++ [file]
         /\ endswith (lit ".pdf") (lower Latin.rt file) = true.
Proof.
  eexists. eexists. split; [vm_compute; reflexivity|].
  split; [right; right; left; reflexivity|].
  eapply (@walker_returns_pdfs_below Latin.rt 4 [lit "bundle.zip"]
            [lit "tmp"] Sample.staged).
  - vm_compute. reflexivity.
  - right. right. left. reflexivity.
Defined.

(** ** Archives without nested archives *)


Section FlatArchives.

Variable R : runtime.
Hypothesis Hsd : scandir_ok R.





End FlatArchives.


(** ** A corrupt nested archive *)

Section Frame.

Variable R : runtime.

(** A change in the directory [p] leaves the files that are not below
    [p] as they are. *)
Lemma in_dir_frame p f :
  forall d (t t' : FS.tree) q a,
    FS.in_dir d p f t = Ok t' ->
    FS.lookup q t = Some (FS.File a) ->
    (forall r, q <> p ++ r) ->
    FS.lookup q t' = Some (FS.File a).
Proof.
  induction p as [|name p IH]; intros d t t' q a H Hl Hq.
  - exfalso. now apply (Hq q).
  - destruct q as [|k q]; [discriminate|].
    cbn [FS.in_dir] in H. cbn [FS.lookup] in Hl |- *.
    destruct (str_eqb k name) eqn:E.
    + apply str_eqb_eq in E. subst k.
      destruct (FS.find name t) as [[z|t0]|] eqn:Ef; [| |discriminate].
      { destruct p; discriminate. }
      destruct (FS.in_dir (path_join d name) p f t0) as [t0'|e] eqn:Ein;
        [|discriminate].
      inversion H; subst t'. rewrite find_put_same.
      apply (IH _ _ _ _ _ Ein Hl). intros r ->. now apply (Hq r).
    + apply str_eqb_neq in E.
      assert (Hput : forall n0, FS.find k (FS.put name n0 t) = FS.find k t).
      { intros n0. now apply find_put_other. }
      destruct (FS.find name t) as [[z|t0]|].
      * destruct p; discriminate.
      * destruct (FS.in_dir (path_join d name) p f t0); [|discriminate].
        inversion H; subst t'. now rewrite Hput.
      * destruct (FS.in_dir (path_join d name) p f []); [|discriminate].
        inversion H; subst t'. now rewrite Hput.
Qed.

(** A directory cannot be made where a file is. *)
Lemma in_dir_file p f :
  forall d (t : FS.tree) a,
    FS.lookup p t = Some (FS.File a) ->
    exists e, FS.in_dir d p f t = Raise e.
Proof.
  induction p as [|name p IH]; intros d t a Hl; [discriminate|].
  cbn [FS.lookup] in Hl. cbn [FS.in_dir].
  destruct (FS.find name t) as [[z|t0]|]; [| |discriminate].
  - destruct p; eauto.
  - destruct (IH (path_join d name) t0 a Hl) as [e ->]. simpl. eauto.
Qed.

(** The directory of a file, and its entry there. *)
Lemma lookup_file p k (t : FS.tree) a :
  FS.lookup (p ++ [k]) t = Some (FS.File a) ->
  exists es, FS.lookup p t = Some (FS.Dir es)
             /\ FS.find k es = Some (FS.File a).
Proof.
  revert t. induction p as [|name p IH]; intros t Hl.
  - exists t. split; [reflexivity|]. simpl in Hl.
    destruct (FS.find k t) as [[z|t0]|]; congruence.
  - cbn [app FS.lookup] in Hl |- *.
    destruct (FS.find name t) as [[z|t0]|]; [| |discriminate].
    + destruct p; discriminate.
    + now apply IH.
Qed.

(** The first directory on the way to a file. *)
Lemma lookup_folder d q (t : FS.tree) a :
  FS.lookup (d :: q) t = Some (FS.File a) -> q <> [] ->
  exists es, FS.find d t = Some (FS.Dir es).
Proof.
  cbn [FS.lookup]. intros Hl Hq.
  destruct (FS.find d t) as [[z|t0]|]; [| eauto | discriminate].
  destruct q; [congruence | discriminate].
Qed.

Lemma nested_name_not_plain file : plain (nested_name file) = false.
Proof. reflexivity. Qed.

(** What the walk of [root] and the expansion into [extract_to] leave
    as they are: the files that are not below them. *)
Lemma scan_files_frame extract root q a :
  (forall zp et t pdfs t',
      extract zp et t = Some (Ok (pdfs, t')) ->
      FS.lookup q t = Some (FS.File a) ->
      (forall r, q <> et ++ r) ->
      FS.lookup q t' = Some (FS.File a)) ->
  (forall file r, q <> Helper.nested_dir root file ++ r) ->
  forall files t pdfs t',
    Helper.scan_files R extract root files t = Some (Ok (pdfs, t')) ->
    FS.lookup q t = Some (FS.File a) ->
    FS.lookup q t' = Some (FS.File a).
Proof.
  intros He Hq. induction files as [|file rest IH]; intros t pdfs t' H Hl.
  - inversion H; subst. exact Hl.
  - cbn [Helper.scan_files] in H.
    destruct (Helper.is_pdf R file).
    + apply io_bind_Ok in H. destruct H as [pdfs1 [t1 [H1 H2]]].
      apply io_ret_Ok in H2. destruct H2 as [_ ->]. eauto.
    + destruct (Helper.is_zip R file); [|eauto].
      apply io_bind_Ok in H. destruct H as [[] [t1 [H1 H]]].
      apply io_bind_Ok in H. destruct H as [nested [t2 [H2 H]]].
      apply io_bind_Ok in H. destruct H as [pdfs3 [t3 [H3 H]]].
      apply io_ret_Ok in H. destruct H as [_ ->].
      unfold Helper.io_change in H1.
      destruct (FS.makedirs (Helper.nested_dir root file) t) as [t0|e]
        eqn:Emk; [|discriminate].
      inversion H1; subst t0.
      apply (IH _ _ _ H3). apply (He _ _ _ _ _ H2); [|apply Hq].
      exact (@in_dir_frame _ _ _ _ _ _ _ Emk Hl (Hq file)).
Qed.

Lemma walk_dirs_frame walk root q a :
  (forall d t pdfs t',
      walk (path_join root d) t = Some (Ok (pdfs, t')) ->
      FS.lookup q t = Some (FS.File a) ->
      FS.lookup q t' = Some (FS.File a)) ->
  forall dirs t pdfs t',
    Helper.walk_dirs walk root dirs t = Some (Ok (pdfs, t')) ->
    FS.lookup q t = Some (FS.File a) ->
    FS.lookup q t' = Some (FS.File a).
Proof.
  intros Hw. induction dirs as [|d rest IH]; intros t pdfs t' H Hl.
  - inversion H; subst. exact Hl.
  - cbn [Helper.walk_dirs] in H.
    apply io_bind_Ok in H. destruct H as [pdfs1 [t1 [H1 H]]].
    apply io_bind_Ok in H. destruct H as [pdfs2 [t2 [H2 H]]].
    apply io_ret_Ok in H. destruct H as [_ ->]. eauto.
Qed.

Lemma run_call_frame fuel :
  forall c t pdfs t' q a,
    Helper.run_call R fuel c t = Some (Ok (pdfs, t')) ->
    FS.lookup q t = Some (FS.File a) ->
    (forall r, q <> match c with
                    | Helper.Extract _ extract_to => extract_to
                    | Helper.Walk root => root
                    end ++ r) ->
    FS.lookup q t' = Some (FS.File a).
Proof.
  induction fuel as [|fuel IH]; intros c t pdfs t' q a H Hl Hq;
    [discriminate|].
  destruct c as [zp et|root].
  - rewrite run_call_extract in H.
    destruct (FS.open_zip zp t) as [ms|e]; [|discriminate].
    apply io_bind_Ok in H. destruct H as [[] [t1 [H1 H]]].
    unfold Helper.io_change in H1.
    destruct (FS.extractall ms et t) as [t0|e] eqn:Ex; [|discriminate].
    inversion H1; subst t0.
    apply (IH _ _ _ _ _ _ H); [|exact Hq].
    exact (@in_dir_frame _ _ _ _ _ _ _ Ex Hl Hq).
  - rewrite run_call_walk in H.
    assert (Hbelow : forall k r, q <> (root ++ [k]) ++ r).
    { intros k r E. apply (Hq (k :: r)). rewrite E.
      now rewrite <- app_assoc. }
    destruct (FS.lookup root t) as [[z|es]|];
      try (inversion H; subst; exact Hl).
    apply io_bind_Ok in H. destruct H as [pdfs1 [t1 [H1 H]]].
    apply io_bind_Ok in H. destruct H as [pdfs2 [t2 [H2 H]]].
    apply io_ret_Ok in H. destruct H as [_ ->].
    refine (@walk_dirs_frame _ root q a _ _ _ _ _ H2 _).
    + intros d t0 pdfs0 t0' H0 Hl0.
      apply (IH _ _ _ _ _ _ H0 Hl0). apply Hbelow.
    + refine (@scan_files_frame _ root q a _ _ _ _ _ _ H1 Hl).
      * intros zp et t0 pdfs0 t0' H0 Hl0 Hq0.
        exact (IH _ _ _ _ _ _ H0 Hl0 Hq0).
      * intros file. apply Hbelow.
Qed.

End Frame.

Section Corrupt.

Variable R : runtime.
Hypothesis Hsd : scandir_ok R.

Lemma not_below (root : path) (k k' : str) (rest : path) :
  k <> k' -> forall r, root ++ k :: rest <> (root ++ [k']) ++ r.
Proof.
  intros Hne r E. rewrite <- app_assoc in E. apply app_inv_head in E.
  inversion E. now apply Hne.
Qed.

(** The directory on the way to a file, and its entry there. *)
Lemma lookup_below p k q (t : FS.tree) a :
  FS.lookup (p ++ k :: q) t = Some (FS.File a) -> q <> [] ->
  exists es es_k, FS.lookup p t = Some (FS.Dir es)
                  /\ FS.find k es = Some (FS.Dir es_k).
Proof.
  revert t. induction p as [|name p IH]; intros t Hl Hq.
  - destruct (@lookup_folder k q t a Hl Hq) as [es_k Hk].
    exists t, es_k. split; [reflexivity | exact Hk].
  - cbn [app FS.lookup] in Hl |- *.
    destruct (FS.find name t) as [[z|t0]|]; [| |discriminate].
    + destruct p; discriminate.
    + now apply IH.
Qed.

Lemma listed_file root (es : FS.tree) name a :
  FS.find name es = Some (FS.File a) ->
  In name (FS.files (scandir R root es)).
Proof.
  intros Hf. apply find_In in Hf.
  apply (Permutation_in _ (Permutation_sym (Hsd root es))) in Hf.
  unfold FS.files. change name with (fst (name, FS.File a)).
  apply in_map. apply filter_In. split; [exact Hf | reflexivity].
Qed.

Lemma listed_dir root (es : FS.tree) name es' :
  FS.find name es = Some (FS.Dir es') ->
  In name (FS.dirs (scandir R root es)).
Proof.
  intros Hf. apply find_In in Hf.
  apply (Permutation_in _ (Permutation_sym (Hsd root es))) in Hf.
  unfold FS.dirs. change name with (fst (name, FS.Dir es')).
  apply in_map. apply filter_In. split; [exact Hf | reflexivity].
Qed.

(** The loop over the files of a directory in which one of them is a
    corrupt archive: it raises, at that file or before. *)
Lemma scan_files_corrupt fuel root z :
  expanded R z = true ->
  forall files,
    In z files ->
    forall t r,
      FS.lookup (root ++ [z]) t = Some (FS.File None) ->
      Helper.scan_files R
        (fun zp et => Helper.run_call R fuel (Helper.Extract zp et))
        root files t = Some r ->
      exists e, r = Raise e.
Proof.
  intros Hz. destruct (@expanded_cases R z Hz) as [Hpdf Hzip].
  assert (Hmk : forall file t t1,
             FS.makedirs (Helper.nested_dir root file) t = Ok t1 ->
             FS.lookup (root ++ [z]) t = Some (FS.File None) ->
             (forall r, root ++ [z] <> Helper.nested_dir root file ++ r)
             /\ FS.lookup (root ++ [z]) t1 = Some (FS.File None)).
  { intros file t t1 Emk Hl.
    assert (Hne : z <> nested_name file).
    { intros ->. rewrite nested_dir_path in Emk.
      destruct (@in_dir_file (root ++ [nested_name file])
                  (fun t' => Ok t') [] t None Hl) as [e He].
      unfold FS.makedirs in Emk. congruence. }
    split.
    - rewrite nested_dir_path. now apply not_below.
    - apply (@in_dir_frame _ _ _ _ _ _ _ Emk Hl).
      rewrite nested_dir_path. now apply not_below. }
  induction files as [|file rest IH]; intros Hin t r Hl H; [destruct Hin|].
  cbn [Helper.scan_files] in H.
  destruct (str_eqb file z) eqn:E.
  - apply str_eqb_eq in E. subst file. rewrite Hpdf, Hzip in H.
    apply io_bind_Some in H. destruct H as [r1 [H1 H]].
    unfold Helper.io_change in H1.
    destruct (FS.makedirs (Helper.nested_dir root z) t) as [t1|e] eqn:Emk;
      inversion H1; subst r1; [|eauto].
    destruct (Hmk _ _ _ Emk Hl) as [_ Hl1].
    apply io_bind_Some in H. destruct H as [r2 [H2 H]].
    destruct fuel as [|fuel]; [discriminate|].
    rewrite run_call_extract in H2. unfold FS.open_zip, path_join in H2.
    rewrite Hl1 in H2. inversion H2; subst r2. eauto.
  - apply str_eqb_neq in E.
    assert (Hin' : In z rest) by (destruct Hin; [congruence | assumption]).
    destruct (Helper.is_pdf R file).
    + apply io_bind_Some in H. destruct H as [r1 [H1 H]].
      destruct (IH Hin' _ _ Hl H1) as [e ->]. eauto.
    + destruct (Helper.is_zip R file); [|eauto].
      apply io_bind_Some in H. destruct H as [r1 [H1 H]].
      unfold Helper.io_change in H1.
      destruct (FS.makedirs (Helper.nested_dir root file) t) as [t1|e]
        eqn:Emk; inversion H1; subst r1; [|eauto].
      destruct (Hmk _ _ _ Emk Hl) as [Hq Hl1].
      apply io_bind_Some in H. destruct H as [r2 [H2 H]].
      destruct r2 as [[nested t2]|e]; [|eauto].
      pose proof (@run_call_frame R fuel
                    (Helper.Extract (path_join root file)
                       (Helper.nested_dir root file))
                    _ _ _ _ _ H2 Hl1 Hq) as Hl2.
      apply io_bind_Some in H. destruct H as [r3 [H3 H]].
      destruct (IH Hin' _ _ Hl2 H3) as [e ->]. eauto.
Qed.

(** The walk into the directories of a directory, one of which holds a
    corrupt archive on which the walk of it raises. *)
Lemma walk_dirs_corrupt walk root d q :
  (forall d0 t pdfs t',
      d0 <> d ->
      walk (path_join root d0) t = Some (Ok (pdfs, t')) ->
      FS.lookup q t = Some (FS.File None) ->
      FS.lookup q t' = Some (FS.File None)) ->
  (forall t r,
      FS.lookup q t = Some (FS.File None) ->
      walk (path_join root d) t = Some r -> exists e, r = Raise e) ->
  forall dirs,
    In d dirs ->
    forall t r,
      FS.lookup q t = Some (FS.File None) ->
      Helper.walk_dirs walk root dirs t = Some r ->
      exists e, r = Raise e.
Proof.
  intros Hframe Hrec.
  induction dirs as [|d0 rest IH]; intros Hin t r Hl H; [destruct Hin|].
  cbn [Helper.walk_dirs] in H.
  apply io_bind_Some in H. destruct H as [r1 [H1 H]].
  destruct (str_eqb d0 d) eqn:E.
  - apply str_eqb_eq in E. subst d0.
    destruct (Hrec _ _ Hl H1) as [e ->]. eauto.
  - apply str_eqb_neq in E.
    assert (Hin' : In d rest) by (destruct Hin; [congruence | assumption]).
    destruct r1 as [[pdfs1 t1]|e]; [|eauto].
    pose proof (Hframe _ _ _ _ E H1 Hl) as Hl1.
    apply io_bind_Some in H. destruct H as [r2 [H2 H]].
    destruct (IH Hin' _ _ Hl1 H2) as [e ->]. eauto.
Qed.

(** The walk of a directory below which, in folders that the walker has
    not made, a file is a corrupt archive: it raises. *)
Lemma walk_corrupt z :
  expanded R z = true ->
  forall folders,
    forallb plain folders = true ->
    forall fuel root t r,
      FS.lookup (root ++ folders ++ [z]) t = Some (FS.File None) ->
      Helper.run_call R fuel (Helper.Walk root) t = Some r ->
      exists e, r = Raise e.
Proof.
  intros Hz.
  induction folders as [|d ds IH]; intros Hplain fuel root t r Hl H;
    (destruct fuel as [|fuel]; [discriminate|]); rewrite run_call_walk in H.
  - cbn [app] in Hl.
    destruct (@lookup_file root z t None Hl) as [es [Hroot Hfind]].
    rewrite Hroot in H.
    apply io_bind_Some in H. destruct H as [r1 [H1 H]].
    destruct (@scan_files_corrupt fuel root z Hz _
                (@listed_file root es z None Hfind) _ _ Hl H1) as [e ->].
    eauto.
  - cbn [forallb] in Hplain. apply andb_true_iff in Hplain.
    destruct Hplain as [Hd Hds].
    cbn [app] in Hl.
    destruct (@lookup_below root d (ds ++ [z]) t None Hl)
      as [es [es_d [Hroot Hfind]]].
    { destruct ds; discriminate. }
    rewrite Hroot in H.
    apply io_bind_Some in H. destruct H as [r1 [H1 H]].
    destruct r1 as [[pdfs1 t1]|e]; [|eauto].
    assert (Hl1 : FS.lookup (root ++ d :: ds ++ [z]) t1
                  = Some (FS.File None)).
    { refine (@scan_files_frame R _ root _ None _ _ _ _ _ _ H1 Hl).
      - intros zp et t0 pdfs0 t0' H0 Hl0 Hq0.
        exact (@run_call_frame R fuel (Helper.Extract zp et)
                 _ _ _ _ _ H0 Hl0 Hq0).
      - intros file. rewrite nested_dir_path. apply not_below.
        intros ->. rewrite nested_name_not_plain in Hd. discriminate. }
    apply io_bind_Some in H. destruct H as [r2 [H2 H]].
    destruct (@walk_dirs_corrupt
                (fun r0 => Helper.run_call R fuel (Helper.Walk r0))
                root d (root ++ d :: ds ++ [z])) with (t := t1) (r := r2)
                (dirs := FS.dirs (scandir R root es))
      as [e ->]; auto.
    + intros d0 t0 pdfs0 t0' Hne H0 Hl0.
      refine (@run_call_frame R fuel (Helper.Walk (path_join root d0))
                _ _ _ _ _ H0 Hl0 _).
      apply not_below. congruence.
    + intros t0 r0 Hl0 H0.
      apply (IH Hds fuel (path_join root d) t0 r0); [|exact H0].
      unfold path_join. rewrite <- app_assoc. exact Hl0.
    + exact (@listed_dir root es d es_d Hfind).
    + eauto.
Qed.

Lemma walker_corrupt fuel zip_path extract_to (t members t1 : FS.tree)
  folders z :
  FS.open_zip zip_path t = Ok members ->
  FS.extractall members extract_to t = Ok t1 ->
  FS.lookup (extract_to ++ folders ++ [z]) t1 = Some (FS.File None) ->
  expanded R z = true ->
  forallb plain folders = true ->
  2 * height_tree t + 2 <= fuel ->
  exists e,
    Helper.extract_zip_and_find_pdfs R fuel zip_path extract_to t
    = Some (Raise e).
Proof.
  intros Hopen Hx Hl Hz Hplain Hfuel.
  destruct (@walker_settles R Hsd fuel zip_path extract_to t Hfuel)
    as [r Hr].
  rewrite Hr. unfold Helper.extract_zip_and_find_pdfs in Hr.
  destruct fuel as [|fuel]; [discriminate|].
  rewrite run_call_extract, Hopen in Hr.
  unfold Helper.io_bind at 1 in Hr. unfold Helper.io_change in Hr.
  rewrite Hx in Hr.
  destruct (@walk_corrupt z Hz folders Hplain fuel extract_to t1 r Hl Hr)
    as [e ->].
  eauto.
Qed.

End Corrupt.

Lemma with_temp_dir_walker_raises (R : runtime) (Score : Type)
  (W : world Score) (fuel : nat) (state : State) (data : dict str)
  (zip_path temp_dir : path) (t : FS.tree) (e : exn) :
  mkdtemp W = Ok temp_dir ->
  FS.makedirs temp_dir (disk W) = Ok t ->
  Helper.extract_zip_and_find_pdfs R fuel zip_path temp_dir t
  = Some (Raise e) ->
  exists e', Helper.with_temp_dir R W fuel state data zip_path
             = Some (data, Raise e').
Proof.
  intros Htmp Hmk Hwalk. unfold Helper.with_temp_dir. rewrite Htmp.
  unfold Helper.io_bind, Helper.io_change. rewrite Hmk, Hwalk.
  destruct (rmtree W); eauto.
Qed.

(** X11. The bundle is expanded into the temporary directory, the
    directory is listed in any order, and the fuel is enough.  When a
    file of the expanded bundle that the walker treats as a nested
    archive, its name ending in [.zip] and not in [.pdf], is not a
    well-formed archive, and lies beside the members of the bundle or in
    folders none of which bears a name that begins with [nested_],
    [process_invoices] stores no invoice at all, not even those of the
    PDFs that the bundle holds: the dictionary it returns is the one it
    started from, with the text of an exception under the key
    [Error]. *)
Theorem corrupt_nested_archive_loses_bundle (R : runtime) (Score : Type)
  (W : world Score) (fuel : nat) (state : State) (zip_path temp_dir : path)
  (t members t1 : FS.tree) (folders : list str) (z : str) :
  scandir_ok R ->
  mkdtemp W = Ok temp_dir ->
  FS.makedirs temp_dir (disk W) = Ok t ->
  FS.open_zip zip_path t = Ok members ->
  FS.extractall members temp_dir t = Ok t1 ->
  FS.lookup (temp_dir ++ folders ++ [z]) t1 = Some (FS.File None) ->
  expanded R z = true ->
  forallb plain folders = true ->
  2 * height_tree t + 2 <= fuel ->
  exists e,
    option_map employee_invoice_data
      (Helper.process_invoices R W fuel state zip_path)
    = Some (Some (Dict.set (lit "Error") e (Helper.initial_data state))).
Proof.
  intros Hsd Htmp Hmk Hopen Hx Hl Hz Hplain Hfuel.
  destruct (@walker_corrupt R Hsd fuel zip_path temp_dir t members t1
              folders z Hopen Hx Hl Hz Hplain Hfuel) as [e He].
  destruct (@with_temp_dir_walker_raises R Score W fuel state
              (Helper.initial_data state) zip_path temp_dir t e
              Htmp Hmk He) as [e' He'].
  exists e'. unfold Helper.process_invoices. rewrite He'. reflexivity.
Qed.

Lemma corrupt_nested_archive_loses_bundle_witness :
  exists e,
    option_map employee_invoice_data
      (Helper.process_invoices Latin.rt_reversed
         (Sample.world_of (Ok (lit "invoice")) (Ok (Sample.record_of "Asha"))
            [] Sample.corrupt_folder)
         8 Sample.comma_state [lit "bundle.zip"])
    = Some (Some (Dict.set (lit "Error") e
                    (Helper.initial_data Sample.comma_state))).
Proof.
  eapply (@corrupt_nested_archive_loses_bundle Latin.rt_reversed nat
            (Sample.world_of (Ok (lit "invoice"))
               (Ok (Sample.record_of "Asha")) [] Sample.corrupt_folder)
            8 Sample.comma_state [lit "bundle.zip"] [lit "tmp"]
            (Sample.corrupt_folder ++ [(lit "tmp", FS.Dir [])])
            _ _ [lit "docs"] (lit "bad.zip")).
  - exact rt_reversed_scandir_ok.
  - reflexivity.
  - reflexivity.
  - reflexivity.
  - reflexivity.
  - reflexivity.
  - reflexivity.
  - reflexivity.
  - vm_compute. lia.
Defined.

(** ** The walk ends *)

(** X12. On a file system in which the archives are nested finitely
    deep, so that no archive holds itself, and with no limit on the
    depth of the recursion, [extract_zip_and_find_pdfs] returns or
    raises, in whichever order the directories are listed: with fuel
    twice the depth of the file system, archives counted as directories,
    and two more, the walk is never out of fuel, and its outcome is the
    same for every such fuel. *)
Theorem walker_always_returns (R : runtime) zip_path extract_to
  (t : FS.tree) :
  scandir_ok R ->
  exists r,
    forall fuel,
      2 * height_tree t + 2 <= fuel ->
      Helper.extract_zip_and_find_pdfs R fuel zip_path extract_to t = Some r.
Proof.
  intros Hsd.
  destruct (@walker_settles R Hsd (2 * height_tree t + 2) zip_path
              extract_to t (le_n _)) as [r Hr].
  exists r. intros fuel Hfuel.
  exact (@extract_zip_more_fuel R _ _ _ _ _ _ Hfuel Hr).
Qed.

Lemma walker_always_returns_witness :
  exists r,
    forall fuel,
      2 * height_tree Sample.foldered + 2 <= fuel ->
      Helper.extract_zip_and_find_pdfs Latin.rt_reversed fuel
        [lit "bundle.zip"] [lit "tmp"] Sample.foldered = Some r.
Proof.
  apply (@walker_always_returns Latin.rt_reversed [lit "bundle.zip"]
           [lit "tmp"] Sample.foldered).
  exact rt_reversed_scandir_ok.
Defined.

(** ** The policy document *)

Lemma blank_test (md : str) :
  negb (nonempty md) || str_eqb (strip md) [] = true <-> strip md = [].
Proof.
  rewrite orb_true_iff, str_eqb_eq. split; [|now right].
  intros [H|H]; [|exact H]. destruct md; [reflexivity | discriminate].
Qed.

(** X14. [extract_hr_policy_from_pdf] raises only what making the model
    client raises.  Otherwise it returns the state with [md_text] set
    and the other keys as they were: to the text of the PDF when that
    has a character other than white space, without asking the model;
    to the answers of the model for the pages, joined by an empty line,
    when the text is blank; and to the empty string when the reader, the
    renderer or the model raises. *)
Theorem policy_extraction_outcome (Score : Type) (W : world Score)
  (state : State) (pdf_path : path) :
  match Helper.extract_hr_policy_from_pdf W state pdf_path with
  | Raise e => new_llm W = Raise e
  | Ok state' =>
      employee_invoice_data state' = employee_invoice_data state
      /\ state_extract_invoice_data state' = state_extract_invoice_data state
      /\ exists text,
           md_text state' = Some text
           /\ (forall md, to_markdown W pdf_path = Ok md ->
                          strip md <> [] -> text = md)
           /\ (forall e, to_markdown W pdf_path = Raise e -> text = [])
           /\ (forall md, to_markdown W pdf_path = Ok md -> strip md = [] ->
                 match fitz_open W pdf_path with
                 | Ok pages =>
                     match mapM (Helper.policy_page W) pages with
                     | Ok answers => text = join (nl ++ nl) answers
                     | Raise _ => text = []
                     end
                 | Raise _ => text = []
                 end)
  end.
Proof.
  unfold Helper.extract_hr_policy_from_pdf.
  destruct (new_llm W) as [[]|e]; cbn [bind]; [|reflexivity].
  split; [reflexivity|]. split; [reflexivity|].
  eexists. split; [reflexivity|].
  unfold Helper.extract_hr_policy_body.
  destruct (to_markdown W pdf_path) as [md|e]; cbn [bind].
  - destruct (negb (nonempty md) || str_eqb (strip md) []) eqn:B.
    + apply blank_test in B. split; [|split].
      * intros md' [= <-] H. contradiction.
      * discriminate.
      * intros md' _ _.
        destruct (fitz_open W pdf_path) as [pages|e]; cbn [bind];
          [|reflexivity].
        destruct (mapM (Helper.policy_page W) pages); reflexivity.
    + assert (Hmd : strip md <> []).
      { intros H. apply blank_test in H. congruence. }
      split; [|split].
      * intros md' [= <-] _. reflexivity.
      * discriminate.
      * intros md' [= <-] H. contradiction.
  - split; [|split].
    + discriminate.
    + reflexivity.
    + discriminate.
Qed.

(** ** The description of an invoice *)

Lemma rev_cases A (l : list A) : l = [] \/ exists m x, l = m ++ [x].
Proof.
  induction l as [|a l IH] using rev_ind; [now left | right; eauto].
Qed.

(** [s[1:-1]] of a string between two quotes. *)
Lemma strip_ends_quoted (q : char) (s : str) :
  startswith [q] s = true -> endswith [q] s = true ->
  (s = [q] /\ strip_ends s = [])
  \/ s = [q] ++ strip_ends s ++ [q].
Proof.
  unfold endswith. intros Hs He.
  destruct s as [|c s]; [discriminate|].
  simpl in Hs. rewrite andb_true_r in Hs. apply char_eqb_eq in Hs. subst c.
  destruct (rev_cases s) as [->|[m [x ->]]]; [left; split; reflexivity|].
  right. change (rev [q]) with [q] in He.
  change (q :: m ++ [x]) with ((q :: m) ++ [x]) in He.
  rewrite rev_app_distr in He. simpl in He.
  rewrite andb_true_r in He. apply char_eqb_eq in He. subst x.
  unfold strip_ends, drop_last. cbn [tl].
  rewrite length_app. simpl length.
  replace (length m + 1 - 1) with (length m + 0) by lia.
  rewrite firstn_app_2. simpl. now rewrite app_nil_r.
Qed.

(** X15. [generate_description_with_llm] raises nothing.  When the model
    answers, the description is the answer without surrounding white
    space, and without its first and its last character when these are
    double quotes: an answer that is one double quote gives the empty
    description.  When the model client or the model raises, the
    description is the text of the exception between
    [Invoice total with basic details (Error: ] and [)]. *)
Theorem description_outcome (Score : Type) (W : world Score)
  (invoice_data category : str) :
  let asked :=
    _ <- new_llm W ;;
    llm_invoke W (Text (Helper.description_prompt category ++ invoice_data)) in
  let description :=
    Helper.generate_description_with_llm W invoice_data category in
  match asked with
  | Ok content =>
      if startswith Prompt.dquote (strip content)
         && endswith Prompt.dquote (strip content)
      then (strip content = Prompt.dquote /\ description = [])
           \/ strip content
              = Prompt.dquote ++ description ++ Prompt.dquote
      else description = strip content
  | Raise e =>
      description
      = lit "Invoice total with basic details (Error: " ++ e ++ lit ")"
  end.
Proof.
  cbv zeta. unfold Helper.generate_description_with_llm.
  destruct (new_llm W) as [[]|e]; cbn [bind try_except]; [|reflexivity].
  destruct (llm_invoke W _) as [content|e]; cbn [bind try_except];
    [|reflexivity].
  destruct (startswith Prompt.dquote (strip content)) eqn:Hs;
    [|reflexivity].
  destruct (endswith Prompt.dquote (strip content)) eqn:He;
    [|reflexivity].
  cbn [andb try_except].
  exact (strip_ends_quoted _ _ Hs He).
Qed.

(** ** The endpoints that read the summary *)

Section Endpoints.

Variable R : runtime.
Variable Score : Type.
Variable W : world Score.
Variable http_str : nat -> str -> str.

Lemma find_employee_first (employee_name : str)
  (items : dict summary_entry) :
  match App.find_employee R employee_name items with
  | Some found =>
      exists before after,
        items = before ++ found :: after
        /\ lower R (fst found) = lower R employee_name
        /\ forall e, In e before ->
                     lower R (fst e) <> lower R employee_name
  | None =>
      forall e, In e items -> lower R (fst e) <> lower R employee_name
  end.
Proof.
  induction items as [|[name data] items IH]; simpl.
  - intros e [].
  - destruct (str_eqb (lower R name) (lower R employee_name)) eqn:E.
    + apply str_eqb_eq in E. exists [], items.
      split; [reflexivity|]. split; [exact E|]. intros e [].
    + apply str_eqb_neq in E.
      destruct (App.find_employee R employee_name items) as [found|].
      * destruct IH as [before [after [-> [Hl Hb]]]].
        exists ((name, data) :: before), after.
        split; [reflexivity|]. split; [exact Hl|].
        intros e [<-|He]; [exact E | now apply Hb].
      * intros e [<-|He]; [exact E | now apply IH].
Qed.

(** X16. Once a summary is there, [get_employee_details] answers with
    status 200 and the first entry of the summary whose name equals the
    requested name when both are put in lower case, which need not be
    the entry under the requested name itself; it answers with status
    404 exactly when no name of the summary equals the requested one in
    lower case. *)
Theorem get_employee_details_first_match (global_state : State)
  (employee_name : str) :
  App.no_summary global_state = false ->
  match App.get_employee_details R global_state employee_name with
  | App.Json status_code found =>
      status_code = 200
      /\ exists before after,
           App.summary_of global_state = before ++ found :: after
           /\ lower R (fst found) = lower R employee_name
           /\ forall e, In e before ->
                        lower R (fst e) <> lower R employee_name
  | App.HTTPError status_code detail =>
      status_code = 404
      /\ detail = lit "Employee '" ++ employee_name ++ lit "' not found"
      /\ forall e, In e (App.summary_of global_state) ->
                   lower R (fst e) <> lower R employee_name
  end.
Proof.
  intros H. unfold App.get_employee_details, App.get_employee_details_body.
  rewrite H.
  pose proof (find_employee_first employee_name
                (App.summary_of global_state)) as F.
  destruct (App.find_employee R employee_name _) as [found|]; auto.
Qed.

Lemma no_data_replies (global_state : State) (employee_name query : str) :
  App.no_summary global_state = true ->
  App.query_employee W http_str global_state employee_name query
  = App.HTTPError 500
      (lit "Error processing query: " ++ http_str 400 App.no_data)
  /\ App.get_employee_details R global_state employee_name
     = App.HTTPError 400 App.no_data.
Proof.
  intros H. unfold App.query_employee, App.query_employee_body,
    App.get_employee_details, App.get_employee_details_body.
  rewrite H. split; reflexivity.
Qed.

Lemma query_employee_status (global_state : State)
  (employee_name query : str) :
  status_of (App.query_employee W http_str global_state employee_name query)
  = 200
  \/ status_of
       (App.query_employee W http_str global_state employee_name query)
     = 500.
Proof.
  unfold App.query_employee, App.query_employee_body.
  destruct (App.no_summary global_state); [now right|].
  destruct (Store.answer_query_for_employee W employee_name query 5);
    [now left | now right].
Qed.

End Endpoints.

Lemma get_employee_details_first_match_witness :
  App.get_employee_details Latin.rt Sample.served (lit "Asha")
  = App.Json 200 (lit "asha", Sample.entry_of 2)
  /\ exists before after,
       App.summary_of Sample.served
       = before ++ (lit "asha", Sample.entry_of 2) :: after
       /\ lower Latin.rt (lit "asha") = lower Latin.rt (lit "Asha")
       /\ forall e, In e before ->
                    lower Latin.rt (fst e) <> lower Latin.rt (lit "Asha").
Proof.
  split; [reflexivity|].
  pose proof (@get_employee_details_first_match Latin.rt Sample.served
                (lit "Asha") eq_refl) as H.
  change (App.get_employee_details Latin.rt Sample.served (lit "Asha"))
    with (App.Json 200 (lit "asha", Sample.entry_of 2)) in H.
  exact (proj2 H).
Defined.

(** X17. Before any summary is there, [query_employee] answers with
    status 500, the text of the exception of status 400 being part of
    the detail, while [get_employee_details] answers with status 400;
    and [query_employee] answers with no status other than 200 and
    500. *)
Theorem query_employee_hides_400 (R : runtime) (Score : Type)
  (W : world Score) (http_str : nat -> str -> str) (global_state : State)
  (employee_name query : str) :
  App.no_summary global_state = true ->
  App.query_employee W http_str global_state employee_name query
  = App.HTTPError 500
      (lit "Error processing query: "
       ++ http_str 400
            (lit "No data available. Please analyze invoices first using /analyze_invoices endpoint"))
  /\ App.get_employee_details R global_state employee_name
     = App.HTTPError 400
         (lit "No data available. Please analyze invoices first using /analyze_invoices endpoint")
  /\ forall other_state,
       status_of (App.query_employee W http_str other_state employee_name
                    query) = 200
       \/ status_of (App.query_employee W http_str other_state employee_name
                       query) = 500.
Proof.
  intros H.
  destruct (@no_data_replies R Score W http_str global_state employee_name
              query H) as [H1 H2].
  split; [exact H1|]. split; [exact H2|].
  intros other_state. apply query_employee_status.
Qed.

Lemma query_employee_hides_400_witness :
  status_of (App.query_employee Sample.world (fun _ detail => detail)
               Sample.state (lit "Asha") (lit "total?")) = 500
  /\ status_of (App.get_employee_details Latin.rt Sample.state (lit "Asha"))
     = 400.
Proof.
  destruct (@query_employee_hides_400 Latin.rt nat Sample.world
              (fun _ detail => detail) Sample.state (lit "Asha")
              (lit "total?") eq_refl) as [H1 [H2 _]].
  rewrite H1, H2. split; reflexivity.
Defined.

Lemma find_employee_none (R : runtime) (employee_name : str)
  (items : dict summary_entry) :
  (forall e, In e items -> lower R (fst e) <> lower R employee_name) ->
  App.find_employee R employee_name items = None.
Proof.
  induction items as [|[name data] items IH]; intros H; [reflexivity|].
  simpl. destruct (str_eqb (lower R name) (lower R employee_name)) eqn:E.
  - apply str_eqb_eq in E. exfalso.
    exact (H (name, data) (or_introl eq_refl) E).
  - apply IH. intros e He. apply H. now right.
Qed.

(** X18. For an employee that neither the summary nor the vector store
    knows, [query_employee] answers with status 200 and the text
    [No data found for employee: ] followed by the name, while
    [get_employee_details] answers with status 404. *)
Theorem unknown_employee_replies (R : runtime) (Score : Type)
  (W : world Score) (http_str : nat -> str -> str) (global_state : State)
  (employee_name query : str) :
  App.no_summary global_state = false ->
  (forall e, In e (App.summary_of global_state) ->
             lower R (fst e) <> lower R employee_name) ->
  new_llm W = Ok tt ->
  similarity_search_with_score W (lit "employee record") 5 employee_name
  = Ok [] ->
  App.query_employee W http_str global_state employee_name query
  = App.Json 200
      {| App.answer_employee_name := employee_name;
         App.answer_query := query;
         App.answer := lit "No data found for employee: " ++ employee_name |}
  /\ App.get_employee_details R global_state employee_name
     = App.HTTPError 404
         (lit "Employee '" ++ employee_name ++ lit "' not found").
Proof.
  intros Hsum Hnone Hllm Hsearch. split.
  - unfold App.query_employee, App.query_employee_body. rewrite Hsum.
    unfold Store.answer_query_for_employee, Store.search_by_employee_name.
    rewrite Hllm. cbn [bind]. rewrite Hsearch. reflexivity.
  - unfold App.get_employee_details, App.get_employee_details_body.
    rewrite Hsum, (@find_employee_none R employee_name _ Hnone).
    reflexivity.
Qed.

Lemma unknown_employee_replies_witness :
  status_of (App.query_employee Sample.world (fun _ detail => detail)
               Sample.served (lit "Meera") (lit "total?")) = 200
  /\ status_of (App.get_employee_details Latin.rt Sample.served (lit "Meera"))
     = 404.
Proof.
  destruct (@unknown_employee_replies Latin.rt nat Sample.world
              (fun _ detail => detail) Sample.served (lit "Meera")
              (lit "total?")) as [H1 H2].
  - reflexivity.
  - intros e H. simpl in H.
    repeat (destruct H as [<-|H]; [vm_compute; discriminate|]). destruct H.
  - reflexivity.
  - reflexivity.
  - rewrite H1, H2. split; reflexivity.
Defined.

(** ** The endpoint that analyses the invoices *)

Section Analyze.

Variable R : runtime.
Variable Score : Type.
Variable W : world Score.
Variable http_str : nat -> str -> str.
Variable process_employees_to_pinecone : dict summary_entry -> result unit.
Variable unlink : path -> result unit.

Lemma with_temp_dir_wf (fuel : nat) (state : State) (data data' : dict str)
  (zip_path : path) (r : result unit) :
  Dict.wf data ->
  Helper.with_temp_dir R W fuel state data zip_path = Some (data', r) ->
  Dict.wf data'.
Proof.
  intros Hwf H. unfold Helper.with_temp_dir in H.
  destruct (mkdtemp W); [|inversion H; subst; exact Hwf].
  destruct (Helper.io_bind _ _ _) as [[[pdfs t]|e]|]; inversion H; subst.
  - now apply process_pdfs_wf.
  - exact Hwf.
Qed.

Lemma process_invoices_wf (fuel : nat) (state state' : State)
  (zip_path : path) :
  Dict.wf (Helper.initial_data state) ->
  Helper.process_invoices R W fuel state zip_path = Some state' ->
  exists data,
    employee_invoice_data state' = Some data /\ Dict.wf data.
Proof.
  intros Hwf H. unfold Helper.process_invoices in H.
  destruct (Helper.with_temp_dir R W fuel state _ zip_path)
    as [[data' r]|] eqn:E; [|discriminate].
  apply with_temp_dir_wf in E; [|exact Hwf].
  destruct r; inversion H; subst; eexists; (split; [reflexivity|]).
  - exact E.
  - now apply set_wf.
Qed.

Lemma policy_keeps_invoices (state state' : State) (pdf_path : path) :
  Helper.extract_hr_policy_from_pdf W state pdf_path = Ok state' ->
  employee_invoice_data state' = employee_invoice_data state.
Proof.
  unfold Helper.extract_hr_policy_from_pdf.
  destruct (new_llm W); cbn [bind]; [|discriminate].
  intros [= <-]. reflexivity.
Qed.

Lemma analyze_steps_success (fuel : nat) (hr_temp_path zip_temp_path : path)
  (state : State) (status_code : nat) (content : App.analysis) :
  App.analyze_steps R W process_employees_to_pinecone fuel hr_temp_path
    zip_temp_path = Some (state, inl (App.Json status_code content)) ->
  status_code = 200
  /\ state_extract_invoice_data state = Some (App.analysis_summary content)
  /\ App.employees_processed content
     = Dict.keys (App.analysis_summary content)
  /\ App.total_employees content = length (App.employees_processed content)
  /\ exists data,
       employee_invoice_data state = Some data
       /\ Dict.keys data = App.employees_processed content.
Proof.
  unfold App.analyze_steps. intros H.
  destruct (Helper.extract_hr_policy_from_pdf W App.reset_state hr_temp_path)
    as [state1|e] eqn:E1; [|discriminate].
  apply policy_keeps_invoices in E1.
  destruct (Helper.process_invoices R W fuel state1 zip_temp_path)
    as [state2|] eqn:E2; [|discriminate].
  apply process_invoices_wf in E2;
    [|unfold Helper.initial_data; rewrite E1; constructor].
  destruct E2 as [data [Hdata Hwf]].
  destruct (Helper.get_summary R W state2) as [summary|e] eqn:E3;
    [|discriminate].
  assert (Hkeys : Dict.keys summary = Dict.keys data).
  { unfold Helper.get_summary in E3. rewrite Hdata in E3.
    now apply summarize_all_key_list in E3. }
  destruct (match summary with
            | [] => Ok tt
            | _ :: _ => process_employees_to_pinecone summary
            end); [|discriminate].
  inversion H; subst. cbn.
  split; [reflexivity|]. split; [reflexivity|]. split; [reflexivity|].
  split; [unfold Dict.keys; now rewrite length_map|].
  exists data. split; [exact Hdata | now symmetry].
Qed.

Lemma analyze_invoices_success (fuel : nat)
  (hr_policy invoices_zip : App.upload)
  (state : State) (status_code : nat) (content : App.analysis) :
  App.analyze_invoices R W http_str process_employees_to_pinecone unlink fuel
    hr_policy invoices_zip = Some (state, App.Json status_code content) ->
  exists hr_temp_path zip_temp_path,
    App.analyze_steps R W process_employees_to_pinecone fuel hr_temp_path
      zip_temp_path = Some (state, inl (App.Json status_code content)).
Proof.
  unfold App.analyze_invoices, App.analyze_invoices_body. intros H.
  destruct (App.check_suffix R _ _ hr_policy); [|discriminate].
  destruct (App.check_suffix R _ _ invoices_zip); [|discriminate].
  destruct (App.saved hr_policy) as [hr_temp_path|]; [|discriminate].
  destruct (App.saved invoices_zip) as [zip_temp_path|]; [|discriminate].
  exists hr_temp_path, zip_temp_path.
  destruct (App.analyze_steps _ _ _ _ _ _) as [[st r]|]; [|discriminate].
  unfold App.cleanup in H.
  destruct (unlink hr_temp_path); [|discriminate].
  destruct (unlink zip_temp_path); [|discriminate].
  destruct r as [r|f]; [|discriminate].
  inversion H; subst. reflexivity.
Qed.

(** X19. When [analyze_invoices] replies with a JSON response, its
    status is 200, the summary of the reply is the one kept in the
    global state, [employees_processed] lists the keys of the summary
    and [total_employees] counts them, and these keys are the keys of
    [employee_invoice_data] in the global state, in the same order: the
    key [Error] that [process_invoices] stores is reported as an
    employee. *)
Theorem analyze_invoices_reply (fuel : nat)
  (hr_policy invoices_zip : App.upload)
  (state : State) (status_code : nat) (content : App.analysis) :
  App.analyze_invoices R W http_str process_employees_to_pinecone unlink fuel
    hr_policy invoices_zip = Some (state, App.Json status_code content) ->
  status_code = 200
  /\ state_extract_invoice_data state = Some (App.analysis_summary content)
  /\ App.employees_processed content
     = Dict.keys (App.analysis_summary content)
  /\ App.total_employees content = length (App.employees_processed content)
  /\ exists data,
       employee_invoice_data state = Some data
       /\ Dict.keys data = App.employees_processed content.
Proof.
  intros H. apply analyze_invoices_success in H.
  destruct H as [hr_temp_path [zip_temp_path H]].
  exact (analyze_steps_success _ _ _ H).
Qed.

(** X20. A request whose policy file is not named as a PDF, or whose
    bundle is not named as a ZIP archive, is answered with status 500,
    the text of the exception of status 400 being part of the detail,
    and leaves the global state reset: the results of an earlier
    analysis are gone, and [get_employee_details] answers that no data is
    available. *)
Theorem analyze_invoices_rejects (fuel : nat)
  (hr_policy invoices_zip : App.upload) (hr_name zip_name employee : str) :
  App.filename hr_policy = Some hr_name ->
  App.filename invoices_zip = Some zip_name ->
  endswith (lit ".pdf") (lower R hr_name)
  && endswith (lit ".zip") (lower R zip_name) = false ->
  exists detail,
    App.analyze_invoices R W http_str process_employees_to_pinecone unlink
      fuel hr_policy invoices_zip
    = Some (App.reset_state,
            App.HTTPError 500
              (lit "Error processing invoices: " ++ http_str 400 detail))
    /\ (detail = lit "HR policy must be a PDF file"
        \/ detail = lit "Invoices must be in ZIP format")
    /\ App.get_employee_details R App.reset_state employee
       = App.HTTPError 400 App.no_data.
Proof.
  intros Hhr Hzip Hbad.
  unfold App.analyze_invoices, App.analyze_invoices_body, App.check_suffix.
  rewrite Hhr, Hzip.
  destruct (endswith (lit ".pdf") (lower R hr_name)).
  - simpl in Hbad. rewrite Hbad.
    eexists. split; [reflexivity|]. split; [now right | reflexivity].
  - eexists. split; [reflexivity|]. split; [now left | reflexivity].
Qed.

(** X21. A bundle that is not a ZIP archive at all is reported as a
    success: when the model client, the temporary directory, the vector
    store and the removal of the temporary files do not fail,
    [analyze_invoices] replies with status 200 and one employee, named
    [Error], with no invoice, the category [other] and the status
    [**Pending Review**]. *)
Theorem analyze_invoices_corrupt_bundle (fuel : nat)
  (hr_policy invoices_zip : App.upload) (hr_name zip_name : str)
  (hr_temp_path zip_temp_path temp_dir : path) (t : FS.tree) :
  App.filename hr_policy = Some hr_name ->
  App.filename invoices_zip = Some zip_name ->
  endswith (lit ".pdf") (lower R hr_name) = true ->
  endswith (lit ".zip") (lower R zip_name) = true ->
  App.saved hr_policy = Ok hr_temp_path ->
  App.saved invoices_zip = Ok zip_temp_path ->
  new_llm W = Ok tt ->
  mkdtemp W = Ok temp_dir ->
  FS.makedirs temp_dir (disk W) = Ok t ->
  FS.lookup zip_temp_path t = Some (FS.File None) ->
  rmtree W = Ok tt ->
  (forall summary, process_employees_to_pinecone summary = Ok tt) ->
  (forall p, unlink p = Ok tt) ->
  exists state content entry,
    App.analyze_invoices R W http_str process_employees_to_pinecone unlink
      (S fuel) hr_policy invoices_zip
    = Some (state, App.Json 200 content)
    /\ App.total_employees content = 1
    /\ App.employees_processed content = [lit "Error"]
    /\ App.analysis_summary content = [(lit "Error", entry)]
    /\ invoice_count entry = 0
    /\ invoice_mode entry = lit "other"
    /\ Reimbursement_Status entry = lit "**Pending Review**"
    /\ employee_invoice_data state
       = Some [(lit "Error", lit "File is not a zip file")].
Proof.
  intros Hhr Hzip Hpdf Hz Hs1 Hs2 Hllm Htmp Hmk Hfile Hrm Hpc Hun.
  unfold App.analyze_invoices, App.analyze_invoices_body, App.check_suffix.
  rewrite Hhr, Hzip, Hpdf, Hz, Hs1, Hs2.
  unfold App.analyze_steps, Helper.extract_hr_policy_from_pdf.
  rewrite Hllm. cbn [bind].
  unfold Helper.process_invoices.
  erewrite with_temp_dir_bad_archive;
    [|exact Htmp|exact Hmk|unfold FS.open_zip; rewrite Hfile; reflexivity
     |exact Hrm].
  cbn [Helper.initial_data Helper.with_md_text App.reset_state
       employee_invoice_data Dict.set].
  unfold Helper.get_summary. cbn [Helper.with_invoice_data
    employee_invoice_data Helper.summarize_all].
  assert (Hsum : exists entry,
    Helper.summarize R W [] (lit "Error", FS.not_a_zip)
    = Ok [(lit "Error", entry)]
    /\ invoice_count entry = 0
    /\ invoice_mode entry = lit "other"
    /\ Reimbursement_Status entry = lit "**Pending Review**").
  { unfold Helper.summarize.
    replace (Re.findall (Helper.total_amount_re R) FS.not_a_zip)
      with (@nil str) by (vm_compute; reflexivity).
    cbn [filter mapM bind].
    unfold Helper.get_invoice_category_and_description, try_except.
    replace (Helper.captured_category R FS.not_a_zip) with (lit "other")
      by (vm_compute; reflexivity).
    eexists. split; [reflexivity|].
    split; [vm_compute; reflexivity|].
    split; [vm_compute; reflexivity|].
    vm_compute. reflexivity. }
  destruct Hsum as [entry [Hsum [Hc [Hm Hst]]]].
  change (lit "File is not a zip file") with FS.not_a_zip.
  rewrite Hsum. cbn [bind]. rewrite Hpc.
  unfold App.cleanup. rewrite !Hun.
  eexists. eexists. exists entry.
  split; [reflexivity|]. cbn.
  repeat split; auto.
Qed.

End Analyze.

Lemma analyze_invoices_reply_witness :
  exists state content,
    App.analyze_invoices Latin.rt Sample.world (fun _ detail => detail)
      (fun _ => Ok tt) (fun _ => Ok tt) 5 Sample.policy_upload
      Sample.broken_upload = Some (state, App.Json 200 content)
    /\ App.employees_processed content
       = Dict.keys (App.analysis_summary content)
    /\ exists data,
         employee_invoice_data state = Some data
         /\ Dict.keys data = App.employees_processed content.
Proof.
  eexists. eexists. split; [vm_compute; reflexivity|].
  edestruct (@analyze_invoices_reply Latin.rt nat Sample.world
               (fun _ detail => detail) (fun _ => Ok tt) (fun _ => Ok tt) 5
               Sample.policy_upload Sample.broken_upload)
    as [_ [_ [H3 [_ H5]]]].
  - vm_compute. reflexivity.
  - split; [exact H3 | exact H5].
Defined.

Lemma analyze_invoices_rejects_witness :
  exists detail,
    App.analyze_invoices Latin.rt Sample.world (fun _ detail => detail)
      (fun _ => Ok tt) (fun _ => Ok tt) 5 Sample.text_upload
      Sample.broken_upload
    = Some (App.reset_state,
            App.HTTPError 500 (lit "Error processing invoices: " ++ detail))
    /\ (detail = lit "HR policy must be a PDF file"
        \/ detail = lit "Invoices must be in ZIP format")
    /\ App.get_employee_details Latin.rt App.reset_state (lit "Asha")
       = App.HTTPError 400 App.no_data.
Proof.
  apply (@analyze_invoices_rejects Latin.rt nat Sample.world
           (fun _ detail => detail) (fun _ => Ok tt) (fun _ => Ok tt) 5
           Sample.text_upload Sample.broken_upload (lit "policy.txt")
           (lit "broken.zip") (lit "Asha"));
    reflexivity.
Defined.

Lemma analyze_invoices_corrupt_bundle_witness :
  exists state content entry,
    App.analyze_invoices Latin.rt Sample.world (fun _ detail => detail)
      (fun _ => Ok tt) (fun _ => Ok tt) (S 0) Sample.policy_upload
      Sample.broken_upload = Some (state, App.Json 200 content)
    /\ App.total_employees content = 1
    /\ App.employees_processed content = [lit "Error"]
    /\ App.analysis_summary content = [(lit "Error", entry)]
    /\ invoice_count entry = 0
    /\ invoice_mode entry = lit "other"
    /\ Reimbursement_Status entry = lit "**Pending Review**"
    /\ employee_invoice_data state
       = Some [(lit "Error", lit "File is not a zip file")].
Proof.
  apply (@analyze_invoices_corrupt_bundle Latin.rt nat Sample.world
           (fun _ detail => detail) (fun _ => Ok tt) (fun _ => Ok tt) 0
           Sample.policy_upload Sample.broken_upload (lit "policy.pdf")
           (lit "broken.zip") [lit "policy.pdf"] [lit "broken.zip"]
           [lit "tmp"] Sample.staged);
    reflexivity.
Defined.
